(** * GTCheck: the diff parser, the diff renderer and the review session

    A shallow embedding of [gtcheck/app.py].  Python [str] values are
    [string]s (one [ascii] per character), Python [int]s are [Z], Python
    lists are [list]s, and a Python exception is a value of [PyExn] carried
    by the [Raise] constructor of [Res]. *)

From Stdlib Require Import String Ascii List ZArith Lia Bool Arith.
From Stdlib Require Import DecimalString.
From Stdlib Require DecimalFacts DecimalPos DecimalN DecimalZ.
Import ListNotations.

Open Scope string_scope.
Open Scope list_scope.
Open Scope Z_scope.

(** ** Python exceptions and fallible results *)

Inductive PyExn : Type :=
| KeyError
| IndexError
| AttributeError
| UnicodeDecodeError
| IOError
| GitCommandError
| RecursionError.

Inductive Res (A : Type) : Type :=
| Ok (a : A)
| Raise (e : PyExn).

Arguments Ok {A} a.
Arguments Raise {A} e.

(** ** Python string primitives *)

Module PyStr.

Definition newline : ascii := "010"%char.

(** [old in s] *)
Fixpoint contains (pat s : string) : bool :=
  if prefix pat s then true
  else match s with
       | EmptyString => false
       | String _ s' => contains pat s'
       end.

(** [s.replace(old, new)] for a non-empty [old]: occurrences are taken
    left to right and do not overlap.  [k] counts the characters of the
    occurrence just replaced that are still to be passed over. *)
Fixpoint replace_from (old new : string) (k : nat) (s : string) : string :=
  match s with
  | EmptyString => EmptyString
  | String c s' =>
      match k with
      | S k' => replace_from old new k' s'
      | O => if prefix old s
             then (new ++ replace_from old new (Nat.pred (String.length old)) s')%string
             else String c (replace_from old new O s')
      end
  end.

Definition replace (old new s : string) : string := replace_from old new O s.

(** [s.split(sep)] for a non-empty [sep]; [cur] is the piece being read,
    in reverse. *)
Fixpoint rev_string (acc s : string) : string :=
  match s with
  | EmptyString => acc
  | String c s' => rev_string (String c acc) s'
  end.

Fixpoint split_from (sep : string) (k : nat) (cur : string) (s : string)
  : list string :=
  match s with
  | EmptyString => [rev_string "" cur]
  | String c s' =>
      match k with
      | S k' => split_from sep k' cur s'
      | O => if prefix sep s
             then rev_string "" cur
                    :: split_from sep (Nat.pred (String.length sep)) "" s'
             else split_from sep O (String c cur) s'
      end
  end.

Definition split (sep s : string) : list string := split_from sep O "" s.

(** [sep.join(l)] *)
Fixpoint join (sep : string) (l : list string) : string :=
  match l with
  | [] => ""
  | [x] => x
  | x :: rest => (x ++ sep ++ join sep rest)%string
  end.

(** The characters [str.strip()] removes, among those up to U+00FF: the
    7-bit white space, the next line mark U+0085 and the no-break space
    U+00A0. *)
Definition is_space (c : ascii) : bool :=
  let n := nat_of_ascii c in
  (((9 <=? n) && (n <=? 13)) || ((28 <=? n) && (n <=? 32))
   || (n =? 133) || (n =? 160))%nat.

Fixpoint lstrip_by (f : ascii -> bool) (s : string) : string :=
  match s with
  | EmptyString => EmptyString
  | String c s' => if f c then lstrip_by f s' else s
  end.

Definition rstrip_by (f : ascii -> bool) (s : string) : string :=
  rev_string "" (lstrip_by f (rev_string "" s)).

(** [s.strip()] *)
Definition strip (s : string) : string :=
  rstrip_by is_space (lstrip_by is_space s).

(** [s.lstrip(" ")] *)
Definition lstrip_blank (s : string) : string :=
  lstrip_by (fun c => Ascii.eqb c " "%char) s.

(** [str(n)] for an [int] *)
Definition str_of_int (n : Z) : string :=
  NilZero.string_of_int (Z.to_int n).

Fixpoint drop (n : nat) (s : string) : string :=
  match n, s with
  | O, _ => s
  | S n', String _ s' => drop n' s'
  | S _, EmptyString => EmptyString
  end.

End PyStr.

(** ** Python list primitives *)

Module PyList.

(** [l[-1]] *)
Definition last_item {A} (l : list A) : Res A :=
  match rev l with
  | x :: _ => Ok x
  | [] => Raise IndexError
  end.

(** [l[i]] for a literal index [i >= 0] *)
Definition item {A} (l : list A) (i : nat) : Res A :=
  match nth_error l i with
  | Some x => Ok x
  | None => Raise IndexError
  end.

(** [l[a:]]: a negative [a] counts from the end. *)
Definition slice_from {A} (l : list A) (a : Z) : list A :=
  if a <? 0
  then skipn (Z.to_nat (Z.of_nat (length l) + a)) l
  else skipn (Z.to_nat a) l.

(** [l[:b]]: a negative [b] counts from the end. *)
Definition slice_to {A} (l : list A) (b : Z) : list A :=
  if b <? 0
  then firstn (Z.to_nat (Z.of_nat (length l) + b)) l
  else firstn (Z.to_nat b) l.

(** [[x] * n]: empty when [n <= 0]. *)
Definition times {A} (x : A) (n : Z) : list A := repeat x (Z.to_nat n).

Fixpoint remove_at {A} (i : nat) (l : list A) : list A :=
  match l, i with
  | [], _ => []
  | _ :: rest, O => rest
  | x :: rest, S i' => x :: remove_at i' rest
  end.

(** [l.pop(i)]: a negative [i] counts from the end; an index outside the
    list, or any index on the empty list, raises [IndexError]. *)
Definition pop {A} (l : list A) (i : Z) : Res (list A) :=
  let n := Z.of_nat (length l) in
  let j := if i <? 0 then i + n else i in
  if (j <? 0) || (n <=? j) then Raise IndexError
  else Ok (remove_at (Z.to_nat j) l).

End PyList.

(** ** The modification parser: [modifications] *)

(** One match of [(\[-(.*?)-\]|{\+(.*?)\+})]: [m_start] and [m_end] are
    [mod.regs[0]], [m_sub] is [mod[2]] and [m_add] is [mod[3]] ([None] for
    the group of the alternative that did not take part). *)
Record Match : Type := mkMatch {
  m_start : nat;
  m_end : nat;
  m_sub : option string;
  m_add : option string
}.

Module Regex.

(** [(.*?)close] read at the head of [s]: the shortest run of characters
    other than a newline that is followed by [close]. *)
Fixpoint lazy_until (close : string) (s : string) : option string :=
  if prefix close s then Some EmptyString
  else match s with
       | EmptyString => None
       | String c s' =>
           if Ascii.eqb c PyStr.newline then None
           else match lazy_until close s' with
                | Some t => Some (String c t)
                | None => None
                end
       end.

(** The pattern tried at the head of [s]: groups 2 and 3, and the length
    of the whole match. *)
Definition match_here (s : string) : option (option string * option string * nat) :=
  let alt1 :=
    if prefix "[-" s
    then match lazy_until "-]" (PyStr.drop 2 s) with
         | Some t => Some (Some t, None, (String.length t + 4)%nat)
         | None => None
         end
    else None in
  match alt1 with
  | Some r => Some r
  | None =>
      if prefix "{+" s
      then match lazy_until "+}" (PyStr.drop 2 s) with
           | Some t => Some (None, Some t, (String.length t + 4)%nat)
           | None => None
           end
      else None
  end.

(** [re.finditer]: [pos] is the index of the head of [s] in the subject,
    [k] the number of characters of the last match still to pass over. *)
Fixpoint finditer_from (pos k : nat) (s : string) : list Match :=
  match s with
  | EmptyString => []
  | String _ s' =>
      match k with
      | S k' => finditer_from (S pos) k' s'
      | O =>
          match match_here s with
          | Some (g2, g3, len) =>
              mkMatch pos (pos + len) g2 g3
                :: finditer_from (S pos) (Nat.pred len) s'
          | None => finditer_from (S pos) O s'
          end
      end
  end.

Definition finditer (s : string) : list Match := finditer_from 0 0 s.

End Regex.

(** A unit [[sub, add]]: the list of two strings the parser appends. *)
Definition ModUnit : Type := (string * string)%type.

Definition or_empty (g : option string) : string :=
  match g with
  | Some t => t
  | None => ""
  end.

(** [mods[len(mods) - 1][1] = add] *)
Definition set_last_add (mods : list ModUnit) (add : string) : list ModUnit :=
  match rev mods with
  | (sub, _) :: before => rev before ++ [(sub, add)]
  | [] => mods
  end.

Definition last_add (mods : list ModUnit) : string :=
  match rev mods with
  | (_, add) :: _ => add
  | [] => ""
  end.

(** The body of the [for] loop of [modifications] on the state
    [(mods, last_pos)]. *)
Definition modifications_step (st : list ModUnit * nat) (m : Match)
  : list ModUnit * nat :=
  let '(mods, last_pos) := st in
  let sub := or_empty (m_sub m) in
  let add := or_empty (m_add m) in
  if negb (String.eqb add "") && (0 <? length mods)%nat
     && (last_pos =? m_start m)%nat
  then
    if String.eqb (last_add mods) ""
    then (set_last_add mods add, last_pos)
    else (mods ++ [(sub, add)], m_end m)
  else (mods ++ [(sub, add)], m_end m).

Definition modifications_of (ms : list Match) : list ModUnit :=
  fst (fold_left modifications_step ms ([], 1%nat)).

Definition modifications (difftext : string) : list ModUnit :=
  modifications_of (Regex.finditer difftext).

(** ** The diff renderer: [color_diffs] *)

Definition dquote : string := String (ascii_of_nat 34) EmptyString.

Definition span_green : string :=
  ("<span style=" ++ dquote ++ "color:green" ++ dquote ++ ">")%string.

Definition span_red : string :=
  ("<span style=" ++ dquote ++ "color:red" ++ dquote ++ ">")%string.

Definition span_close : string := "</span>".

Definition color_diffs (difftext : string) : string :=
  PyStr.replace "-]" span_close
    (PyStr.replace "[-" span_red
       (PyStr.replace "+}" span_close
          (PyStr.replace "{+" span_green difftext))).

(** ** The repository, the file system and the session *)

(** The result of [bytes.decode('utf-8')]. *)
Inductive Decoded : Type :=
| Text (s : string)
| Undecodable.

(** [item.diff]: the [bytes] of the patch of an item fetched with
    [create_patch], and a [str] (the empty one) on an item fetched
    without. *)
Inductive DiffData : Type :=
| DiffBytes (d : Decoded)
| DiffStr (s : string).

(** An item of [repo.index.diff(None, ...)], with the attributes the
    program reads. *)
Record DiffItem : Type := mkDiffItem {
  a_path : string;
  b_path : option string;
  a_blob : option Decoded;
  b_blob : option Decoded;
  deleted_file : bool;
  new_file : bool;
  diff : DiffData
}.

(** [session['reservefile']] *)
Record Reservation : Type := mkReservation {
  Repo : string;
  Bearbeiter : string;
  Reserviert_seit : string;
  Dateien_bearbeitet : Z;
  Dateien_gesamt : Z
}.

(** The calls that change the repository or the file system. *)
Inductive Event : Type :=
| GitAdd (path : string)
| GitCommit (msg : string)
| GitResetHead (path : string)
| GitCheckout (path : string)
| GitRmForce (path : string)
| SetConfig (key value : string)
| WriteFile (path content : string)
| DumpReservation (path : string) (r : Reservation)
| Symlink (link target : string).

(** The two calls of [app.logger.warning] in [get_difftext]. *)
Inductive Warning : Type :=
| DiffNotDecoded (path : string)
| FilesNotCompared (path : string).

(** What the template receives about the image of a file. *)
Record ImageCtx : Type := mkImageCtx {
  img_out : string;
  img_name : string;
  prev_img : string;
  post_img : string
}.

(** The collaborators of the program.  Every answer is a function of the
    calls made so far. *)
Record Env : Type := mkEnv {
  (** [repo.config_reader().get_value('user', key)] *)
  config_value : list Event -> string -> Res string;
  (** [repo.git.diff('--cached', '--shortstat')] *)
  diff_cached_shortstat : list Event -> Res string;
  (** [repo.index.diff(None, paths=..., create_patch=...)]; no [paths]
      argument is [None] *)
  index_diff : list Event -> option (list (option string)) -> bool
               -> Res (list DiffItem);
  (** [open(path).read()] *)
  read_text : list Event -> string -> Res string;
  (** the output of [git hash-object - --stdin] on an input *)
  hash_object : string -> Res string;
  (** [repo.git.diff(h1, h2, '-p', '--word-diff')] *)
  diff_objects : list Event -> string -> string -> Res string;
  (** [path.exists()] *)
  path_exists : list Event -> string -> bool;
  (** lines 211 to 223 of [gtcheck]: the image of a file and its
      neighbours, [None] when the file has no image *)
  image_context : list Event -> string -> string -> Res (option ImageCtx);
  (** the exception a call raises, if any *)
  effect_error : list Event -> Event -> option PyExn;
  (** [get_mainfolder()] *)
  mainfolder : string;
  (** [Path(__file__).resolve().parent] *)
  app_dir : string
}.

(** The Flask session.  [gtcheckinit] stores the first eight keys; the
    others are absent ([None]) until they are assigned, and reading an
    absent key raises [KeyError]. *)
Record Session : Type := mkSession {
  folder : string;
  skip : Z;
  difflist : list (option string);
  difflen : Z;
  reservefile : Reservation;
  vkeylang : string;
  undo_fpath : string;
  undo_value : string;
  modtype : option string;
  modtext : option string;
  fname : option string;
  fpath : option string;
  fileidx : option Z;
  skipcc : option bool;
  addcc : option bool
}.

Definition set_skip (v : Z) (s : Session) : Session :=
  mkSession (folder s) v (difflist s) (difflen s) (reservefile s)
    (vkeylang s) (undo_fpath s) (undo_value s) (modtype s) (modtext s)
    (fname s) (fpath s) (fileidx s) (skipcc s) (addcc s).

Definition set_difflist (v : list (option string)) (s : Session) : Session :=
  mkSession (folder s) (skip s) v (difflen s) (reservefile s)
    (vkeylang s) (undo_fpath s) (undo_value s) (modtype s) (modtext s)
    (fname s) (fpath s) (fileidx s) (skipcc s) (addcc s).

Definition set_difflen (v : Z) (s : Session) : Session :=
  mkSession (folder s) (skip s) (difflist s) v (reservefile s)
    (vkeylang s) (undo_fpath s) (undo_value s) (modtype s) (modtext s)
    (fname s) (fpath s) (fileidx s) (skipcc s) (addcc s).

Definition set_reservefile (v : Reservation) (s : Session) : Session :=
  mkSession (folder s) (skip s) (difflist s) (difflen s) v
    (vkeylang s) (undo_fpath s) (undo_value s) (modtype s) (modtext s)
    (fname s) (fpath s) (fileidx s) (skipcc s) (addcc s).

Definition set_vkeylang (v : string) (s : Session) : Session :=
  mkSession (folder s) (skip s) (difflist s) (difflen s) (reservefile s)
    v (undo_fpath s) (undo_value s) (modtype s) (modtext s)
    (fname s) (fpath s) (fileidx s) (skipcc s) (addcc s).

Definition set_undo_fpath (v : string) (s : Session) : Session :=
  mkSession (folder s) (skip s) (difflist s) (difflen s) (reservefile s)
    (vkeylang s) v (undo_value s) (modtype s) (modtext s)
    (fname s) (fpath s) (fileidx s) (skipcc s) (addcc s).

Definition set_undo_value (v : string) (s : Session) : Session :=
  mkSession (folder s) (skip s) (difflist s) (difflen s) (reservefile s)
    (vkeylang s) (undo_fpath s) v (modtype s) (modtext s)
    (fname s) (fpath s) (fileidx s) (skipcc s) (addcc s).

Definition set_modtype (v : string) (s : Session) : Session :=
  mkSession (folder s) (skip s) (difflist s) (difflen s) (reservefile s)
    (vkeylang s) (undo_fpath s) (undo_value s) (Some v) (modtext s)
    (fname s) (fpath s) (fileidx s) (skipcc s) (addcc s).

Definition set_modtext (v : string) (s : Session) : Session :=
  mkSession (folder s) (skip s) (difflist s) (difflen s) (reservefile s)
    (vkeylang s) (undo_fpath s) (undo_value s) (modtype s) (Some v)
    (fname s) (fpath s) (fileidx s) (skipcc s) (addcc s).

Definition set_fname (v : string) (s : Session) : Session :=
  mkSession (folder s) (skip s) (difflist s) (difflen s) (reservefile s)
    (vkeylang s) (undo_fpath s) (undo_value s) (modtype s) (modtext s)
    (Some v) (fpath s) (fileidx s) (skipcc s) (addcc s).

Definition set_fpath (v : string) (s : Session) : Session :=
  mkSession (folder s) (skip s) (difflist s) (difflen s) (reservefile s)
    (vkeylang s) (undo_fpath s) (undo_value s) (modtype s) (modtext s)
    (fname s) (Some v) (fileidx s) (skipcc s) (addcc s).

Definition set_fileidx (v : Z) (s : Session) : Session :=
  mkSession (folder s) (skip s) (difflist s) (difflen s) (reservefile s)
    (vkeylang s) (undo_fpath s) (undo_value s) (modtype s) (modtext s)
    (fname s) (fpath s) (Some v) (skipcc s) (addcc s).

Definition set_Dateien_bearbeitet (v : Z) (r : Reservation) : Reservation :=
  mkReservation (Repo r) (Bearbeiter r) (Reserviert_seit r) v (Dateien_gesamt r).

Definition set_Dateien_gesamt (v : Z) (r : Reservation) : Reservation :=
  mkReservation (Repo r) (Bearbeiter r) (Reserviert_seit r)
    (Dateien_bearbeitet r) v.

(** The state a request runs in: the session, the calls made so far and
    the warnings logged so far. *)
Record World : Type := mkWorld {
  session : Session;
  trace : list Event;
  log : list Warning
}.

(** ** A state and exception monad for the request handlers *)

Definition M (A : Type) : Type := World -> Res (A * World).

Definition ret {A} (a : A) : M A := fun w => Ok (a, w).

Definition bind {A B} (m : M A) (k : A -> M B) : M B :=
  fun w => match m w with
           | Ok (a, w') => k a w'
           | Raise e => Raise e
           end.

Definition raise {A} (e : PyExn) : M A := fun _ => Raise e.

Notation "x <- m ;; k" := (bind m (fun x => k))
  (at level 61, m at next level, right associativity).
Notation "m ;;; k" := (bind m (fun _ => k))
  (at level 61, right associativity).

(** A pure computation that may raise. *)
Definition lift {A} (r : Res A) : M A :=
  fun w => match r with
           | Ok a => Ok (a, w)
           | Raise e => Raise e
           end.

(** [session[key]] for a key that [gtcheckinit] stores. *)
Definition read {A} (key : Session -> A) : M A :=
  fun w => Ok (key (session w), w).

(** [session[key]] for a key that may be absent. *)
Definition read_key {A} (key : Session -> option A) : M A :=
  fun w => match key (session w) with
           | Some v => Ok (v, w)
           | None => Raise KeyError
           end.

(** [session[key] = v] *)
Definition assign (upd : Session -> Session) : M unit :=
  fun w => Ok (tt, mkWorld (upd (session w)) (trace w) (log w)).

(** [app.logger.warning(...)] *)
Definition warning (wn : Warning) : M unit :=
  fun w => Ok (tt, mkWorld (session w) (trace w) (log w ++ [wn])).

(** [try: body except: handler].  The two [try] bodies of the program
    read the repository and change nothing, so the handler starts from the
    state the body started from. *)
Definition try_except {A} (body : M A) (catches : PyExn -> bool)
  (handler : M A) : M A :=
  fun w => match body w with
           | Ok r => Ok r
           | Raise e => if catches e then handler w else Raise e
           end.

Section Handlers.

Variable env : Env.

(** A question to a collaborator. *)
Definition ask {A} (q : list Event -> Res A) : M A :=
  fun w => match q (trace w) with
           | Ok a => Ok (a, w)
           | Raise e => Raise e
           end.

(** A call that changes the repository or the file system. *)
Definition emit (e : Event) : M unit :=
  fun w => match effect_error env (trace w) e with
           | Some x => Raise x
           | None => Ok (tt, mkWorld (session w) (trace w ++ [e]) (log w))
           end.

(** [Path(a).joinpath(b)] for a relative [b] *)
Definition joinpath (a b : string) : string := (a ++ "/" ++ b)%string.

(** [Path(p).name] *)
Definition path_name (p : string) : string :=
  match rev (PyStr.split "/" p) with
  | x :: _ => x
  | [] => p
  end.

(** [bytes.decode()] *)
Definition decode (d : Decoded) : Res string :=
  match d with
  | Text s => Ok s
  | Undecodable => Raise UnicodeDecodeError
  end.

(** [item.diff.decode('utf-8')]: a [str] has no [decode]. *)
Definition decode_diff (d : DiffData) : Res string :=
  match d with
  | DiffBytes b => decode b
  | DiffStr _ => Raise AttributeError
  end.

(** [blob.data_stream.read().decode()], on [None] an [AttributeError] *)
Definition blob_text (b : option Decoded) : Res string :=
  match b with
  | Some d => decode d
  | None => Raise AttributeError
  end.

Definition get_gitdifftext (orig diff_ : string) : M string :=
  p <- lift (hash_object env orig) ;;
  p2 <- lift (hash_object env diff_) ;;
  out <- ask (fun tr => diff_objects env tr (PyStr.strip p) (PyStr.strip p2)) ;;
  last_part <- lift (PyList.last_item (PyStr.split "@@" out)) ;;
  ret (PyStr.strip last_part).

Definition conflict_head : string :=
  String.append "<<<<<<< HEAD" (String PyStr.newline EmptyString).

Definition conflict_tail : string :=
  String PyStr.newline ">>>>>>>".

Definition conflict_middle : string :=
  String PyStr.newline
    (String.append "=======" (String PyStr.newline EmptyString)).

Definition is_UnicodeDecodeError (e : PyExn) : bool :=
  match e with
  | UnicodeDecodeError => true
  | _ => false
  end.

Definition get_difftext (origtext : string) (item : DiffItem)
  (folder_ : string) : M string :=
  if PyStr.contains conflict_head origtext
  then
    content <- ask (fun tr => read_text env tr (joinpath folder_ (a_path item))) ;;
    part <- lift (PyList.last_item (PyStr.split conflict_head content)) ;;
    part <- lift (PyList.item (PyStr.split conflict_tail part) 0) ;;
    let mergetext := PyStr.split conflict_middle part in
    m0 <- lift (PyList.item mergetext 0) ;;
    m1 <- lift (PyList.item mergetext 1) ;;
    get_gitdifftext m0 m1
  else
    try_except
      (text <- lift (decode_diff (diff item)) ;;
       ret (PyStr.join "" (tl (PyStr.split (String PyStr.newline EmptyString) text))))
      is_UnicodeDecodeError
      (warning (DiffNotDecoded (a_path item)) ;;;
       try_except
         (working <- lift (blob_text (b_blob item)) ;;
          get_gitdifftext origtext working)
         (fun _ => true)
         (warning (FilesNotCompared (a_path item)) ;;;
          ret EmptyString)).

(** [pop_idx] on a list *)
Definition pop_idx_list {A} (l : list A) (popidx : Z) : Res (list A) :=
  if Z.of_nat (length l) >? popidx then PyList.pop l popidx else Ok l.

(** [pop_idx(lname, popidx)]; every call passes ['difflist'], the one
    list the session holds. *)
Definition pop_idx (popidx : Z) : M unit :=
  l <- read difflist ;;
  l' <- lift (pop_idx_list l popidx) ;;
  assign (set_difflist l').

End Handlers.

(** ** The pages the handlers render *)

(** The arguments of [render_template("gtcheck.html", ...)] for a file. *)
Record FilePage : Type := mkFilePage {
  pg_reponame : string;
  pg_files_len : Z;
  pg_name : string;
  pg_email : string;
  pg_commitmsg : string;
  pg_image : option ImageCtx;
  pg_difftext : string;
  pg_origtext : string;
  pg_modtext : string;
  pg_files_left : string;
  pg_fname : string;
  pg_skipped : Z;
  pg_vkeylang : string
}.

Inductive Page : Type :=
| PageFile (p : FilePage)
  (** the page of the [else] of the loop: everything left is staged *)
| PageStaged (reponame name email commitmsg modtext_ files_left : string)
  (** [render_template("nofile.html")] *)
| PageNoFile.

(** How one turn of the [for] loop of [gtcheck] ends: [continue] with the
    new [nextcounter], or [return] of a page. *)
Inductive LoopStep : Type :=
| Continue (nextcounter : Z)
| Return (page : Page).

Definition msg_new : string :=
  "<span style='color:green'>This untracked file gets added when committed and deleted when stashed!</span>".

Definition msg_del : string :=
  "<span style='color:red'>This file gets deleted when committed and restored when stashed!</span>".

Section Gtcheck.

Variable env : Env.

(** [str(filename)] *)
Definition str_of_filename (filename : option string) : string :=
  match filename with
  | Some p => p
  | None => "None"
  end.

Definition truthy (s : string) : bool := negb (String.eqb s EmptyString).

(** [not item.b_path] *)
Definition no_b_path (item : DiffItem) : bool :=
  match b_path item with
  | Some p => negb (truthy p)
  | None => true
  end.

(** Lines 163 to 167: the diff item of a queued file. *)
Definition find_item (filename : option string) : M DiffItem :=
  items <- ask (fun tr => index_diff env tr (Some [filename]) true) ;;
  match items with
  | item :: _ => ret item
  | [] =>
      items <- ask (fun tr => index_diff env tr (Some [filename]) false) ;;
      lift (PyList.item items 0)
  end.

(** The commit message proposed for a file. *)
Definition file_commitmsg (item : DiffItem) (mods : list ModUnit) : string :=
  ("[GT Checked]  " ++ a_path item ++ ": "
   ++ PyStr.join ", "
        (map (fun u : ModUnit => fst u ++ " -> " ++ snd u) mods))%string.

Definition staged_commitmsg (n : string) : string :=
  ("[GT Checked] Staged Files: " ++ n)%string.

(** Lines 176 to 231: what the loop does with a file once its original
    text and its diff text are known. *)
Definition gtcheck_present (reponame name email diffhead : string)
  (fileidx_ nextcounter : Z) (filename : option string)
  (item : DiffItem) (origtext difftext : string) : M LoopStep :=
  let mergetext : list string := [] in
  let diffcolored := color_diffs difftext in
  diffcolored <-
    (if (String.eqb origtext EmptyString && negb (deleted_file item))
        || new_file item
     then assign (set_modtype "new") ;;; ret msg_new
     else ret diffcolored) ;;
  folder_ <- read folder ;;
  shown <-
    (if deleted_file item || no_b_path item
     then assign (set_modtype "del") ;;; ret (EmptyString, msg_del)
     else
       match mergetext with
       | _ :: _ =>
           assign (set_modtype "merge") ;;;
           m1 <- lift (PyList.item mergetext 1) ;;
           ret (m1, diffcolored)
       | [] =>
           content <- ask (fun tr =>
                        read_text env tr
                          (joinpath folder_ (or_empty (b_path item)))) ;;
           ret (PyStr.lstrip_blank content, diffcolored)
       end) ;;
  let modtext_ := fst shown in
  let diffcolored := snd shown in
  skip_clean <-
    (if String.eqb (PyStr.strip origtext) (PyStr.strip modtext_)
     then read_key skipcc
     else ret false) ;;
  if skip_clean
  then
    addcc_ <- read_key addcc ;;
    (if addcc_
     then
       skip_ <- read skip ;;
       pop_idx (skip_ + fileidx_) ;;;
       emit env (GitAdd (str_of_filename filename))
     else
       skip_ <- read skip ;;
       assign (set_skip (skip_ + 1))) ;;;
    ret (Continue (nextcounter + 1))
  else
    let fname_ := joinpath folder_ (a_path item) in
    let mods := modifications difftext in
    difflen_ <- read difflen ;;
    let commitmsg :=
      if truthy diffhead
      then staged_commitmsg (PyStr.str_of_int difflen_)
      else file_commitmsg item mods in
    assign (set_modtext modtext_) ;;;
    assign (set_fname fname_) ;;;
    assign (set_fpath (a_path item)) ;;;
    assign (set_fileidx (fileidx_ - nextcounter)) ;;;
    let imgfolder :=
      joinpath (app_dir env)
        (String.append "static/symlink/" (path_name folder_)) in
    exists_ <- ask (fun tr => Ok (path_exists env tr imgfolder)) ;;
    (if exists_ then ret tt else emit env (Symlink imgfolder folder_)) ;;;
    img <- ask (fun tr => image_context env tr folder_ fname_) ;;
    rf <- read reservefile ;;
    difflen_ <- read difflen ;;
    skip_ <- read skip ;;
    vkeylang_ <- read vkeylang ;;
    ret (Return (PageFile
           (mkFilePage reponame (Dateien_gesamt rf) name email commitmsg
              img diffcolored origtext modtext_
              (PyStr.str_of_int (difflen_ - skip_))
              (path_name fname_) skip_ vkeylang_))).

(** Lines 163 to 231: the body of the [for] loop of [gtcheck]. *)
Definition gtcheck_file (reponame name email diffhead : string)
  (fileidx_ nextcounter : Z) (filename : option string) : M LoopStep :=
  item <- find_item filename ;;
  match a_blob item, b_blob item with
  | None, None =>
      skip_ <- read skip ;;
      pop_idx (skip_ + fileidx_) ;;;
      ret (Continue (nextcounter + 1))
  | _, _ =>
      assign (set_modtype "mod") ;;;
      origtext <- lift (blob_text (a_blob item)) ;;
      let origtext := PyStr.lstrip_blank origtext in
      folder_ <- read folder ;;
      difftext <- get_difftext env origtext item folder_ ;;
      gtcheck_present reponame name email diffhead fileidx_ nextcounter
        filename item origtext difftext
  end.

(** The [for] loop over [enumerate(difflist)]; [None] when the loop ends
    without a [return]. *)
Fixpoint gtcheck_loop (reponame name email diffhead : string)
  (fileidx_ nextcounter : Z) (l : list (option string)) : M (option Page) :=
  match l with
  | [] => ret None
  | filename :: rest =>
      r <- gtcheck_file reponame name email diffhead fileidx_ nextcounter
             filename ;;
      match r with
      | Continue nextcounter' =>
          gtcheck_loop reponame name email diffhead (fileidx_ + 1)
            nextcounter' rest
      | Return page => ret (Some page)
      end
  end.

(** Lines 153 to 159: the queue is built again when it is empty or the
    cursor has reached its end. *)
Definition gtcheck_rebuild : M unit :=
  l <- read difflist ;;
  skip_ <- read skip ;;
  let stale :=
    match l with
    | _ :: _ => Z.of_nat (length l) <=? skip_
    | [] => true
    end in
  if stale
  then
    items <- ask (fun tr => index_diff env tr None false) ;;
    let l' := map (fun it => Some (a_path it))
                (filter (fun it => PyStr.contains ".gt.txt" (a_path it)) items) in
    assign (set_difflist l') ;;;
    if Z.of_nat (length l') <=? skip_
    then assign (set_difflist (PyList.times None skip_))
    else
      assign (set_difflen (Z.of_nat (length l'))) ;;;
      assign (set_difflist (PyList.slice_to l' (skip_ + 100)))
  else ret tt.

(** [gtcheck(reponame)].  The function calls itself at its end; [fuel]
    is the depth of calls the interpreter allows. *)
Fixpoint gtcheck (fuel : nat) (reponame : string) : M Page :=
  match fuel with
  | O => raise RecursionError
  | S fuel' =>
      name <- ask (fun tr => config_value env tr "name") ;;
      let name := if String.eqb name EmptyString then "GTChecker" else name in
      email <- ask (fun tr => config_value env tr "email") ;;
      out <- ask (diff_cached_shortstat env) ;;
      diffhead <- lift (PyList.item (PyStr.split " " (PyStr.strip out)) 0) ;;
      gtcheck_rebuild ;;;
      l <- read difflist ;;
      skip_ <- read skip ;;
      r <- gtcheck_loop reponame name email diffhead 0 0
             (PyList.slice_from l skip_) ;;
      match r with
      | Some page => ret page
      | None =>
          if truthy diffhead
          then
            skip_ <- read skip ;;
            assign (set_difflen skip_) ;;;
            ret (PageStaged reponame name email (staged_commitmsg diffhead)
                   ("Du hast " ++ PyStr.str_of_int skip_
                    ++ " Dateien übersprungen!.")%string "0")
          else
            l <- read difflist ;;
            match l with
            | [] => ret PageNoFile
            | _ :: _ =>
                assign (set_skip 0) ;;;
                gtcheck fuel' reponame
            end
      end
  end.

End Gtcheck.

(** ** The decision on a file: [gtcheckedit] *)

(** [request.form]: the keys read with [data[...]] and, as options, the keys
    read with [data.get(...)]. *)
Record Form : Type := mkForm {
  form_selection : string;
  form_commitmsg : string;
  form_modtext : string;
  form_vkeylang : string;
  form_name : option string;
  form_email : option string;
  form_undo : option string
}.

Section Gtcheckedit.

Variable env : Env.

Definition crlf : string :=
  String (ascii_of_nat 13) (String PyStr.newline EmptyString).

Definition lf : string := String PyStr.newline EmptyString.

(** [data.get(key, default)] *)
Definition get_or (v : option string) (default : string) : string :=
  match v with
  | Some x => x
  | None => default
  end.

(** Lines 285 to 287 and 306 to 308: the submitted text is written when
    it differs from the text shown, or when the file is a merge. *)
Definition write_if_changed (fname_ modtext_ : string) : M unit :=
  shown <- read_key modtext ;;
  changed <-
    (if negb (String.eqb (PyStr.replace crlf lf shown) modtext_)
     then ret true
     else
       modtype_ <- read_key modtype ;;
       ret (String.eqb modtype_ "merge")) ;;
  if changed then emit env (WriteFile fname_ modtext_) else ret tt.

(** [json.dump(session['reservefile'], fout)] on the reservation file *)
Definition dump_reservation : M unit :=
  rf <- read reservefile ;;
  emit env
    (DumpReservation
       (joinpath (mainfolder env)
          ("reservations/" ++ Repo rf ++ ".json")%string) rf).

(** Lines 276 to 280: the undo. *)
Definition gtcheckedit_undo (data : Form) : M unit :=
  if truthy (get_or (form_undo data) EmptyString)
  then
    undo_fpath_ <- read undo_fpath ;;
    emit env (GitResetHead undo_fpath_) ;;;
    undo_value_ <- read undo_value ;;
    emit env (WriteFile undo_fpath_ undo_value_) ;;;
    difflen_ <- read difflen ;;
    assign (set_difflen (difflen_ + 1))
  else ret tt.

(** Lines 283 to 313: the decision.  The result tells whether the
    handler goes on to [pop_idx] (the [skip] decision does not). *)
Definition gtcheckedit_decision (data : Form) (fname_ modtext_ : string)
  : M bool :=
  if String.eqb (form_selection data) "commit"
  then
    difflen_ <- read difflen ;;
    skip_ <- read skip ;;
    (if negb (difflen_ - skip_ =? 0)
     then
       write_if_changed fname_ modtext_ ;;;
       emit env (GitAdd fname_) ;;;
       rf <- read reservefile ;;
       difflen_ <- read difflen ;;
       assign (set_reservefile
                 (set_Dateien_bearbeitet (Dateien_gesamt rf - difflen_) rf)) ;;;
       dump_reservation
     else ret tt) ;;;
    emit env (GitCommit (form_commitmsg data)) ;;;
    assign (set_difflist []) ;;;
    difflen_ <- read difflen ;;
    assign (set_difflen (difflen_ - 1)) ;;;
    ret true
  else if String.eqb (form_selection data) "stash"
  then
    modtype_ <- read_key modtype ;;
    (if String.eqb modtype_ "new"
     then emit env (GitRmForce fname_)
     else emit env (GitCheckout fname_)) ;;;
    rf <- read reservefile ;;
    assign (set_reservefile (set_Dateien_gesamt (Dateien_gesamt rf - 1) rf)) ;;;
    dump_reservation ;;;
    ret true
  else if String.eqb (form_selection data) "add"
  then
    write_if_changed fname_ modtext_ ;;;
    emit env (GitAdd fname_) ;;;
    difflen_ <- read difflen ;;
    assign (set_difflen (difflen_ - 1)) ;;;
    ret true
  else
    skip_ <- read skip ;;
    assign (set_skip (skip_ + 1)) ;;;
    ret false.

(** Lines 281 to 315: the snapshot of the file shown, the decision and
    the next page. *)
Definition gtcheckedit_finish (fuel : nat) (reponame : string) (data : Form)
  (fname_ modtext_ : string) : M Page :=
  assign (set_undo_fpath fname_) ;;;
  shown <- read_key modtext ;;
  assign (set_undo_value shown) ;;;
  pops <- gtcheckedit_decision data fname_ modtext_ ;;
  (if pops
   then
     skip_ <- read skip ;;
     fileidx_ <- read_key fileidx ;;
     pop_idx (skip_ + fileidx_)
   else ret tt) ;;;
  gtcheck env fuel reponame.

Definition gtcheckedit (fuel : nat) (reponame : string) (data : Form)
  : M Page :=
  difflen_ <- read difflen ;;
  skip_ <- read skip ;;
  if difflen_ - skip_ =? 0
  then
    (if String.eqb (form_selection data) "commit"
     then emit env (GitCommit (form_commitmsg data))
     else ret tt) ;;;
    assign (set_difflist []) ;;;
    gtcheck env fuel reponame
  else
    folder_ <- read folder ;;
    fpath_ <- read_key fpath ;;
    let fname_ := joinpath folder_ fpath_ in
    emit env (SetConfig "name" (get_or (form_name data) "GTChecker")) ;;;
    emit env (SetConfig "email" (get_or (form_email data) EmptyString)) ;;;
    let modtext_ := PyStr.replace crlf lf (form_modtext data) in
    assign (set_vkeylang (form_vkeylang data)) ;;;
    gtcheckedit_undo data ;;;
    gtcheckedit_finish fuel reponame data fname_ modtext_.

(** Lines 356 to 364 of [gtcheckinit]: the session a review starts with. *)
Definition gtcheckinit_session (folder_ : string) (rf : Reservation)
  : Session :=
  mkSession folder_ 0 [] (Z.of_nat (length (@nil (option string)))) rf
    EmptyString EmptyString EmptyString None None None None None None None.

End Gtcheckedit.

(** ** A small repository to run the handlers on *)

Module Demo.

Definition repo_folder : string := "/data/book".

Definition same_file (q p : string) : bool :=
  String.eqb q p || String.eqb q (joinpath repo_folder p).

(** A file stops being a change of the working tree once it is staged,
    checked out or removed, and is one again once it is unstaged. *)
Fixpoint settled (tr : list Event) (p : string) (cur : bool) : bool :=
  match tr with
  | [] => cur
  | e :: rest =>
      settled rest p
        (match e with
         | GitAdd q | GitCheckout q | GitRmForce q =>
             if same_file q p then true else cur
         | GitResetHead q => if same_file q p then false else cur
         | _ => cur
         end)
  end.

(** The number of files staged since the last commit. *)
Fixpoint staged (tr : list Event) (n : Z) : Z :=
  match tr with
  | [] => n
  | GitAdd _ :: rest => staged rest (n + 1)
  | GitCommit _ :: rest => staged rest 0
  | _ :: rest => staged rest n
  end.

(** The last text written to a path. *)
Fixpoint written (tr : list Event) (p : string) (cur : Res string)
  : Res string :=
  match tr with
  | [] => cur
  | WriteFile q t :: rest =>
      written rest p (if String.eqb q p then Ok t else cur)
  | _ :: rest => written rest p cur
  end.

Definition patch (body : string) : DiffData :=
  DiffBytes (Text ("@@ -1 +1 @@" ++ String PyStr.newline body)%string).

Definition item_a : DiffItem :=
  mkDiffItem "a.gt.txt" (Some "a.gt.txt") (Some (Text "Hte"))
    (Some (Text "Hat")) false false (patch "H[-te-]{+at+}").

Definition item_b : DiffItem :=
  mkDiffItem "b.gt.txt" (Some "b.gt.txt") (Some (Text "same"))
    (Some (Text "same")) false false (DiffBytes (Text EmptyString)).

Definition item_c : DiffItem :=
  mkDiffItem "c.gt.txt" (Some "c.gt.txt") (Some (Text "cafe"))
    (Some Undecodable) false false (DiffBytes Undecodable).

Definition item_d : DiffItem :=
  mkDiffItem "d.gt.txt" None (Some (Text "gone")) None true false
    (patch "[-gone-]").

Definition item_e : DiffItem :=
  mkDiffItem "e.gt.txt" (Some "e.gt.txt") (Some (Text "teh"))
    (Some (Text "the")) false false (patch "t[-eh-]{+he+}").

Definition working_text (p : string) : Res string :=
  if String.eqb p (joinpath repo_folder "a.gt.txt") then Ok "Hat"
  else if String.eqb p (joinpath repo_folder "b.gt.txt") then Ok "same"
  else if String.eqb p (joinpath repo_folder "c.gt.txt") then Ok "coffee"
  else if String.eqb p (joinpath repo_folder "e.gt.txt") then Ok "the"
  else Raise IOError.

Definition pending (files : list DiffItem) (tr : list Event) : list DiffItem :=
  filter (fun it => negb (settled tr (a_path it) false)) files.

Definition env (files : list DiffItem) : Env :=
  mkEnv
    (fun _ key => Ok (if String.eqb key "name" then "Checker"
                      else "checker@example.org"))
    (fun tr => Ok (if staged tr 0 =? 0 then EmptyString
                   else (" " ++ PyStr.str_of_int (staged tr 0)
                         ++ " files changed")%string))
    (fun tr paths _ =>
       match paths with
       | Some [Some p] =>
           Ok (filter (fun it => String.eqb (a_path it) p) (pending files tr))
       | _ => Ok (pending files tr)
       end)
    (fun tr p => written tr p (working_text p))
    (fun text => Ok text)
    (fun _ h1 h2 => Ok ("@@ -1 +1 @@ [-" ++ h1 ++ "-]{+" ++ h2 ++ "+}")%string)
    (fun tr p => existsb (fun e => match e with
                                   | Symlink l _ => String.eqb l p
                                   | _ => false
                                   end) tr)
    (fun _ _ _ => Ok None)
    (fun _ _ => None)
    "."
    "/app".

Definition reservation : Reservation :=
  mkReservation "book" "Checker" "2021-01-01" 0 4.

Definition start : World :=
  mkWorld (gtcheckinit_session repo_folder reservation) [] [].

Definition form (selection : string) (undo : option string) : Form :=
  mkForm selection "msg" "Hat" "de" None None undo.

(** The world a request leaves, when it returns a page. *)
Definition after {A} (r : Res (A * World)) (otherwise : World) : World :=
  match r with
  | Ok (_, w) => w
  | Raise _ => otherwise
  end.

(** The page a request returns. *)
Definition page_of (r : Res (Page * World)) : Page :=
  match r with
  | Ok (p, _) => p
  | Raise _ => PageNoFile
  end.

(** A review of four changed files: the first page, then the file [a]
    staged, the file [c] passed over with an undo, and the file [d]
    passed over with an undo. *)
Definition review_env : Env := env [item_a; item_c; item_d; item_e].

Definition edit (selection : string) (undo : option string) (w : World)
  : Res (Page * World) :=
  gtcheckedit review_env 5 "book" (form selection undo) w.

Definition r_first : Res (Page * World) := gtcheck review_env 5 "book" start.
Definition w_first : World := after r_first start.

Definition r_added : Res (Page * World) := edit "add" None w_first.
Definition w_added : World := after r_added start.

Definition r_undone : Res (Page * World) := edit "skip" (Some "1") w_added.
Definition w_undone : World := after r_undone start.

Definition r_undone_again : Res (Page * World) :=
  edit "skip" (Some "1") w_undone.
Definition w_undone_again : World := after r_undone_again start.

(** The same review, with a commit, a skip, a stash and an add. *)
Definition r_committed : Res (Page * World) := edit "commit" None w_first.
Definition w_committed : World := after r_committed start.

Definition r_skipped : Res (Page * World) := edit "skip" None w_committed.
Definition w_skipped : World := after r_skipped start.

Definition r_stashed : Res (Page * World) := edit "stash" None w_skipped.
Definition w_stashed : World := after r_stashed start.

Definition r_staged : Res (Page * World) := edit "add" None w_stashed.
Definition w_staged : World := after r_staged start.

(** A repository whose one changed file has a working text that is its
    original text. *)
Definition clean_env : Env := env [item_b].

End Demo.

(** A repository whose one changed file ends with a no-break space in
    its original text and with a next line mark in its working text.  The
    word diff splits the two characters and cannot be decoded, and the
    two texts are no objects of the repository, so that their comparison
    fails. *)
Module Spaces.

Definition original : string :=
  String "a" (String (ascii_of_nat 160) EmptyString).

Definition working : string :=
  String "a" (String (ascii_of_nat 133) EmptyString).

Definition item_s : DiffItem :=
  mkDiffItem "s.gt.txt" (Some "s.gt.txt") (Some (Text original))
    (Some (Text working)) false false (DiffBytes Undecodable).

Definition env : Env :=
  let e := Demo.env [item_s] in
  mkEnv (config_value e) (diff_cached_shortstat e) (index_diff e)
    (fun tr p =>
       if String.eqb p (joinpath Demo.repo_folder "s.gt.txt")
       then Ok working else read_text e tr p)
    (hash_object e)
    (fun _ _ _ => Raise GitCommandError)
    (path_exists e) (image_context e) (effect_error e)
    (mainfolder e) (app_dir e).

End Spaces.

(** ** The neighbours of an image: [surrounding_images] *)

Module Images.

(** [\d], among the 8-bit characters *)
Definition is_digit (c : ascii) : bool :=
  let n := nat_of_ascii c in
  ((48 <=? n) && (n <=? 57))%nat.

(** [s] holds no digit: the group 3 of the pattern reaches the end of
    [s]. *)
Fixpoint no_digit (s : string) : bool :=
  match s with
  | EmptyString => true
  | String c s' => negb (is_digit c) && no_digit s'
  end.

(** The longest run of digits at the head of [s], and what follows. *)
Fixpoint span_digits (s : string) : string * string :=
  match s with
  | EmptyString => (EmptyString, EmptyString)
  | String c s' =>
      if is_digit c
      then let (d, r) := span_digits s' in (String c d, r)
      else (EmptyString, s)
  end.

(** The groups 2 and 3 of the pattern of [surrounding_images] (one digit
    or more, then every character that is no digit, then the end) tried
    at the head of [s].  The run of digits is taken whole, since a shorter
    run would leave a digit in front of group 3. *)
Definition number_tail (s : string) : option (string * string) :=
  let (d, r) := span_digits s in
  if negb (String.eqb d EmptyString) && no_digit r then Some (d, r) else None.

(** [re.match] of the pattern of line 64 on [s]: the groups 1, 2 and 3
    for the shortest group 1, which holds no line break; [None] when the
    pattern does not match. *)
Fixpoint regexnum (s : string) : option (string * string * string) :=
  match number_tail s with
  | Some (d, r) => Some (EmptyString, d, r)
  | None =>
      match s with
      | EmptyString => None
      | String c s' =>
          if Ascii.eqb c PyStr.newline then None
          else match regexnum s' with
               | Some (p, d, r) => Some (String c p, d, r)
               | None => None
               end
      end
  end.

(** [int(s)] for a text of digits; [None] for any other text. *)
Definition int_of_digits (s : string) : option Z :=
  match NilZero.uint_of_string s with
  | Some u => Some (Z.of_uint u)
  | None => None
  end.

Fixpoint zeros (n : nat) : string :=
  match n with
  | O => EmptyString
  | S n' => String "0" (zeros n')
  end.

(** [f"{n:0{width}d}"]: the sign, then zeros up to [width] characters,
    then the digits. *)
Definition format_0d (width : nat) (n : Z) : string :=
  if n <? 0
  then ("-" ++ zeros (width - 1 - String.length (PyStr.str_of_int (- n)))
        ++ PyStr.str_of_int (- n))%string
  else (zeros (width - String.length (PyStr.str_of_int n))
        ++ PyStr.str_of_int n)%string.

(** Lines 64 to 69 of [surrounding_images]: the names of [prev_img] and
    of [post_img] for the name of an image.  [None] stands for the
    [TypeError] of [imgmatch[2]] when the name holds no number.  (Lines 70
    to 80, the test of the two files and their paths under [./symlink],
    belong to the answer [image_context] of the environment.) *)
Definition surrounding_images (name : string) : option (string * string) :=
  match regexnum name with
  | None => None
  | Some (imgprefix, digits, imgpostfix) =>
      match int_of_digits digits with
      | None => None
      | Some imgint =>
          let width := String.length digits in
          Some ((imgprefix ++ format_0d width (imgint - 1) ++ imgpostfix)%string,
                (imgprefix ++ format_0d width (imgint + 1) ++ imgpostfix)%string)
      end
  end.

End Images.
(** ** Notions the statements use *)

(** The text a marker encloses. *)
Definition marker_text (m : Match) : string :=
  (or_empty (m_sub m) ++ or_empty (m_add m))%string.

(** A match moved [n] characters to the right. *)
Definition shift (n : nat) (m : Match) : Match :=
  mkMatch (m_start m + n) (m_end m + n) (m_sub m) (m_add m).

(** A unit with at least one side that is not empty. *)
Definition unit_nonempty (u : ModUnit) : Prop :=
  fst u <> EmptyString \/ snd u <> EmptyString.

(** The number of calls of [repo.git.commit] in a trace. *)
Fixpoint commits (tr : list Event) : nat :=
  match tr with
  | [] => O
  | GitCommit _ :: rest => S (commits rest)
  | _ :: rest => commits rest
  end.

(** The message proposed with the page [p] of a file, when the first
    word of the answer of [git diff --cached --shortstat] is [diffhead]
    and the request leaves the world [w']: the count of the files left
    when something is staged; and otherwise the path of the file shown
    with the modifications read from its diff text, the file being one
    the repository has answered with and the diff text one that
    [get_difftext] has returned for it, at a moment of the request. *)
Definition proposed_message (env : Env) (diffhead : string) (p : FilePage)
  (w' : World) : Prop :=
  if truthy diffhead
  then
    pg_commitmsg p
    = staged_commitmsg (PyStr.str_of_int (difflen (session w')))
  else
    exists filename item difftext w1 w2 w3 later,
      trace w' = trace w1 ++ later /\
      find_item env filename w1 = Ok (item, w1) /\
      trace w2 = trace w1 /\
      get_difftext env (pg_origtext p) item (folder (session w')) w2
        = Ok (difftext, w3) /\
      fpath (session w') = Some (a_path item) /\
      pg_commitmsg p = file_commitmsg item (modifications difftext).






(** No answer of the repository or of the file system is the exception
    [e]. *)
Definition never_raises (env : Env) (e : PyExn) : Prop :=
  (forall tr key, config_value env tr key <> Raise e) /\
  (forall tr, diff_cached_shortstat env tr <> Raise e) /\
  (forall tr paths patch, index_diff env tr paths patch <> Raise e) /\
  (forall tr path, read_text env tr path <> Raise e) /\
  (forall text, hash_object env text <> Raise e) /\
  (forall tr h1 h2, diff_objects env tr h1 h2 <> Raise e) /\
  (forall tr folder_ fname_, image_context env tr folder_ fname_ <> Raise e) /\
  (forall tr ev, effect_error env tr ev <> Some e).

(** The worlds a review goes through: [gtcheckinit] stores its session and
    calls [gtcheck]; every later request is a call of [gtcheckedit].  Only
    requests that return a page count.  The repository may answer each
    request differently. *)
Inductive reachable : World -> Prop :=
| reach_init : forall env fuel reponame folder_ rf tr lg page w,
    gtcheck env fuel reponame
      (mkWorld (gtcheckinit_session folder_ rf) tr lg) = Ok (page, w) ->
    reachable w
| reach_edit : forall env fuel reponame data w page w',
    reachable w ->
    gtcheckedit env fuel reponame data w = Ok (page, w') ->
    reachable w'.

Definition queue_length (s : Session) : Z := Z.of_nat (length (difflist s)).

(** The queue lines 153 to 159 of [gtcheck] build from the changed files
    of the repository, for a cursor [skip_]. *)
Definition rebuilt_queue (items : list DiffItem) (skip_ : Z)
  : list (option string) :=
  let l := map (fun it => Some (a_path it))
             (filter (fun it => PyStr.contains ".gt.txt" (a_path it)) items) in
  if Z.of_nat (length l) <=? skip_
  then PyList.times None skip_
  else PyList.slice_to l (skip_ + 100).

(** [session['fileidx']] is absent or 0. *)
Definition fileidx_zero (s : Session) : Prop :=
  fileidx s = None \/ fileidx s = Some 0.

Definition not_merge (s : Session) : Prop := modtype s <> Some "merge".

(** What holds when [gtcheck] is entered. *)
Definition queue_entry (s : Session) : Prop :=
  0 <= skip s <= difflen s /\ queue_length s <= difflen s /\
  fileidx_zero s /\ not_merge s.

(** What holds when the loop of [gtcheck] has [r] files left to visit. *)
Definition queue_loop (r : Z) (s : Session) : Prop :=
  0 <= skip s /\ 0 <= r /\ skip s + r <= queue_length s /\
  queue_length s <= difflen s /\ fileidx_zero s /\ not_merge s.

(** What holds when a page is returned. *)
Definition queue_page (s : Session) : Prop :=
  0 <= skip s <= queue_length s /\ skip s <= difflen s /\
  (queue_length s <= difflen s \/ skip s = difflen s) /\
  fileidx_zero s /\ not_merge s.

(** A diff text read as a sequence of untouched text, insertions and
    deletions. *)
Inductive Seg : Type :=
| Plain (t : string)
| Ins (t : string)
| Del (t : string).

Definition seg_body (g : Seg) : string :=
  match g with
  | Plain t | Ins t | Del t => t
  end.

(** The text of a sequence of segments, for given opening and closing
    marks of insertions ([oi], [ci]) and of deletions ([od], [cd]). *)
Definition seg_render (oi ci od cd : string) (g : Seg) : string :=
  match g with
  | Plain t => t
  | Ins t => (oi ++ t ++ ci)%string
  | Del t => (od ++ t ++ cd)%string
  end.

Fixpoint render (oi ci od cd : string) (segs : list Seg) : string :=
  match segs with
  | [] => EmptyString
  | g :: rest => (seg_render oi ci od cd g ++ render oi ci od cd rest)%string
  end.

Definition diff_text (segs : list Seg) : string :=
  render "{+" "+}" "[-" "-]" segs.

Definition markup (segs : list Seg) : string :=
  render span_green span_close span_red span_close segs.

(** [c] does not occur in [t]. *)
Fixpoint lacks (c : ascii) (t : string) : bool :=
  match t with
  | EmptyString => true
  | String c' t' => negb (Ascii.eqb c' c) && lacks c t'
  end.

(** [t] does not begin with [c]. *)
Definition not_starting (c : ascii) (t : string) : bool :=
  match t with
  | EmptyString => true
  | String c' _ => negb (Ascii.eqb c' c)
  end.

(** [c] occurs in the text of no segment. *)
Definition bodies_lack (c : ascii) (segs : list Seg) : bool :=
  forallb (fun g => lacks c (seg_body g)) segs.

(** Swapping the roles of insertions and deletions. *)
Definition swap (g : Seg) : Seg :=
  match g with
  | Plain t => Plain t
  | Ins t => Del t
  | Del t => Ins t
  end.

(** A text with no bracket of a marker and no opening of a tag. *)
Definition clean (t : string) : bool :=
  lacks "{" t && lacks "}" t && lacks "[" t && lacks "]" t && lacks "<" t.

(** The number of wrappers open at the end of [s], when [d] are open at
    its start; [None] when a closing wrapper has no opening one. *)
Fixpoint wrapper_depth (s : string) (d : nat) : option nat :=
  match s with
  | EmptyString => Some d
  | String _ s' =>
      if prefix span_green s || prefix span_red s
      then wrapper_depth s' (S d)
      else if prefix span_close s
           then match d with
                | O => None
                | S d' => wrapper_depth s' d'
                end
           else wrapper_depth s' d
  end.

Definition balanced (s : string) : Prop := wrapper_depth s 0 = Some O.

(** The kinds [gtcheck] gives a file. *)
Definition file_kind (mt : option string) : Prop :=
  mt = Some "mod" \/ mt = Some "new" \/ mt = Some "del".

(** What a run of [gtcheck] may do to the world: it makes calls, none of
    them a commit, and it leaves the kind of modification or sets it to
    the kind of a file. *)
Definition gtcheck_step (w w' : World) : Prop :=
  (exists evs, trace w' = trace w ++ evs /\ commits evs = O) /\
  (modtype (session w') = modtype (session w) \/
   file_kind (modtype (session w'))).
(** ** Notions for the further properties *)

(** A segment the scan reads back as it was written: untouched text that
    starts no marker, and a marker whose text holds no line break and no
    closing bracket of its kind. *)
Definition well_formed (g : Seg) : bool :=
  match g with
  | Plain t => lacks "[" t && lacks "{" t
  | Ins t => lacks PyStr.newline t && lacks "}" t
  | Del t => lacks PyStr.newline t && lacks "]" t
  end.

(** The matches of the markers of a sequence of segments whose text
    starts at [pos]. *)
Fixpoint seg_matches (pos : nat) (segs : list Seg) : list Match :=
  match segs with
  | [] => []
  | Plain t :: rest => seg_matches (pos + String.length t) rest
  | Ins t :: rest =>
      mkMatch pos (pos + (String.length t + 4)) None (Some t)
        :: seg_matches (pos + (String.length t + 4)) rest
  | Del t :: rest =>
      mkMatch pos (pos + (String.length t + 4)) (Some t) None
        :: seg_matches (pos + (String.length t + 4)) rest
  end.

(** The texts of the deletion markers, and of the insertion markers, of a
    scan, in their order. *)
Definition deleted_text (ms : list Match) : string :=
  PyStr.join "" (map (fun m => or_empty (m_sub m)) ms).

Definition inserted_text (ms : list Match) : string :=
  PyStr.join "" (map (fun m => or_empty (m_add m)) ms).

(** A match with exactly one of its two groups. *)
Definition one_group (m : Match) : Prop :=
  (exists t, m_sub m = Some t /\ m_add m = None) \/
  (exists t, m_sub m = None /\ m_add m = Some t).

(** The number of units (none or one) the parser may still fill: the last
    one, while its replacement side is empty. *)
Definition open_units (mods : list ModUnit) : nat :=
  match mods with
  | [] => O
  | _ :: _ => if String.eqb (last_add mods) "" then 1%nat else O
  end.

(** A mark: a text of two characters. *)
Definition two (c1 c2 : ascii) : string := String c1 (String c2 EmptyString).

(** [t] does not end with [c]. *)
Fixpoint not_ending (c : ascii) (t : string) : bool :=
  match t with
  | EmptyString => true
  | String c' EmptyString => negb (Ascii.eqb c' c)
  | String _ t' => not_ending c t'
  end.

(** None of the four marks occurs in [t]. *)
Definition marker_free (t : string) : bool :=
  negb (PyStr.contains "{+" t) && negb (PyStr.contains "+}" t)
  && negb (PyStr.contains "[-" t) && negb (PyStr.contains "-]" t).

(** [t] without its characters [c]. *)
Fixpoint without (c : ascii) (t : string) : string :=
  match t with
  | EmptyString => EmptyString
  | String c' t' =>
      if Ascii.eqb c' c then without c t' else String c' (without c t')
  end.

(** [t] after its first character [c]; empty when [c] does not occur. *)
Fixpoint after_first (c : ascii) (t : string) : string :=
  match t with
  | EmptyString => EmptyString
  | String c' t' => if Ascii.eqb c' c then t' else after_first c t'
  end.

(** The calls [gtcheck] may make: the link of the image folder and, when
    [session['addcc']] is set, the staging of a clean copy. *)
Definition page_call (staging : option bool) (e : Event) : bool :=
  match e with
  | Symlink _ _ => true
  | GitAdd _ =>
      match staging with
      | Some true => true
      | _ => false
      end
  | _ => false
  end.

(** What a run of [gtcheck] keeps: it makes no call but those of
    [page_call], and it leaves the keys of the session that belong to the
    decisions. *)
Definition gtcheck_keeps (w w' : World) : Prop :=
  (exists evs,
     trace w' = trace w ++ evs /\
     forallb (page_call (addcc (session w))) evs = true) /\
  folder (session w') = folder (session w) /\
  reservefile (session w') = reservefile (session w) /\
  vkeylang (session w') = vkeylang (session w) /\
  undo_fpath (session w') = undo_fpath (session w) /\
  undo_value (session w') = undo_value (session w) /\
  skipcc (session w') = skipcc (session w) /\
  addcc (session w') = addcc (session w).

(** An entry of the queue: a place left empty, or the path of a ground
    truth file. *)
Definition gt_entry (e : option string) : bool :=
  match e with
  | None => true
  | Some p => PyStr.contains ".gt.txt" p
  end.

Definition queue_gt (s : Session) : Prop :=
  forallb gt_entry (difflist s) = true.

(** The session holds what a page shows. *)
Definition page_shows (p : FilePage) (s : Session) : Prop :=
  modtext s = Some (pg_modtext p) /\
  (exists path,
     fpath s = Some path /\
     fname s = Some (joinpath (folder s) path) /\
     pg_fname p = path_name (joinpath (folder s) path)) /\
  pg_skipped p = skip s /\
  pg_files_left p = PyStr.str_of_int (difflen s - skip s) /\
  pg_files_len p = Dateien_gesamt (reservefile s) /\
  pg_vkeylang p = vkeylang s /\
  (exists kind, modtype s = Some kind) /\
  (exists idx, fileidx s = Some idx).

(** A form with another selection. *)
Definition with_selection (selection : string) (data : Form) : Form :=
  mkForm selection (form_commitmsg data) (form_modtext data)
    (form_vkeylang data) (form_name data) (form_email data) (form_undo data).

(** Two changed files without blobs, for the runs of the loop. *)
Module Blobless.

Definition item_x : DiffItem :=
  mkDiffItem "x.gt.txt" (Some "x.gt.txt") None None false false
    (DiffBytes (Text EmptyString)).

Definition item_y : DiffItem :=
  mkDiffItem "y.gt.txt" (Some "y.gt.txt") None None false false
    (DiffBytes (Text EmptyString)).

Definition env : Env := Demo.env [item_x; item_y].

Definition start : World :=
  mkWorld
    (mkSession Demo.repo_folder 0 [Some "x.gt.txt"; Some "y.gt.txt"] 2
       Demo.reservation EmptyString EmptyString EmptyString None None None
       None None None None)
    [] [].

End Blobless.

(** An item fetched without [create_patch]: it carries the empty [str]
    where an item with a patch carries bytes. *)
Definition item_unpatched : DiffItem :=
  mkDiffItem "c.gt.txt" (Some "c.gt.txt") (Some (Text "cafe"))
    (Some (Text "coffee")) false false (DiffStr EmptyString).

(** [s] is made of digits. *)
Fixpoint all_digits (s : string) : bool :=
  match s with
  | EmptyString => true
  | String c s' => Images.is_digit c && all_digits s'
  end.

(** [s] does not end with a digit. *)
Fixpoint no_digit_end (s : string) : bool :=
  match s with
  | EmptyString => true
  | String c EmptyString => negb (Images.is_digit c)
  | String _ s' => no_digit_end s'
  end.

(** A computation that does not fail for the depth of the calls. *)
Definition within_depth {A} (m : M A) : Prop :=
  forall w : World, m w <> Raise RecursionError.
(** ** Reasoning about the monad *)

Lemma bind_inv {A B} (m : M A) (k : A -> M B) (w : World) (r : B * World) :
  bind m k w = Ok r -> exists a w1, m w = Ok (a, w1) /\ k a w1 = Ok r.
Proof.
  unfold bind. destruct (m w) as [[a w1]|e]; [|discriminate].
  intros H. exists a, w1. split; [reflexivity|exact H].
Qed.

Lemma ret_inv {A} (a b : A) (w w' : World) :
  ret a w = Ok (b, w') -> b = a /\ w' = w.
Proof. unfold ret. intros H. inversion H. split; reflexivity. Qed.

Lemma read_inv {A} (key : Session -> A) (v : A) (w w' : World) :
  read key w = Ok (v, w') -> v = key (session w) /\ w' = w.
Proof. unfold read. intros H. inversion H. split; reflexivity. Qed.

Lemma read_key_inv {A} (key : Session -> option A) (v : A) (w w' : World) :
  read_key key w = Ok (v, w') -> key (session w) = Some v /\ w' = w.
Proof.
  unfold read_key. destruct (key (session w)); [|discriminate].
  intros H. inversion H. split; reflexivity.
Qed.

Lemma assign_inv (upd : Session -> Session) (u : unit) (w w' : World) :
  assign upd w = Ok (u, w') ->
  w' = mkWorld (upd (session w)) (trace w) (log w).
Proof. unfold assign. intros H. inversion H. reflexivity. Qed.

Lemma warning_inv (wn : Warning) (u : unit) (w w' : World) :
  warning wn w = Ok (u, w') ->
  w' = mkWorld (session w) (trace w) (log w ++ [wn]).
Proof. unfold warning. intros H. inversion H. reflexivity. Qed.

Lemma lift_inv {A} (r : Res A) (a : A) (w w' : World) :
  lift r w = Ok (a, w') -> r = Ok a /\ w' = w.
Proof.
  unfold lift. destruct r; [|discriminate].
  intros H. inversion H. split; reflexivity.
Qed.

Lemma ask_inv {A} (q : list Event -> Res A) (a : A) (w w' : World) :
  ask q w = Ok (a, w') -> q (trace w) = Ok a /\ w' = w.
Proof.
  unfold ask. destruct (q (trace w)); [|discriminate].
  intros H. inversion H. split; reflexivity.
Qed.

Lemma emit_inv (env : Env) (e : Event) (u : unit) (w w' : World) :
  emit env e w = Ok (u, w') ->
  effect_error env (trace w) e = None /\
  w' = mkWorld (session w) (trace w ++ [e]) (log w).
Proof.
  unfold emit. destruct (effect_error env (trace w) e); [discriminate|].
  intros H. inversion H. split; reflexivity.
Qed.

Lemma try_except_inv {A} (body : M A) (catches : PyExn -> bool)
  (handler : M A) (w : World) (r : A * World) :
  try_except body catches handler w = Ok r ->
  body w = Ok r \/
  exists e, body w = Raise e /\ catches e = true /\ handler w = Ok r.
Proof.
  unfold try_except. destruct (body w) as [r'|e].
  - intros H. left. exact H.
  - destruct (catches e) eqn:Hc; [|discriminate].
    intros H. right. exists e. repeat split; assumption.
Qed.

(** Symbolic execution of a run that returned: each step of the run
    becomes an equation on the world it leaves. *)
Ltac run_step :=
  match goal with
  | H : bind _ _ _ = Ok _ |- _ =>
      let a := fresh "a" in
      let w := fresh "w" in
      let H1 := fresh "Hrun" in
      apply bind_inv in H; destruct H as (a & w & H1 & H); cbv beta in H
  | H : ret _ _ = Ok (_, _) |- _ => apply ret_inv in H; destruct H
  | H : read _ _ = Ok (_, _) |- _ => apply read_inv in H; destruct H
  | H : read_key _ _ = Ok (_, _) |- _ => apply read_key_inv in H; destruct H
  | H : assign _ _ = Ok (_, _) |- _ => apply assign_inv in H
  | H : warning _ _ = Ok (_, _) |- _ => apply warning_inv in H
  | H : lift _ _ = Ok (_, _) |- _ => apply lift_inv in H; destruct H
  | H : ask _ _ = Ok (_, _) |- _ => apply ask_inv in H; destruct H
  | H : emit _ _ _ = Ok (_, _) |- _ => apply emit_inv in H; destruct H
  | H : raise _ _ = Ok _ |- _ => discriminate H
  | H : Ok _ = Ok _ |- _ => inversion H; clear H
  | H : Raise _ = Ok _ |- _ => discriminate H
  | H : (if ?b then _ else _) _ = Ok _ |- _ => destruct b eqn:?
  | H : (match ?x with _ => _ end) _ = Ok _ |- _ => destruct x eqn:?
  | a : unit |- _ => destruct a
  end.

Ltac run := repeat (run_step; subst; simpl in * ).

(** ** The modification parser *)

Section Parser.

Implicit Types (mods : list ModUnit) (m : Match) (ms : list Match).

Lemma last_add_snoc mods (u : ModUnit) : last_add (mods ++ [u]) = snd u.
Proof.
  unfold last_add. rewrite rev_app_distr. simpl. destruct u. reflexivity.
Qed.

Lemma set_last_add_snoc mods (u : ModUnit) (add : string) :
  set_last_add (mods ++ [u]) add = mods ++ [(fst u, add)].
Proof.
  unfold set_last_add. rewrite rev_app_distr. simpl. destruct u. simpl.
  rewrite rev_involutive. reflexivity.
Qed.

Lemma length_snoc_pos mods (u : ModUnit) :
  (0 <? length (mods ++ [u]))%nat = true.
Proof. rewrite length_app. simpl. apply Nat.ltb_lt. lia. Qed.

(** The units in front of a non-empty tail play no part in a step. *)
Lemma step_frame mods (tail : list ModUnit) (pos : nat) m :
  tail <> [] ->
  modifications_step (mods ++ tail, pos) m =
  (mods ++ fst (modifications_step (tail, pos) m),
   snd (modifications_step (tail, pos) m)) /\
  fst (modifications_step (tail, pos) m) <> [].
Proof.
  intros Htail.
  destruct tail as [|u t _] using rev_ind; [contradiction|].
  rewrite app_assoc. unfold modifications_step.
  rewrite !length_snoc_pos, !last_add_snoc, !set_last_add_snoc.
  destruct (negb (or_empty (m_add m) =? "")%string && true
            && (pos =? m_start m)%nat);
    [destruct (snd u =? "")%string|]; simpl;
    rewrite <- ?app_assoc; (split; [reflexivity|]);
    intros Habs; apply app_eq_nil in Habs as [_ Habs];
    try apply app_eq_nil in Habs as [_ Habs]; discriminate.
Qed.

Lemma run_frame ms : forall mods (tail : list ModUnit) (pos : nat),
  tail <> [] ->
  fold_left modifications_step ms (mods ++ tail, pos) =
  (mods ++ fst (fold_left modifications_step ms (tail, pos)),
   snd (fold_left modifications_step ms (tail, pos))).
Proof.
  induction ms as [|m ms IH]; intros mods tail pos Htail.
  - reflexivity.
  - cbn [fold_left].
    destruct (step_frame mods tail pos m Htail) as [Hstep Hne].
    rewrite Hstep.
    destruct (modifications_step (tail, pos) m) as [tail' pos'].
    simpl in *. apply IH. exact Hne.
Qed.

(** After a unit whose replacement side is filled, or at the start, the
    parser goes on as on a fresh text. *)
Lemma run_after_closed ms mods (pos : nat) :
  mods = [] \/ last_add mods <> EmptyString ->
  fst (fold_left modifications_step ms (mods, pos)) =
  mods ++ modifications_of ms.
Proof.
  intros Hclosed. unfold modifications_of.
  destruct ms as [|m ms]; [simpl; rewrite app_nil_r; reflexivity|].
  cbn [fold_left].
  assert (Hstep : modifications_step (mods, pos) m =
                  (mods ++ [(or_empty (m_sub m), or_empty (m_add m))], m_end m)).
  { unfold modifications_step.
    destruct (negb (or_empty (m_add m) =? "")%string
              && (0 <? length mods)%nat && (pos =? m_start m)%nat) eqn:Hc;
      [|reflexivity].
    destruct Hclosed as [->|Hne]; [simpl in Hc; rewrite andb_false_r in Hc;
                                    discriminate|].
    apply String.eqb_neq in Hne. rewrite Hne. reflexivity. }
  rewrite Hstep.
  assert (Hfresh : modifications_step ([], 1%nat) m =
                   ([] ++ [(or_empty (m_sub m), or_empty (m_add m))], m_end m)).
  { unfold modifications_step. simpl. rewrite andb_false_r. reflexivity. }
  rewrite Hfresh. simpl app at 2.
  rewrite (run_frame ms mods) by discriminate. reflexivity.
Qed.

Lemma modifications_of_app ms1 ms2 :
  fold_left modifications_step (ms1 ++ ms2) ([], 1%nat) =
  fold_left modifications_step ms2
    (fold_left modifications_step ms1 ([], 1%nat)).
Proof. apply fold_left_app. Qed.

(** Every step keeps the units non-empty when the marker read encloses
    some text. *)
Lemma step_nonempty mods (pos : nat) m :
  Forall unit_nonempty mods ->
  marker_text m <> EmptyString ->
  Forall unit_nonempty (fst (modifications_step (mods, pos) m)).
Proof.
  intros Hall Hm.
  assert (Hnew : unit_nonempty (or_empty (m_sub m), or_empty (m_add m))).
  { unfold unit_nonempty, marker_text in *. simpl.
    destruct (or_empty (m_sub m)); [|left; discriminate].
    right. exact Hm. }
  unfold modifications_step.
  destruct (negb (or_empty (m_add m) =? "")%string
            && (0 <? length mods)%nat && (pos =? m_start m)%nat) eqn:Hc.
  - destruct (last_add mods =? "")%string.
    + simpl. apply andb_prop in Hc as [Hc _]. apply andb_prop in Hc as [Hadd Hlen].
      apply negb_true_iff, String.eqb_neq in Hadd.
      destruct mods as [|u0 rest] using rev_ind; [constructor|].
      rewrite set_last_add_snoc. apply Forall_app in Hall as [Hrest _].
      apply Forall_app. split; [exact Hrest|].
      constructor; [|constructor]. right. exact Hadd.
    + simpl. apply Forall_app. split; [exact Hall|]. constructor; [exact Hnew|constructor].
  - simpl. apply Forall_app. split; [exact Hall|]. constructor; [exact Hnew|constructor].
Qed.

Lemma run_nonempty ms : forall mods (pos : nat),
  Forall unit_nonempty mods ->
  Forall (fun m => marker_text m <> EmptyString) ms ->
  Forall unit_nonempty (fst (fold_left modifications_step ms (mods, pos))).
Proof.
  induction ms as [|m ms IH]; intros mods pos Hall Hms.
  - exact Hall.
  - cbn [fold_left]. inversion Hms as [|? ? Hm Hrest]; subst.
    pose proof (step_nonempty mods pos m Hall Hm) as Hstep.
    destruct (modifications_step (mods, pos) m) as [mods' pos'].
    apply IH; assumption.
Qed.

End Parser.

(** A deletion marker followed at once by an insertion marker with some
    text gives one unit, whatever stands before and after the pair. *)
Lemma merge_adjacent_pair (before after : list Match) (del ins : Match)
  (deleted inserted : string) :
  m_sub del = Some deleted -> m_add del = None ->
  m_sub ins = None -> m_add ins = Some inserted ->
  m_end del = m_start ins ->
  inserted <> EmptyString ->
  modifications_of (before ++ del :: ins :: after) =
  modifications_of before ++ [(deleted, inserted)] ++ modifications_of after.
Proof.
  intros Hdsub Hdadd Hisub Hiadd Hadj Hne.
  unfold modifications_of at 1.
  rewrite modifications_of_app. cbn [fold_left].
  destruct (fold_left modifications_step before ([], 1%nat)) as [mods pos] eqn:Hbefore.
  assert (Hmods : modifications_of before = mods)
    by (unfold modifications_of; rewrite Hbefore; reflexivity).
  assert (Hdel : modifications_step (mods, pos) del =
                 (mods ++ [(deleted, EmptyString)], m_end del)).
  { unfold modifications_step. rewrite Hdsub, Hdadd. reflexivity. }
  rewrite Hdel.
  assert (Hins : modifications_step (mods ++ [(deleted, EmptyString)], m_end del) ins =
                 (mods ++ [(deleted, inserted)], m_end del)).
  { unfold modifications_step. rewrite Hisub, Hiadd. simpl or_empty.
    rewrite length_snoc_pos, last_add_snoc, set_last_add_snoc, Hadj.
    rewrite Nat.eqb_refl. apply String.eqb_neq in Hne. rewrite Hne.
    reflexivity. }
  rewrite Hins, run_after_closed.
  - rewrite Hmods, <- app_assoc. reflexivity.
  - right. rewrite last_add_snoc. exact Hne.
Qed.

(** C3 (as the code has it): when the scan of a diff text finds a deletion
    marker and, starting where it ends, an insertion marker whose text is
    not empty, the parser emits exactly one unit [(deleted, inserted)] for
    the pair: the units of the markers before it come first, the units of
    the markers after it follow, as if each part were parsed alone. *)
Theorem modifications_merges_adjacent_pair :
  forall (difftext : string) (before after : list Match) (del ins : Match)
         (deleted inserted : string),
    Regex.finditer difftext = before ++ del :: ins :: after ->
    m_sub del = Some deleted -> m_add del = None ->
    m_sub ins = None -> m_add ins = Some inserted ->
    m_end del = m_start ins ->
    inserted <> EmptyString ->
    modifications difftext =
    modifications_of before ++ [(deleted, inserted)] ++ modifications_of after.
Proof.
  intros difftext before after del ins deleted inserted
    Hscan Hdsub Hdadd Hisub Hiadd Hadj Hne.
  unfold modifications. rewrite Hscan.
  apply merge_adjacent_pair; assumption.
Qed.

Lemma modifications_merges_adjacent_pair_witness :
  modifications "ab[-x-]{+y+}cd[-z-]" =
  modifications_of [] ++ [("x", "y")]
    ++ modifications_of [mkMatch 14 19 (Some "z") None].
Proof.
  apply (modifications_merges_adjacent_pair "ab[-x-]{+y+}cd[-z-]" []
           [mkMatch 14 19 (Some "z") None]
           (mkMatch 2 7 (Some "x") None) (mkMatch 7 12 None (Some "y"))
           "x" "y");
    try reflexivity.
  discriminate.
Defined.

(** C3 (as the claim states it) fails when the insertion marker encloses
    the empty text: the parser appends a second unit. *)
Lemma modifications_empty_insertion_not_merged :
  Regex.finditer "[-x-]{++}" =
    [mkMatch 0 5 (Some "x") None; mkMatch 5 9 None (Some EmptyString)] /\
  modifications "[-x-]{++}" = [("x", EmptyString); (EmptyString, EmptyString)].
Proof. split; reflexivity. Qed.

(** C4 (as the code has it): when every marker the scan finds encloses
    some text, every unit the parser returns has a side that is not
    empty. *)
Theorem modifications_units_nonempty :
  forall difftext : string,
    Forall (fun m => marker_text m <> EmptyString) (Regex.finditer difftext) ->
    Forall unit_nonempty (modifications difftext).
Proof.
  intros difftext Hms. unfold modifications, modifications_of.
  apply run_nonempty; [constructor|exact Hms].
Qed.

Lemma modifications_units_nonempty_witness :
  Forall unit_nonempty (modifications "H[-t-]{+a+}e").
Proof.
  apply (modifications_units_nonempty "H[-t-]{+a+}e").
  repeat constructor; discriminate.
Defined.

(** C4 (as the claim states it) fails on a marker that encloses the empty
    text: the unit it gives has two empty sides. *)
Lemma modifications_empty_marker_unit :
  modifications "[--]" = [(EmptyString, EmptyString)] /\
  ~ Forall unit_nonempty (modifications "[--]").
Proof.
  split; [reflexivity|].
  intros H. inversion H as [|u l Hu Hl]; subst.
  destruct Hu as [Hu|Hu]; apply Hu; reflexivity.
Qed.

(** ** The diff renderer *)

Section Renderer.

Implicit Types (c : ascii) (t p rest : string) (segs : list Seg).

Lemma append_assoc t1 t2 t3 :
  ((t1 ++ t2) ++ t3)%string = (t1 ++ (t2 ++ t3))%string.
Proof. induction t1 as [|c t1 IH]; simpl; [|rewrite IH]; reflexivity. Qed.

Lemma lacks_app c t1 t2 :
  lacks c (t1 ++ t2) = lacks c t1 && lacks c t2.
Proof.
  induction t1 as [|c' t1 IH]; simpl; [reflexivity|].
  rewrite IH, andb_assoc. reflexivity.
Qed.

Lemma lacks_not_starting c t : lacks c t = true -> not_starting c t = true.
Proof. destruct t; simpl; [reflexivity|]. intros H. apply andb_prop in H. tauto. Qed.

Lemma not_starting_app c p rest :
  p <> EmptyString -> not_starting c p = true ->
  not_starting c (p ++ rest) = true.
Proof. destruct p; simpl; [contradiction|]. intros _ H. exact H. Qed.

Lemma prefix_two_false_first c1 c2 c rest :
  Ascii.eqb c c1 = false ->
  prefix (String c1 (String c2 EmptyString)) (String c rest) = false.
Proof.
  intros H. cbn [prefix]. destruct (ascii_dec c1 c); [|reflexivity].
  subst. rewrite Ascii.eqb_refl in H. discriminate.
Qed.

Lemma prefix_two_false_second c1 c2 c rest :
  not_starting c2 rest = true ->
  prefix (String c1 (String c2 EmptyString)) (String c rest) = false.
Proof.
  intros H. cbn [prefix]. destruct (ascii_dec c1 c); [|reflexivity].
  destruct rest as [|c' rest']; [reflexivity|].
  cbn [prefix]. destruct (ascii_dec c2 c'); [|reflexivity].
  subst. simpl in H. rewrite Ascii.eqb_refl in H. discriminate.
Qed.

(** A stretch without the first character of the pattern is copied. *)
Lemma replace_skip_first c1 c2 (new : string) p rest :
  lacks c1 p = true ->
  PyStr.replace (String c1 (String c2 EmptyString)) new (p ++ rest) =
  (p ++ PyStr.replace (String c1 (String c2 EmptyString)) new rest)%string.
Proof.
  unfold PyStr.replace. induction p as [|c p IH]; intros Hp; [reflexivity|].
  simpl in Hp. apply andb_prop in Hp as [Hc Hp]. apply negb_true_iff in Hc.
  cbn [append PyStr.replace_from].
  rewrite (prefix_two_false_first c1 c2 c _ Hc), (IH Hp). reflexivity.
Qed.

(** A stretch without the second character of the pattern is copied when
    what follows does not begin with it. *)
Lemma replace_skip_second c1 c2 (new : string) p rest :
  lacks c2 p = true -> not_starting c2 rest = true ->
  PyStr.replace (String c1 (String c2 EmptyString)) new (p ++ rest) =
  (p ++ PyStr.replace (String c1 (String c2 EmptyString)) new rest)%string.
Proof.
  unfold PyStr.replace. induction p as [|c p IH]; intros Hp Hrest; [reflexivity|].
  simpl in Hp. apply andb_prop in Hp as [Hc Hp].
  cbn [append PyStr.replace_from].
  rewrite prefix_two_false_second, (IH Hp Hrest); [reflexivity|].
  destruct p as [|c' p']; [exact Hrest|].
  simpl in Hp. apply andb_prop in Hp as [Hc' _]. exact Hc'.
Qed.

(** An occurrence of the pattern is replaced. *)
Lemma replace_hit c1 c2 (new : string) rest :
  PyStr.replace (String c1 (String c2 EmptyString)) new
    (String c1 (String c2 rest)) =
  (new ++ PyStr.replace (String c1 (String c2 EmptyString)) new rest)%string.
Proof.
  unfold PyStr.replace. cbn [PyStr.replace_from].
  assert (Hpre : prefix (String c1 (String c2 EmptyString))
                   (String c1 (String c2 rest)) = true).
  { cbn [prefix]. destruct (ascii_dec c1 c1); [|contradiction].
    destruct (ascii_dec c2 c2); [|contradiction].
    destruct rest; reflexivity. }
  rewrite Hpre. simpl. reflexivity.
Qed.

Lemma replace_nil (old new : string) :
  PyStr.replace old new EmptyString = EmptyString.
Proof. reflexivity. Qed.

Lemma render_swap (oi ci od cd : string) segs :
  render oi ci od cd segs = render od cd oi ci (map swap segs).
Proof.
  induction segs as [|g segs IH]; [reflexivity|].
  simpl. rewrite IH. destruct g; reflexivity.
Qed.

Lemma bodies_lack_swap c segs :
  bodies_lack c (map swap segs) = bodies_lack c segs.
Proof.
  induction segs as [|g segs IH]; [reflexivity|].
  simpl. rewrite IH. destruct g; reflexivity.
Qed.

Lemma not_starting_skip c p rest :
  lacks c p = true -> not_starting c rest = true ->
  not_starting c (p ++ rest) = true.
Proof.
  destruct p; simpl; [intros _ H; exact H|].
  intros H _. apply andb_prop in H. tauto.
Qed.

(** The opening mark of insertions is replaced at every insertion and
    nowhere else. *)
Lemma pass_open c1 c2 (new ci od cd : string) segs :
  bodies_lack c1 segs = true ->
  lacks c1 ci = true -> lacks c1 od = true -> lacks c1 cd = true ->
  PyStr.replace (String c1 (String c2 EmptyString)) new
    (render (String c1 (String c2 EmptyString)) ci od cd segs) =
  render new ci od cd segs.
Proof.
  intros Hsegs Hci Hod Hcd.
  induction segs as [|g segs IH]; [reflexivity|].
  simpl in Hsegs. apply andb_prop in Hsegs as [Hg Hsegs].
  specialize (IH Hsegs). destruct g as [t|t|t]; simpl in Hg |- *.
  - rewrite replace_skip_first, IH by exact Hg. reflexivity.
  - rewrite replace_hit, !append_assoc.
    rewrite <- (append_assoc t ci).
    rewrite replace_skip_first, IH, !append_assoc; [reflexivity|].
    rewrite lacks_app, Hg, Hci. reflexivity.
  - rewrite replace_skip_first, IH; [reflexivity|].
    rewrite !lacks_app, Hg, Hod, Hcd. reflexivity.
Qed.

Lemma render_not_starting c c1 (oi od cd : string) segs :
  bodies_lack c segs = true ->
  lacks c oi = true -> lacks c od = true -> lacks c cd = true ->
  Ascii.eqb c1 c = false ->
  not_starting c (render oi (String c1 (String c EmptyString)) od cd segs) = true.
Proof.
  intros Hsegs Hoi Hod Hcd Hc1.
  induction segs as [|g segs IH]; [reflexivity|].
  simpl in Hsegs. apply andb_prop in Hsegs as [Hg Hsegs].
  specialize (IH Hsegs). destruct g as [t|t|t]; simpl in Hg |- *.
  - apply not_starting_skip; assumption.
  - rewrite !append_assoc. apply not_starting_skip; [exact Hoi|].
    apply not_starting_skip; [exact Hg|].
    simpl. rewrite Hc1. reflexivity.
  - apply not_starting_skip; [|exact IH].
    rewrite !lacks_app, Hg, Hod, Hcd. reflexivity.
Qed.

(** The closing mark of insertions is replaced at every insertion and
    nowhere else. *)
Lemma pass_close c1 c2 (new oi od cd : string) segs :
  bodies_lack c2 segs = true ->
  lacks c2 oi = true -> lacks c2 od = true -> lacks c2 cd = true ->
  Ascii.eqb c1 c2 = false ->
  PyStr.replace (String c1 (String c2 EmptyString)) new
    (render oi (String c1 (String c2 EmptyString)) od cd segs) =
  render oi new od cd segs.
Proof.
  intros Hsegs Hoi Hod Hcd Hc1.
  induction segs as [|g segs IH]; [reflexivity|].
  pose proof Hsegs as Hall.
  simpl in Hsegs. apply andb_prop in Hsegs as [Hg Hsegs].
  specialize (IH Hsegs).
  pose proof (render_not_starting c2 c1 oi od cd segs Hsegs Hoi Hod Hcd Hc1)
    as Hrest.
  destruct g as [t|t|t]; simpl in Hg |- *.
  - rewrite replace_skip_second, IH by assumption. reflexivity.
  - rewrite !append_assoc. rewrite <- (append_assoc oi t).
    rewrite replace_skip_second.
    + cbn [append]. rewrite replace_hit, IH, !append_assoc. reflexivity.
    + rewrite lacks_app, Hoi, Hg. reflexivity.
    + simpl. rewrite Hc1. reflexivity.
  - rewrite replace_skip_second, IH; [reflexivity| |exact Hrest].
    rewrite !lacks_app, Hg, Hod, Hcd. reflexivity.
Qed.

Lemma clean_bodies segs :
  forallb (fun g => clean (seg_body g)) segs = true ->
  bodies_lack "{" segs = true /\ bodies_lack "}" segs = true /\
  bodies_lack "[" segs = true /\ bodies_lack "]" segs = true /\
  bodies_lack "<" segs = true.
Proof.
  induction segs as [|g segs IH]; [repeat split; reflexivity|].
  simpl. intros H. apply andb_prop in H as [Hg Hsegs].
  destruct (IH Hsegs) as (H1 & H2 & H3 & H4 & H5).
  unfold clean in Hg.
  repeat (apply andb_prop in Hg as [Hg ?]).
  repeat split; apply andb_true_intro; split; assumption.
Qed.

(** On a sequence of clean segments the renderer replaces each pair of
    marks by a pair of wrappers. *)
Lemma color_diffs_render segs :
  forallb (fun g => clean (seg_body g)) segs = true ->
  color_diffs (diff_text segs) = markup segs.
Proof.
  intros Hclean.
  destruct (clean_bodies segs Hclean) as (H1 & H2 & H3 & H4 & _).
  unfold color_diffs, diff_text, markup.
  rewrite (pass_open "{" "+" span_green "+}" "[-" "-]" segs H1)
    by reflexivity.
  rewrite (pass_close "+" "}" span_close span_green "[-" "-]" segs H2)
    by reflexivity.
  rewrite (render_swap span_green span_close "[-" "-]").
  rewrite (pass_open "[" "-" span_red "-]" span_green span_close)
    by (rewrite ?bodies_lack_swap; first [exact H3|reflexivity]).
  rewrite (pass_close "-" "]" span_close span_red span_green span_close)
    by (rewrite ?bodies_lack_swap; first [exact H4|reflexivity]).
  rewrite <- render_swap. reflexivity.
Qed.

Lemma prefix_append p rest : prefix p (p ++ rest) = true.
Proof.
  induction p as [|c p IH]; [destruct rest; reflexivity|].
  cbn [append prefix]. destruct (ascii_dec c c); [exact IH|contradiction].
Qed.

Lemma depth_skip t rest (d : nat) :
  lacks "<" t = true ->
  wrapper_depth (t ++ rest) d = wrapper_depth rest d.
Proof.
  induction t as [|c t IH]; intros Ht; [reflexivity|].
  simpl in Ht. apply andb_prop in Ht as [Hc Ht]. apply negb_true_iff in Hc.
  cbn [append wrapper_depth].
  assert (Hno : forall tag, tag = span_green \/ tag = span_red \/ tag = span_close ->
                prefix tag (String c (t ++ rest)) = false).
  { intros tag [-> | [-> | ->]]; cbn [span_green span_red span_close append prefix];
      (destruct (ascii_dec "<" c) as [Heq|]; [|reflexivity]);
      subst c; discriminate. }
  rewrite !Hno by tauto. simpl. apply IH. exact Ht.
Qed.

Lemma depth_open (tag : string) rest (d : nat) :
  tag = span_green \/ tag = span_red ->
  wrapper_depth (tag ++ rest) d = wrapper_depth rest (S d).
Proof.
  intros Htag.
  assert (Hshape : (tag ++ rest)%string
                   = String "<" (PyStr.drop 1 tag ++ rest)%string)
    by (destruct Htag; subst; reflexivity).
  assert (Hpre : prefix span_green (tag ++ rest)
                 || prefix span_red (tag ++ rest) = true).
  { destruct Htag; subst; rewrite prefix_append; [reflexivity|].
    apply orb_true_r. }
  rewrite Hshape in *. cbn [wrapper_depth]. rewrite Hpre.
  apply depth_skip. destruct Htag; subst; reflexivity.
Qed.

Lemma depth_close rest (d : nat) :
  wrapper_depth (span_close ++ rest) (S d) = wrapper_depth rest d.
Proof.
  assert (Hshape : (span_close ++ rest)%string
                   = String "<" (String "/" ("span>" ++ rest))%string)
    by reflexivity.
  assert (Hpre : prefix span_close (span_close ++ rest) = true)
    by apply prefix_append.
  rewrite Hshape in *. cbn [wrapper_depth]. rewrite Hpre.
  replace (prefix span_green (String "<" (String "/" ("span>" ++ rest))))
    with false by reflexivity.
  replace (prefix span_red (String "<" (String "/" ("span>" ++ rest))))
    with false by reflexivity.
  cbn [orb].
  change (String "/" ("span>" ++ rest))%string with ("/span>" ++ rest)%string.
  apply depth_skip. reflexivity.
Qed.

Lemma markup_depth segs (d : nat) :
  bodies_lack "<" segs = true ->
  wrapper_depth (markup segs) d = Some d.
Proof.
  unfold markup. intros Hsegs. revert d.
  induction segs as [|g segs IH]; intros d; [reflexivity|].
  simpl in Hsegs. apply andb_prop in Hsegs as [Hg Hsegs].
  specialize (IH Hsegs).
  destruct g as [t|t|t]; simpl in Hg; cbn [render seg_render].
  - rewrite depth_skip by exact Hg. apply IH.
  - rewrite !append_assoc, depth_open by (left; reflexivity).
    rewrite depth_skip, depth_close by exact Hg. apply IH.
  - rewrite !append_assoc, depth_open by (right; reflexivity).
    rewrite depth_skip, depth_close by exact Hg. apply IH.
Qed.

End Renderer.

(** C8 (as the code has it): the renderer is a function of the diff text
    alone, and on a diff text made of untouched text and of insertion and
    deletion markers whose texts hold no bracket of a marker and no opening
    of a tag, it replaces each pair of marks by an opening and a closing
    wrapper around the same text, so that every wrapper opened is closed. *)
Theorem color_diffs_balanced_on_clean_segments :
  forall segs : list Seg,
    forallb (fun g => clean (seg_body g)) segs = true ->
    (forall d1 d2, d1 = d2 -> color_diffs d1 = color_diffs d2) /\
    color_diffs (diff_text segs) = markup segs /\
    balanced (color_diffs (diff_text segs)).
Proof.
  intros segs Hclean. split; [intros d1 d2 ->; reflexivity|].
  split; [apply color_diffs_render; exact Hclean|].
  rewrite color_diffs_render by exact Hclean.
  apply markup_depth. apply clean_bodies. exact Hclean.
Qed.

Lemma color_diffs_balanced_on_clean_segments_witness :
  color_diffs "H[-t-]{+a+}e-" =
    ("H" ++ span_red ++ "t" ++ span_close ++ span_green ++ "a" ++ span_close
     ++ "e-")%string /\
  balanced (color_diffs "H[-t-]{+a+}e-").
Proof.
  pose proof (color_diffs_balanced_on_clean_segments
                [Plain "H"; Del "t"; Ins "a"; Plain "e-"] eq_refl)
    as (_ & Hshape & Hbal).
  split; [exact Hshape|exact Hbal].
Defined.

(** C8 (as the claim states it) fails on a mark without its partner: the
    output holds an opening wrapper and no closing wrapper. *)
Lemma color_diffs_lone_marker_unbalanced :
  color_diffs "{+" = span_green /\
  PyStr.contains span_close (color_diffs "{+") = false /\
  ~ balanced (color_diffs "{+").
Proof.
  split; [reflexivity|]. split; [reflexivity|].
  unfold balanced. vm_compute. discriminate.
Qed.

(** ** The scan of well-formed markers *)

Section Scan.

Implicit Types (c : ascii) (t rest : string) (pos : nat).

Lemma length_append t1 t2 :
  String.length (t1 ++ t2) = (String.length t1 + String.length t2)%nat.
Proof. induction t1 as [|c t1 IH]; simpl; [|rewrite IH]; reflexivity. Qed.

(** The lazy group stops at the first closing mark. *)
Lemma lazy_until_found c1 c2 t rest :
  lacks PyStr.newline t = true -> lacks c2 t = true ->
  Ascii.eqb c1 c2 = false ->
  Regex.lazy_until (String c1 (String c2 EmptyString))
    (t ++ String c1 (String c2 rest)) = Some t.
Proof.
  intros Hnl Hc2 Hc1. induction t as [|c t IH].
  - cbn [append Regex.lazy_until].
    change (String c1 (String c2 rest))
      with ((String c1 (String c2 EmptyString)) ++ rest)%string.
    rewrite prefix_append. reflexivity.
  - simpl in Hnl, Hc2.
    apply andb_prop in Hnl as [Hc Hnl]. apply andb_prop in Hc2 as [_ Hc2'].
    apply negb_true_iff in Hc.
    cbn [append Regex.lazy_until].
    rewrite prefix_two_false_second.
    + rewrite Hc, (IH Hnl Hc2'). reflexivity.
    + destruct t as [|c' t']; cbn [append not_starting].
      * rewrite Hc1. reflexivity.
      * simpl in Hc2'. apply andb_prop in Hc2' as [Hc' _]. exact Hc'.
Qed.

Lemma match_here_deletion t rest :
  lacks PyStr.newline t = true -> lacks "]" t = true ->
  Regex.match_here ("[-" ++ t ++ "-]" ++ rest) =
  Some (Some t, None, (String.length t + 4)%nat).
Proof.
  intros Hnl Hc. unfold Regex.match_here.
  cbn [append prefix PyStr.drop].
  destruct (ascii_dec "[" "["); [|contradiction].
  destruct (ascii_dec "-" "-"); [|contradiction].
  replace (prefix EmptyString (t ++ String "-" (String "]" rest))) with true
    by (destruct (t ++ String "-" (String "]" rest))%string; reflexivity).
  rewrite (lazy_until_found "-" "]" t rest Hnl Hc eq_refl). reflexivity.
Qed.

Lemma match_here_insertion t rest :
  lacks PyStr.newline t = true -> lacks "}" t = true ->
  Regex.match_here ("{+" ++ t ++ "+}" ++ rest) =
  Some (None, Some t, (String.length t + 4)%nat).
Proof.
  intros Hnl Hc. unfold Regex.match_here.
  cbn [append prefix PyStr.drop].
  destruct (ascii_dec "[" "{"); [discriminate|].
  destruct (ascii_dec "{" "{"); [|contradiction].
  destruct (ascii_dec "+" "+"); [|contradiction].
  replace (prefix EmptyString (t ++ String "+" (String "}" rest))) with true
    by (destruct (t ++ String "+" (String "}" rest))%string; reflexivity).
  rewrite (lazy_until_found "+" "}" t rest Hnl Hc eq_refl). reflexivity.
Qed.

Lemma match_here_plain c rest :
  Ascii.eqb c "[" = false -> Ascii.eqb c "{" = false ->
  Regex.match_here (String c rest) = None.
Proof.
  intros H1 H2. unfold Regex.match_here.
  rewrite (prefix_two_false_first "[" "-" c rest H1).
  rewrite (prefix_two_false_first "{" "+" c rest H2). reflexivity.
Qed.

(** Text without the first character of a marker holds no match. *)
Lemma finditer_skip_plain t rest : forall pos,
  lacks "[" t = true -> lacks "{" t = true ->
  Regex.finditer_from pos 0 (t ++ rest) =
  Regex.finditer_from (pos + String.length t) 0 rest.
Proof.
  induction t as [|c t IH]; intros pos H1 H2.
  - cbn [append String.length]. rewrite Nat.add_0_r. reflexivity.
  - simpl in H1, H2.
    apply andb_prop in H1 as [Hc1 H1]. apply andb_prop in H2 as [Hc2 H2].
    apply negb_true_iff in Hc1. apply negb_true_iff in Hc2.
    cbn [append Regex.finditer_from String.length].
    rewrite (match_here_plain c _ Hc1 Hc2), (IH (S pos) H1 H2).
    f_equal. lia.
Qed.

(** The characters of a match are passed over. *)
Lemma finditer_pass t rest : forall pos,
  Regex.finditer_from pos (String.length t) (t ++ rest) =
  Regex.finditer_from (pos + String.length t) 0 rest.
Proof.
  induction t as [|c t IH]; intros pos.
  - cbn [append String.length]. rewrite Nat.add_0_r. reflexivity.
  - cbn [append String.length Regex.finditer_from].
    rewrite (IH (S pos)). f_equal. lia.
Qed.

Lemma finditer_from_match c rest pos (g2 g3 : option string) (len : nat) :
  Regex.match_here (String c rest) = Some (g2, g3, len) ->
  Regex.finditer_from pos 0 (String c rest) =
  mkMatch pos (pos + len) g2 g3
    :: Regex.finditer_from (S pos) (Nat.pred len) rest.
Proof. intros Hm. cbn [Regex.finditer_from]. rewrite Hm. reflexivity. Qed.

(** The scan of a deletion marker followed at once by an insertion
    marker, after text that starts no marker. *)
Lemma finditer_adjacent_markers (before deleted inserted rest : string) :
  lacks "[" before = true -> lacks "{" before = true ->
  lacks PyStr.newline deleted = true -> lacks "]" deleted = true ->
  lacks PyStr.newline inserted = true -> lacks "}" inserted = true ->
  let p := String.length before in
  let q := (p + (String.length deleted + 4))%nat in
  let r := (q + (String.length inserted + 4))%nat in
  Regex.finditer
    (before ++ ("[-" ++ deleted ++ "-]") ++ ("{+" ++ inserted ++ "+}") ++ rest) =
  mkMatch p q (Some deleted) None
    :: mkMatch q r None (Some inserted)
    :: Regex.finditer_from r 0 rest.
Proof.
  intros Hb1 Hb2 Hdn Hdc Hin Hic p q r. unfold Regex.finditer.
  rewrite finditer_skip_plain by assumption. cbn [Nat.add]. fold p.
  rewrite !append_assoc.
  assert (Hstep : forall (o c : string) t g2 g3 tail pos,
             String.length o = 2%nat -> String.length c = 2%nat ->
             Regex.match_here (o ++ t ++ c ++ tail)
               = Some (g2, g3, (String.length t + 4)%nat) ->
             Regex.finditer_from pos 0 (o ++ t ++ c ++ tail) =
             mkMatch pos (pos + (String.length t + 4)) g2 g3
               :: Regex.finditer_from (pos + (String.length t + 4)) 0 tail).
  { intros o c t g2 g3 tail pos Ho Hc Hm.
    destruct o as [|o1 [|o2 [|? ?]]]; try discriminate.
    cbn [append] in *. rewrite (finditer_from_match _ _ _ _ _ _ Hm). f_equal.
    replace (Nat.pred (String.length t + 4))
      with (String.length (String o2 (t ++ c)))
      by (cbn [String.length]; rewrite length_append, Hc; lia).
    rewrite <- (append_assoc t c tail).
    change (String o2 ((t ++ c) ++ tail))
      with ((String o2 (t ++ c)) ++ tail)%string.
    rewrite finditer_pass. f_equal.
    cbn [String.length]. rewrite length_append, Hc. lia. }
  rewrite (Hstep "[-" "-]" deleted (Some deleted) None _ p eq_refl eq_refl)
    by (apply match_here_deletion; assumption).
  fold q.
  rewrite (Hstep "{+" "+}" inserted None (Some inserted) rest q eq_refl eq_refl)
    by (apply match_here_insertion; assumption).
  reflexivity.
Qed.

(** The scan of a text does not depend on where the text stands. *)
Lemma finditer_from_shift (n : nat) (s : string) : forall pos k,
  Regex.finditer_from (pos + n) k s =
  map (shift n) (Regex.finditer_from pos k s).
Proof.
  induction s as [|c s IH]; intros pos k; [reflexivity|].
  cbn [Regex.finditer_from]. destruct k as [|k].
  - destruct (Regex.match_here (String c s)) as [[[g2 g3] len]|].
    + cbn [map]. rewrite <- (IH (S pos)). unfold shift. cbn [m_start m_end m_sub m_add].
      f_equal. f_equal; lia.
    + apply (IH (S pos)).
  - apply (IH (S pos)).
Qed.

(** Nor do the units: the parser compares positions with each other
    only. *)
Lemma run_shift (n : nat) (ms : list Match) :
  forall (mods : list ModUnit) (pos : nat),
    mods <> [] ->
    fold_left modifications_step (map (shift n) ms) (mods, (pos + n)%nat) =
    (fst (fold_left modifications_step ms (mods, pos)),
     (snd (fold_left modifications_step ms (mods, pos)) + n)%nat).
Proof.
  induction ms as [|m ms IH]; intros mods pos Hne; [reflexivity|].
  cbn [map fold_left].
  assert (Hstep : modifications_step (mods, (pos + n)%nat) (shift n m) =
                  (fst (modifications_step (mods, pos) m),
                   (snd (modifications_step (mods, pos) m) + n)%nat) /\
                  fst (modifications_step (mods, pos) m) <> []).
  { unfold modifications_step, shift. cbn [m_start m_end m_sub m_add].
    replace (pos + n =? m_start m + n)%nat with (pos =? m_start m)%nat
      by (destruct (Nat.eqb_spec pos (m_start m));
          destruct (Nat.eqb_spec (pos + n) (m_start m + n)); try reflexivity; lia).
    destruct (negb (or_empty (m_add m) =? "")%string
              && (0 <? length mods)%nat && (pos =? m_start m)%nat);
      [destruct (last_add mods =? "")%string|]; cbn [fst snd];
      (split; [reflexivity|]).
    - destruct mods as [|u0 before _] using rev_ind; [contradiction|].
      rewrite set_last_add_snoc. intros Habs.
      apply app_eq_nil in Habs as [_ Habs]. discriminate.
    - intros Habs. apply app_eq_nil in Habs as [_ Habs]. discriminate.
    - intros Habs. apply app_eq_nil in Habs as [_ Habs]. discriminate. }
  destruct Hstep as [Hstep Hne'].
  rewrite Hstep.
  destruct (modifications_step (mods, pos) m) as [mods' pos'].
  cbn [fst snd] in *. apply IH. exact Hne'.
Qed.

Lemma modifications_of_shift (n : nat) (ms : list Match) :
  modifications_of (map (shift n) ms) = modifications_of ms.
Proof.
  unfold modifications_of. destruct ms as [|m ms]; [reflexivity|].
  cbn [map fold_left].
  assert (Hfirst : forall m', modifications_step ([], 1%nat) m' =
                     ([(or_empty (m_sub m'), or_empty (m_add m'))], m_end m')).
  { intros m'. unfold modifications_step. cbn [length Nat.ltb Nat.leb].
    rewrite andb_false_r. reflexivity. }
  rewrite (Hfirst (shift n m)), (Hfirst m).
  change (m_end (shift n m)) with (m_end m + n)%nat.
  change (m_sub (shift n m)) with (m_sub m).
  change (m_add (shift n m)) with (m_add m).
  rewrite run_shift by discriminate. reflexivity.
Qed.

(** On a text with a deletion marker followed at once by an insertion
    marker with some text, after text that starts no marker, the parser
    gives one unit for the pair and goes on as on the rest alone. *)
Lemma modifications_adjacent_markers (before deleted inserted rest : string) :
  lacks "[" before = true -> lacks "{" before = true ->
  lacks PyStr.newline deleted = true -> lacks "]" deleted = true ->
  lacks PyStr.newline inserted = true -> lacks "}" inserted = true ->
  inserted <> EmptyString ->
  modifications
    (before ++ ("[-" ++ deleted ++ "-]") ++ ("{+" ++ inserted ++ "+}") ++ rest) =
  (deleted, inserted) :: modifications rest.
Proof.
  intros Hb1 Hb2 Hdn Hdc Hin Hic Hne. unfold modifications.
  rewrite finditer_adjacent_markers by assumption. cbv zeta.
  match goal with
  | |- modifications_of (?del :: ?ins :: ?after) = _ =>
      pose proof (merge_adjacent_pair [] after del ins deleted inserted
                    eq_refl eq_refl eq_refl eq_refl eq_refl Hne) as Hpair
  end.
  cbn [app] in Hpair. rewrite Hpair.
  change (modifications_of []) with (@nil ModUnit).
  cbn [app]. f_equal. unfold Regex.finditer.
  match goal with
  | |- modifications_of (Regex.finditer_from ?n 0 rest) = _ =>
      pose proof (finditer_from_shift n rest 0 0) as Hshift
  end.
  cbn [Nat.add] in Hshift. rewrite Hshift. apply modifications_of_shift.
Qed.

End Scan.

(** ** [pop_idx] *)

Section PopIdx.

Context {A : Type}.
Implicit Types (l : list A) (i : nat).

Lemma remove_at_firstn_skipn l : forall i,
  PyList.remove_at i l = firstn i l ++ skipn (S i) l.
Proof.
  induction l as [|x l IH]; intros [|i]; simpl; try reflexivity.
  rewrite IH. destruct l; reflexivity.
Qed.

Lemma remove_at_length l : forall i,
  (i < length l)%nat -> length (PyList.remove_at i l) = Nat.pred (length l).
Proof.
  induction l as [|x l IH]; intros [|i] Hi; simpl in *; try lia.
  rewrite IH by lia. lia.
Qed.

(** With an index that is not negative, [pop_idx] returns, and removes
    at most the element at that index. *)
Lemma pop_idx_list_nonneg l (popidx : Z) :
  0 <= popidx ->
  pop_idx_list l popidx =
  Ok (if popidx <? Z.of_nat (length l)
      then PyList.remove_at (Z.to_nat popidx) l
      else l).
Proof.
  intros Hpos. unfold pop_idx_list, PyList.pop.
  destruct (Z.gtb_spec (Z.of_nat (length l)) popidx) as [Hin|Hout].
  - replace (popidx <? 0) with false by (symmetry; apply Z.ltb_ge; lia).
    replace (popidx <? 0) with false by (symmetry; apply Z.ltb_ge; lia).
    replace (Z.of_nat (length l) <=? popidx) with false
      by (symmetry; apply Z.leb_gt; lia).
    replace (popidx <? Z.of_nat (length l)) with true
      by (symmetry; apply Z.ltb_lt; lia).
    reflexivity.
  - replace (popidx <? Z.of_nat (length l)) with false
      by (symmetry; apply Z.ltb_ge; lia).
    reflexivity.
Qed.

Lemma pop_idx_list_length l l' (popidx : Z) :
  0 <= popidx ->
  pop_idx_list l popidx = Ok l' ->
  Z.of_nat (length l') =
  if popidx <? Z.of_nat (length l)
  then Z.of_nat (length l) - 1
  else Z.of_nat (length l).
Proof.
  intros Hpos H. rewrite pop_idx_list_nonneg in H by exact Hpos.
  inversion H; subst; clear H.
  destruct (Z.ltb_spec popidx (Z.of_nat (length l))) as [Hin|Hout];
    [|reflexivity].
  rewrite remove_at_length by lia. lia.
Qed.

End PopIdx.

Lemma pop_idx_inv (popidx : Z) (u : unit) (w w' : World) :
  pop_idx popidx w = Ok (u, w') ->
  exists l', pop_idx_list (difflist (session w)) popidx = Ok l' /\
             w' = mkWorld (set_difflist l' (session w)) (trace w) (log w).
Proof.
  unfold pop_idx. intros H. run. eexists. split; [eassumption|reflexivity].
Qed.

(** C10 (as the code has it): for every stored list and every index that
    is not negative, [pop_idx] does not raise; when the index is below the
    length of the list the element at that index, and no other, is
    removed, and otherwise the list is left as it is.  Nothing else of the
    session, and nothing of the repository, changes. *)
Theorem pop_idx_nonnegative_index :
  forall (w : World) (popidx : Z),
    0 <= popidx ->
    let l := difflist (session w) in
    let n := Z.to_nat popidx in
    pop_idx popidx w =
    Ok (tt, mkWorld
              (set_difflist
                 (if popidx <? Z.of_nat (length l)
                  then firstn n l ++ skipn (S n) l
                  else l)
                 (session w))
              (trace w) (log w)).
Proof.
  intros w popidx Hpos l n. unfold pop_idx, bind, read, lift, assign.
  rewrite pop_idx_list_nonneg by exact Hpos. fold l.
  destruct (popidx <? Z.of_nat (length l)); [|reflexivity].
  rewrite remove_at_firstn_skipn. reflexivity.
Qed.

Lemma pop_idx_nonnegative_index_witness :
  pop_idx 1
    (mkWorld (set_difflist [Some "a"; Some "b"; Some "c"] (session Demo.start))
       [] []) =
  Ok (tt, mkWorld (set_difflist [Some "a"; Some "c"] (session Demo.start))
            [] []).
Proof.
  apply (pop_idx_nonnegative_index
           (mkWorld (set_difflist [Some "a"; Some "b"; Some "c"]
                       (session Demo.start)) [] []) 1).
  lia.
Defined.

(** C10 (as the claim states it) fails on a negative index: the guard lets
    it through and [list.pop] raises on the empty list. *)
Lemma pop_idx_negative_index_raises :
  pop_idx_list (@nil (option string)) (-1) = Raise IndexError /\
  pop_idx (-1) Demo.start = Raise IndexError.
Proof. split; reflexivity. Qed.

(** ** The handlers: what they leave unchanged *)

Ltac world_simpl :=
  cbn [session trace log folder skip difflist difflen reservefile vkeylang
       undo_fpath undo_value modtype modtext fname fpath fileidx skipcc addcc
       set_skip set_difflist set_difflen set_reservefile set_vkeylang
       set_undo_fpath set_undo_value set_modtype set_modtext set_fname
       set_fpath set_fileidx fst snd] in *.

Ltac exec := repeat (run_step; subst; world_simpl).

Lemma commits_app (tr1 tr2 : list Event) :
  commits (tr1 ++ tr2) = (commits tr1 + commits tr2)%nat.
Proof.
  induction tr1 as [|e tr1 IH]; [reflexivity|].
  destruct e; simpl; rewrite IH; reflexivity.
Qed.

Section Frames.

Variable env : Env.

Lemma get_gitdifftext_frame (orig diff_ result : string) (w w' : World) :
  get_gitdifftext env orig diff_ w = Ok (result, w') -> w' = w.
Proof. unfold get_gitdifftext. intros H. exec. reflexivity. Qed.

(** [get_difftext] only logs. *)
Lemma get_difftext_frame (origtext : string) (item : DiffItem)
  (folder_ result : string) (w w' : World) :
  get_difftext env origtext item folder_ w = Ok (result, w') ->
  exists lg, w' = mkWorld (session w) (trace w) lg.
Proof.
  unfold get_difftext. intros H.
  destruct (PyStr.contains conflict_head origtext).
  - exec. apply get_gitdifftext_frame in H. subst.
    exists (log w). destruct w; reflexivity.
  - apply try_except_inv in H as [H|(e & _ & _ & H)].
    + exec. exists (log w). destruct w; reflexivity.
    + exec. apply try_except_inv in H as [H|(e' & _ & _ & H)].
      * exec. apply get_gitdifftext_frame in H. subst.
        eexists. reflexivity.
      * exec. eexists. reflexivity.
Qed.

Lemma find_item_frame (filename : option string) (item : DiffItem)
  (w w' : World) :
  find_item env filename w = Ok (item, w') -> w' = w.
Proof. unfold find_item. intros H. exec; reflexivity. Qed.

End Frames.

Ltac exec_calls :=
  repeat first
    [ run_step; subst; world_simpl
    | match goal with
      | H : pop_idx _ _ = Ok (_, _) |- _ =>
          let l := fresh "l" in
          let Hl := fresh "Hpop" in
          apply pop_idx_inv in H; destruct H as (l & Hl & H); subst; world_simpl
      | H : find_item _ _ _ = Ok (_, _) |- _ =>
          apply find_item_frame in H; subst; world_simpl
      | H : get_difftext _ _ _ _ _ = Ok (_, _) |- _ =>
          let lg := fresh "lg" in
          apply get_difftext_frame in H; destruct H as (lg & H); subst; world_simpl
      end ].

(** ** The queue invariant *)

Section Queue.

Variable env : Env.

Ltac queue_unfold :=
  unfold queue_loop, queue_page, queue_entry, queue_length, fileidx_zero,
    not_merge in *; world_simpl.

Ltac pop_length :=
  repeat match goal with
    | H : pop_idx_list ?l ?i = Ok ?l' |- _ =>
        let Hlen := fresh "Hlen" in
        assert (Hlen : 0 <= i) by lia;
        apply (pop_idx_list_length l l' i Hlen) in H;
        clear Hlen;
        destruct (Z.ltb_spec i (Z.of_nat (length l)))
    end.

Lemma gtcheck_present_queue (reponame name email diffhead : string)
  (idx nc r : Z) (filename : option string) (item : DiffItem)
  (origtext difftext : string) (w w' : World) (step : LoopStep) :
  gtcheck_present env reponame name email diffhead idx nc filename item
    origtext difftext w = Ok (step, w') ->
  0 <= idx -> nc = idx -> 0 <= r ->
  queue_loop (r + 1) (session w) ->
  match step with
  | Continue nc' => nc' = idx + 1 /\ queue_loop r (session w')
  | Return _ => queue_page (session w')
  end.
Proof.
  intros Hrun Hidx Hnc Hr Hq.
  unfold gtcheck_present in Hrun.
  exec_calls; queue_unfold; pop_length;
    repeat split; try lia; try discriminate; try tauto;
    try (right; f_equal; lia); try (left; lia).
Qed.

Lemma gtcheck_file_queue (reponame name email diffhead : string)
  (idx nc r : Z) (filename : option string) (w w' : World)
  (step : LoopStep) :
  gtcheck_file env reponame name email diffhead idx nc filename w
    = Ok (step, w') ->
  0 <= idx -> nc = idx -> 0 <= r ->
  queue_loop (r + 1) (session w) ->
  match step with
  | Continue nc' => nc' = idx + 1 /\ queue_loop r (session w')
  | Return _ => queue_page (session w')
  end.
Proof.
  intros Hrun Hidx Hnc Hr Hq.
  unfold gtcheck_file in Hrun.
  apply bind_inv in Hrun as (item & w1 & Hitem & Hrun).
  apply find_item_frame in Hitem. subst w1.
  assert (Hmod : queue_loop (r + 1) (set_modtype "mod" (session w)))
    by (queue_unfold; repeat split; try tauto; discriminate).
  destruct (a_blob item) eqn:Ha; [|destruct (b_blob item) eqn:Hb].
  3: { exec_calls; queue_unfold; pop_length; repeat split; try lia; tauto. }
  all: exec_calls;
    eapply gtcheck_present_queue in Hrun; try eassumption; reflexivity.
Qed.

Lemma gtcheck_loop_queue (reponame name email diffhead : string)
  (l : list (option string)) :
  forall (idx nc : Z) (w w' : World) (result : option Page),
    gtcheck_loop env reponame name email diffhead idx nc l w
      = Ok (result, w') ->
    0 <= idx -> nc = idx ->
    queue_loop (Z.of_nat (length l)) (session w) ->
    match result with
    | Some _ => queue_page (session w')
    | None => queue_loop 0 (session w')
    end.
Proof.
  induction l as [|filename rest IH]; intros idx nc w w' result Hrun Hidx Hnc Hq.
  - simpl in Hrun. exec. exact Hq.
  - cbn [gtcheck_loop] in Hrun.
    apply bind_inv in Hrun as (step & w1 & Hstep & Hrun).
    eapply (gtcheck_file_queue _ _ _ _ idx nc (Z.of_nat (length rest)))
      in Hstep; try assumption; try lia.
    + destruct step as [nc'|page].
      * destruct Hstep as [Hnc' Hq1].
        eapply IH in Hrun; try eassumption; lia.
      * exec. exact Hstep.
    + replace (Z.of_nat (length rest) + 1)
        with (Z.of_nat (length (filename :: rest)))
        by (simpl length; lia).
      exact Hq.
Qed.

Lemma slice_from_length {A} (l : list A) (a : Z) :
  0 <= a <= Z.of_nat (length l) ->
  Z.of_nat (length (PyList.slice_from l a)) = Z.of_nat (length l) - a.
Proof.
  intros Ha. unfold PyList.slice_from.
  replace (a <? 0) with false by (symmetry; apply Z.ltb_ge; lia).
  rewrite length_skipn. lia.
Qed.

Lemma slice_to_length {A} (l : list A) (b : Z) :
  0 <= b ->
  Z.of_nat (length (PyList.slice_to l b)) = Z.min b (Z.of_nat (length l)).
Proof.
  intros Hb. unfold PyList.slice_to.
  replace (b <? 0) with false by (symmetry; apply Z.ltb_ge; lia).
  rewrite length_firstn. lia.
Qed.

Lemma times_length {A} (x : A) (n : Z) :
  0 <= n -> Z.of_nat (length (PyList.times x n)) = n.
Proof. intros Hn. unfold PyList.times. rewrite repeat_length. lia. Qed.

(** After lines 153 to 159 the cursor is within the queue: a queue the
    cursor has reached the end of is built again, or cleared to [skip]
    empty places. *)
Lemma gtcheck_rebuild_queue (u : unit) (w w' : World) :
  gtcheck_rebuild env w = Ok (u, w') ->
  queue_entry (session w) ->
  queue_loop (queue_length (session w') - skip (session w')) (session w') /\
  skip (session w') = skip (session w) /\
  trace w' = trace w /\ log w' = log w.
Proof.
  intros Hrun Hq. unfold gtcheck_rebuild in Hrun.
  apply bind_inv in Hrun as (l & w1 & Hl & Hrun).
  apply read_inv in Hl as [-> ->].
  apply bind_inv in Hrun as (skip_ & w1 & Hs & Hrun).
  apply read_inv in Hs as [-> ->].
  cbv beta zeta in Hrun.
  match type of Hrun with
  | (if ?b then _ else _) _ = _ => destruct b eqn:Hstale
  end.
  - exec; queue_unfold.
    + rewrite times_length by lia. repeat split; try lia; tauto.
    + rewrite slice_to_length by lia.
      match goal with H : (_ <=? _) = false |- _ => apply Z.leb_gt in H end.
      repeat split; try lia; tauto.
  - exec. queue_unfold.
    destruct (difflist (session w)) eqn:Hd; [discriminate|].
    apply Z.leb_gt in Hstale. repeat split; try lia; tauto.
Qed.

(** Whatever the session, lines 153 to 159 leave the cursor within the
    queue; a queue the cursor has reached the end of is replaced. *)
Lemma gtcheck_rebuild_resets (u : unit) (w w' : World) :
  0 <= skip (session w) ->
  gtcheck_rebuild env w = Ok (u, w') ->
  skip (session w') = skip (session w) /\
  skip (session w') <= queue_length (session w') /\
  (queue_length (session w) <= skip (session w) ->
   exists items,
     index_diff env (trace w) None false = Ok items /\
     difflist (session w') = rebuilt_queue items (skip (session w))).
Proof.
  intros Hskip Hrun. unfold gtcheck_rebuild in Hrun.
  apply bind_inv in Hrun as (l & w1 & Hl & Hrun).
  apply read_inv in Hl as [-> ->].
  apply bind_inv in Hrun as (skip_ & w1 & Hs & Hrun).
  apply read_inv in Hs as [-> ->].
  cbv beta zeta in Hrun.
  match type of Hrun with
  | (if ?b then _ else _) _ = _ => destruct b eqn:Hstale
  end.
  - exec; unfold queue_length; world_simpl.
    + rewrite times_length by lia.
      repeat split; try lia. intros _. eexists. split; [eassumption|].
      unfold rebuilt_queue.
      match goal with H : (_ <=? _) = true |- _ => rewrite H end.
      reflexivity.
    + rewrite slice_to_length by lia.
      match goal with H : (_ <=? _) = false |- _ =>
        pose proof H as Hlong; apply Z.leb_gt in Hlong end.
      repeat split; try lia. intros _. eexists. split; [eassumption|].
      unfold rebuilt_queue.
      match goal with H : (_ <=? _) = false |- _ => rewrite H end.
      reflexivity.
  - exec. unfold queue_length.
    destruct (difflist (session w)) eqn:Hd; [discriminate|].
    apply Z.leb_gt in Hstale. repeat split; try lia.
Qed.

Lemma gtcheck_queue (fuel : nat) :
  forall (reponame : string) (w w' : World) (page : Page),
    gtcheck env fuel reponame w = Ok (page, w') ->
    queue_entry (session w) ->
    queue_page (session w').
Proof.
  induction fuel as [|fuel IH]; intros reponame w w' page Hrun Hq;
    [discriminate|].
  cbn [gtcheck] in Hrun.
  apply bind_inv in Hrun as (name & w1 & Hname & Hrun).
  apply ask_inv in Hname as [_ ->].
  apply bind_inv in Hrun as (email & w1 & Hemail & Hrun).
  apply ask_inv in Hemail as [_ ->].
  apply bind_inv in Hrun as (out & w1 & Hout & Hrun).
  apply ask_inv in Hout as [_ ->].
  apply bind_inv in Hrun as (diffhead & w1 & Hhead & Hrun).
  apply lift_inv in Hhead as [_ ->].
  apply bind_inv in Hrun as (u & w1 & Hreb & Hrun).
  apply gtcheck_rebuild_queue in Hreb as (Hloop & _); [|exact Hq].
  apply bind_inv in Hrun as (l & w2 & Hl & Hrun).
  apply read_inv in Hl as [-> ->].
  apply bind_inv in Hrun as (skip_ & w2 & Hs & Hrun).
  apply read_inv in Hs as [-> ->].
  apply bind_inv in Hrun as (result & w2 & Hlooprun & Hrun).
  eapply gtcheck_loop_queue in Hlooprun; try reflexivity; try lia.
  - destruct result as [page'|].
    + exec. exact Hlooprun.
    + destruct (truthy diffhead).
      * exec. queue_unfold. repeat split; try lia; try tauto.
      * apply bind_inv in Hrun as (l & w3 & Hl & Hrun).
        apply read_inv in Hl as [-> ->].
        destruct (difflist (session w2)) eqn:Hd.
        -- exec. queue_unfold. rewrite Hd in *. simpl length in *.
           repeat split; try lia; tauto.
        -- apply bind_inv in Hrun as (u' & w3 & Hskip & Hrun).
           apply assign_inv in Hskip. subst w3.
           eapply IH; [exact Hrun|].
           queue_unfold. repeat split; try lia; tauto.
  - rewrite slice_from_length; [exact Hloop|].
    queue_unfold. lia.
Qed.

Lemma gtcheckinit_session_entry (folder_ : string) (rf : Reservation) :
  queue_entry (gtcheckinit_session folder_ rf).
Proof.
  unfold gtcheckinit_session. queue_unfold. simpl.
  repeat split; try lia; try (left; reflexivity); discriminate.
Qed.

Lemma gtcheckedit_queue (fuel : nat) (reponame : string) (data : Form)
  (w w' : World) (page : Page) :
  gtcheckedit env fuel reponame data w = Ok (page, w') ->
  queue_page (session w) ->
  queue_page (session w').
Proof.
  intros Hrun Hq. unfold gtcheckedit, gtcheckedit_finish in Hrun.
  apply bind_inv in Hrun as (difflen_ & w1 & Hd & Hrun).
  apply read_inv in Hd as [-> ->].
  apply bind_inv in Hrun as (skip_ & w1 & Hs & Hrun).
  apply read_inv in Hs as [-> ->].
  destruct (difflen (session w) - skip (session w) =? 0) eqn:Hleft.
  - apply Z.eqb_eq in Hleft.
    apply bind_inv in Hrun as (u & w1 & Hcommit & Hrun).
    apply bind_inv in Hrun as (u' & w2 & Hclear & Hrun).
    apply assign_inv in Hclear. subst w2.
    eapply gtcheck_queue; [exact Hrun|].
    assert (Hsame : session w1 = session w) by (exec; reflexivity).
    queue_unfold. rewrite Hsame. simpl length.
    repeat split; try lia; tauto.
  - apply Z.eqb_neq in Hleft.
    unfold gtcheckedit_decision, gtcheckedit_undo, write_if_changed,
      dump_reservation in Hrun.
    repeat match type of Hrun with
      | bind _ _ _ = Ok _ =>
          let a := fresh "a" in
          let w1 := fresh "w" in
          let H1 := fresh "Hstep" in
          apply bind_inv in Hrun as (a & w1 & H1 & Hrun); cbv beta in Hrun
      end.
    eapply gtcheck_queue; [exact Hrun|].
    clear Hrun.
    assert (Hfidx : forall v, fileidx (session w) = Some v -> v = 0).
    { intros v Hv. destruct Hq as (_ & _ & _ & [Hz|Hz] & _);
        rewrite Hz in Hv; [discriminate|]. inversion Hv. reflexivity. }
    exec_calls;
      repeat match goal with
        | H : fileidx (session w) = Some ?v |- _ =>
            apply Hfidx in H; subst v
        end;
      queue_unfold; pop_length; simpl length in *;
      repeat split; try lia; try tauto; try discriminate.
Qed.

End Queue.

(** Every world of a review satisfies the invariant of a returned page. *)
Lemma reachable_queue_page (w : World) :
  reachable w -> queue_page (session w).
Proof.
  induction 1 as [env fuel reponame folder_ rf tr lg page w Hrun
                 |env fuel reponame data w page w' Hreach IH Hrun].
  - eapply gtcheck_queue; [exact Hrun|]. apply gtcheckinit_session_entry.
  - eapply gtcheckedit_queue; eassumption.
Qed.


(** ** The calls [gtcheck] makes *)

Section GtcheckStep.

Variable env : Env.

Lemma gtcheck_step_refl (w : World) : gtcheck_step w w.
Proof.
  split; [exists []; rewrite app_nil_r; split; reflexivity|].
  left. reflexivity.
Qed.

Lemma gtcheck_step_trans (w1 w2 w3 : World) :
  gtcheck_step w1 w2 -> gtcheck_step w2 w3 -> gtcheck_step w1 w3.
Proof.
  intros [(evs1 & Ht1 & Hc1) Hm1] [(evs2 & Ht2 & Hc2) Hm2]. split.
  - exists (evs1 ++ evs2). rewrite Ht2, Ht1, app_assoc, commits_app.
    split; [reflexivity|lia].
  - destruct Hm2 as [Hm2|Hm2]; [|right; exact Hm2].
    rewrite Hm2. exact Hm1.
Qed.

Ltac step_solve :=
  unfold gtcheck_step, file_kind; world_simpl; split;
  [ rewrite <- ?app_assoc; eexists; split;
    [ first [ reflexivity | symmetry; apply app_nil_r ] | reflexivity ]
  | tauto ].

Lemma gtcheck_present_step (reponame name email diffhead : string)
  (idx nc : Z) (filename : option string) (item : DiffItem)
  (origtext difftext : string) (w w' : World) (step : LoopStep) :
  gtcheck_present env reponame name email diffhead idx nc filename item
    origtext difftext w = Ok (step, w') ->
  gtcheck_step w w'.
Proof.
  intros Hrun. unfold gtcheck_present in Hrun.
  exec_calls; step_solve.
Qed.

Lemma gtcheck_file_step (reponame name email diffhead : string)
  (idx nc : Z) (filename : option string) (w w' : World)
  (step : LoopStep) :
  gtcheck_file env reponame name email diffhead idx nc filename w
    = Ok (step, w') ->
  gtcheck_step w w'.
Proof.
  intros Hrun. unfold gtcheck_file in Hrun.
  apply bind_inv in Hrun as (item & w1 & Hitem & Hrun).
  apply find_item_frame in Hitem. subst w1.
  destruct (a_blob item) eqn:Ha; [|destruct (b_blob item) eqn:Hb].
  3: { exec_calls; step_solve. }
  all: exec_calls; apply gtcheck_present_step in Hrun;
    (eapply gtcheck_step_trans; [|exact Hrun]); step_solve.
Qed.

Lemma gtcheck_loop_step (reponame name email diffhead : string)
  (l : list (option string)) :
  forall (idx nc : Z) (w w' : World) (result : option Page),
    gtcheck_loop env reponame name email diffhead idx nc l w
      = Ok (result, w') ->
    gtcheck_step w w'.
Proof.
  induction l as [|filename rest IH]; intros idx nc w w' result Hrun.
  - simpl in Hrun. exec. apply gtcheck_step_refl.
  - cbn [gtcheck_loop] in Hrun.
    apply bind_inv in Hrun as (step & w1 & Hstep & Hrun).
    apply gtcheck_file_step in Hstep.
    destruct step as [nc'|page].
    + apply IH in Hrun. eapply gtcheck_step_trans; eassumption.
    + exec. exact Hstep.
Qed.

Lemma gtcheck_rebuild_step (u : unit) (w w' : World) :
  gtcheck_rebuild env w = Ok (u, w') -> gtcheck_step w w'.
Proof.
  intros Hrun. unfold gtcheck_rebuild in Hrun. exec; step_solve.
Qed.

Lemma gtcheck_gtcheck_step (fuel : nat) :
  forall (reponame : string) (w w' : World) (page : Page),
    gtcheck env fuel reponame w = Ok (page, w') -> gtcheck_step w w'.
Proof.
  induction fuel as [|fuel IH]; intros reponame w w' page Hrun;
    [discriminate|].
  cbn [gtcheck] in Hrun.
  apply bind_inv in Hrun as (name & w1 & Hname & Hrun).
  apply ask_inv in Hname as [_ ->].
  apply bind_inv in Hrun as (email & w1 & Hemail & Hrun).
  apply ask_inv in Hemail as [_ ->].
  apply bind_inv in Hrun as (out & w1 & Hout & Hrun).
  apply ask_inv in Hout as [_ ->].
  apply bind_inv in Hrun as (diffhead & w1 & Hhead & Hrun).
  apply lift_inv in Hhead as [_ ->].
  apply bind_inv in Hrun as (u & w1 & Hreb & Hrun).
  apply gtcheck_rebuild_step in Hreb.
  apply bind_inv in Hrun as (l & w2 & Hl & Hrun).
  apply read_inv in Hl as [-> ->].
  apply bind_inv in Hrun as (skip_ & w2 & Hs & Hrun).
  apply read_inv in Hs as [-> ->].
  apply bind_inv in Hrun as (result & w2 & Hloop & Hrun).
  apply gtcheck_loop_step in Hloop.
  pose proof (gtcheck_step_trans _ _ _ Hreb Hloop) as Hsofar.
  destruct result as [page'|].
  - exec. exact Hsofar.
  - destruct (truthy diffhead).
    + exec. eapply gtcheck_step_trans; [exact Hsofar|]. step_solve.
    + apply bind_inv in Hrun as (l & w3 & Hl & Hrun).
      apply read_inv in Hl as [-> ->].
      destruct (difflist (session w2)).
      * exec. exact Hsofar.
      * apply bind_inv in Hrun as (u' & w3 & Hskip & Hrun).
        apply assign_inv in Hskip. subst w3.
        apply IH in Hrun.
        eapply gtcheck_step_trans; [exact Hsofar|].
        eapply gtcheck_step_trans; [|exact Hrun]. step_solve.
Qed.

End GtcheckStep.

(** ** The decision on a file *)

Section Decisions.

Variable env : Env.

(** Splits a run of [gtcheckedit] into its steps, up to the call of
    [gtcheck] at its end. *)
Ltac peel Hrun :=
  repeat match type of Hrun with
    | bind _ _ _ = Ok _ =>
        let a := fresh "a" in
        let w1 := fresh "w" in
        let H1 := fresh "Hstep" in
        apply bind_inv in Hrun as (a & w1 & H1 & Hrun); cbv beta in Hrun
    end.

(** What [gtcheckedit] has done when it calls [gtcheck]: the calls it
    made, with the number of commits among them. *)
Lemma gtcheckedit_calls (fuel : nat) (reponame : string) (data : Form)
  (w w' : World) (page : Page) :
  gtcheckedit env fuel reponame data w = Ok (page, w') ->
  exists evs,
    trace w' = trace w ++ evs /\
    commits evs =
      (if String.eqb (form_selection data) "commit" then 1%nat else O) /\
    (String.eqb (form_selection data) "commit" = true ->
     In (GitCommit (form_commitmsg data)) evs) /\
    (modtype (session w') = modtype (session w) \/
     file_kind (modtype (session w'))).
Proof.
  intros Hrun. unfold gtcheckedit, gtcheckedit_finish in Hrun.
  apply bind_inv in Hrun as (difflen_ & w1 & Hd & Hrun).
  apply read_inv in Hd as [-> ->].
  apply bind_inv in Hrun as (skip_ & w1 & Hs & Hrun).
  apply read_inv in Hs as [-> ->].
  destruct (difflen (session w) - skip (session w) =? 0).
  - peel Hrun.
    apply gtcheck_gtcheck_step in Hrun as [(evs & Ht & Hc) Hm].
    exec; rewrite Ht; world_simpl; rewrite <- ?app_assoc;
      eexists; (split; [reflexivity|]);
      rewrite ?commits_app, ?Hc; cbn [commits app Nat.add];
      (split; [reflexivity|]);
      (split; [intros He; try discriminate; try (left; reflexivity)
              |exact Hm]).
  - unfold gtcheckedit_decision, gtcheckedit_undo, write_if_changed,
      dump_reservation in Hrun.
    peel Hrun.
    apply gtcheck_gtcheck_step in Hrun as [(evs & Ht & Hc) Hm].
    exec_calls; rewrite Ht; world_simpl; rewrite <- ?app_assoc;
      eexists; (split; [reflexivity|]);
      rewrite ?commits_app, ?Hc; cbn [commits app Nat.add];
      (split; [reflexivity|]);
      (split; [intros He; try discriminate;
               repeat (apply in_or_app; right); cbn [app];
               repeat first [left; reflexivity | right]
              |exact Hm]).
Qed.


(** The message [gtcheck] proposes for a file. *)
Lemma gtcheck_present_commitmsg (reponame name email diffhead : string)
  (idx nc : Z) (filename : option string) (item : DiffItem)
  (origtext difftext : string) (w w' : World) (page : FilePage) :
  gtcheck_present env reponame name email diffhead idx nc filename item
    origtext difftext w = Ok (Return (PageFile page), w') ->
  pg_commitmsg page =
    if truthy diffhead
    then staged_commitmsg (PyStr.str_of_int (difflen (session w)))
    else file_commitmsg item (modifications difftext).
Proof.
  intros Hrun. unfold gtcheck_present in Hrun.
  exec_calls; try discriminate;
    match goal with
    | H : Return _ = Return _ |- _ => inversion H; subst; clear H
    end; reflexivity.
Qed.

(** What a page of a file tells about the session it leaves. *)
Lemma gtcheck_present_shown (reponame name email diffhead : string)
  (idx nc : Z) (filename : option string) (item : DiffItem)
  (origtext difftext : string) (w w' : World) (page : FilePage) :
  gtcheck_present env reponame name email diffhead idx nc filename item
    origtext difftext w = Ok (Return (PageFile page), w') ->
  pg_origtext page = origtext /\
  fpath (session w') = Some (a_path item) /\
  folder (session w') = folder (session w) /\
  difflen (session w') = difflen (session w).
Proof.
  intros Hrun. unfold gtcheck_present in Hrun.
  exec_calls; try discriminate;
    match goal with
    | H : Return _ = Return _ |- _ => inversion H; subst; clear H
    end; repeat split; reflexivity.
Qed.

Lemma gtcheck_file_message (reponame name email diffhead : string)
  (idx nc : Z) (filename : option string) (w w' : World) (page : FilePage) :
  gtcheck_file env reponame name email diffhead idx nc filename w
    = Ok (Return (PageFile page), w') ->
  proposed_message env diffhead page w'.
Proof.
  intros Hrun. unfold gtcheck_file in Hrun.
  apply bind_inv in Hrun as (item & w1 & Hitem & Hrun).
  pose proof (find_item_frame env _ _ _ _ Hitem) as Hw. subst w1.
  assert (Hpresent :
            forall w0 : World,
              folder (session w0) = folder (session w) ->
              trace w0 = trace w ->
              (origtext <- lift (blob_text (a_blob item)) ;;
               folder_ <- read folder ;;
               difftext <- get_difftext env (PyStr.lstrip_blank origtext)
                             item folder_ ;;
               gtcheck_present env reponame name email diffhead idx nc
                 filename item (PyStr.lstrip_blank origtext) difftext) w0
              = Ok (Return (PageFile page), w') ->
              proposed_message env diffhead page w').
  { intros w0 Hfolder Htrace Hgo.
    apply bind_inv in Hgo as (o & w1 & Horig & Hgo).
    apply lift_inv in Horig as [_ ->].
    apply bind_inv in Hgo as (folder_ & w1 & Hf & Hgo).
    apply read_inv in Hf as [-> ->].
    apply bind_inv in Hgo as (difftext & w1 & Hdiff & Hgo).
    pose proof (gtcheck_present_commitmsg _ _ _ _ _ _ _ _ _ _ _ _ _ Hgo)
      as Hmsg.
    pose proof (gtcheck_present_shown _ _ _ _ _ _ _ _ _ _ _ _ _ Hgo)
      as (Ho & Hp & Hfo & Hd).
    destruct (gtcheck_present_step env _ _ _ _ _ _ _ _ _ _ _ _ _ Hgo)
      as [(later & Hlater & _) _].
    pose proof (get_difftext_frame env _ _ _ _ _ _ Hdiff) as (lg & Hw1).
    assert (Hfo' : folder (session w') = folder (session w0))
      by (rewrite Hfo, Hw1; reflexivity).
    assert (Htr : trace w1 = trace w)
      by (rewrite Hw1; exact Htrace).
    unfold proposed_message. destruct (truthy diffhead).
    - rewrite Hmsg, Hd. reflexivity.
    - exists filename, item, difftext, w, w0, w1, later.
      rewrite Ho, Hfo', <- Htr. repeat split; try assumption.
      rewrite Htr. exact Htrace. }
  destruct (a_blob item) eqn:Ha; [|destruct (b_blob item) eqn:Hb].
  3: { exec_calls; discriminate. }
  all: apply bind_inv in Hrun as (u & w1 & Hassign & Hrun);
    apply assign_inv in Hassign; subst w1;
    apply (Hpresent
             (mkWorld (set_modtype "mod" (session w)) (trace w) (log w))
             eq_refl eq_refl Hrun).
Qed.

Lemma gtcheck_loop_message (reponame name email diffhead : string)
  (l : list (option string)) :
  forall (idx nc : Z) (w w' : World) (page : FilePage),
    gtcheck_loop env reponame name email diffhead idx nc l w
      = Ok (Some (PageFile page), w') ->
    proposed_message env diffhead page w'.
Proof.
  induction l as [|filename rest IH]; intros idx nc w w' page Hrun.
  - simpl in Hrun. exec. discriminate.
  - cbn [gtcheck_loop] in Hrun.
    apply bind_inv in Hrun as (step & w1 & Hstep & Hrun).
    destruct step as [nc'|page'].
    + eapply IH. exact Hrun.
    + apply ret_inv in Hrun as [Hpage ->]. inversion Hpage. subst page'.
      eapply gtcheck_file_message. exact Hstep.
Qed.

(** The message of the page of a file follows the count of staged
    changes that the call of [gtcheck] which returns the page has asked
    for. *)
Lemma gtcheck_message (fuel : nat) :
  forall (reponame : string) (w w' : World) (page : FilePage),
    gtcheck env fuel reponame w = Ok (PageFile page, w') ->
    exists evs rest out diffhead,
      trace w' = trace w ++ evs ++ rest /\
      diff_cached_shortstat env (trace w ++ evs) = Ok out /\
      PyList.item (PyStr.split " " (PyStr.strip out)) 0 = Ok diffhead /\
      proposed_message env diffhead page w'.
Proof.
  induction fuel as [|fuel IH]; intros reponame w w' page Hrun;
    [discriminate|].
  cbn [gtcheck] in Hrun.
  apply bind_inv in Hrun as (name & w1 & Hname & Hrun).
  apply ask_inv in Hname as [_ ->].
  apply bind_inv in Hrun as (email & w1 & Hemail & Hrun).
  apply ask_inv in Hemail as [_ ->].
  apply bind_inv in Hrun as (out & w1 & Hout & Hrun).
  apply ask_inv in Hout as [Hout ->].
  apply bind_inv in Hrun as (diffhead & w1 & Hhead & Hrun).
  apply lift_inv in Hhead as [Hhead ->].
  apply bind_inv in Hrun as (u & w1 & Hreb & Hrun).
  apply gtcheck_rebuild_step in Hreb.
  apply bind_inv in Hrun as (l & w2 & Hl & Hrun).
  apply read_inv in Hl as [-> ->].
  apply bind_inv in Hrun as (skip_ & w2 & Hs & Hrun).
  apply read_inv in Hs as [-> ->].
  apply bind_inv in Hrun as (result & w2 & Hloop & Hrun).
  pose proof (gtcheck_loop_step _ _ _ _ _ _ _ _ _ _ _ Hloop) as Hlstep.
  destruct (gtcheck_step_trans _ _ _ Hreb Hlstep) as [(sofar & Ht & _) _].
  destruct result as [page'|].
  - apply ret_inv in Hrun as [Hpage ->]. subst page'.
    exists [], sofar, out, diffhead. rewrite app_nil_r.
    repeat split; try assumption.
    eapply gtcheck_loop_message. exact Hloop.
  - destruct (truthy diffhead).
    + exec. discriminate.
    + apply bind_inv in Hrun as (l & w3 & Hl & Hrun).
      apply read_inv in Hl as [-> ->].
      destruct (difflist (session w2)).
      * exec. discriminate.
      * apply bind_inv in Hrun as (u' & w3 & Hskip & Hrun).
        apply assign_inv in Hskip. subst w3.
        apply IH in Hrun as (evs & rest & out' & diffhead' & Ht' & Ho' & Hh' & Hm).
        cbn [trace] in Ht', Ho'. rewrite Ht in Ht', Ho'.
        exists (sofar ++ evs), rest, out', diffhead'.
        rewrite <- !app_assoc in *. repeat split; assumption.
Qed.

End Decisions.

(** ** The claims about the review session *)

(** C1 (as the code has it): every [commit] decision that returns a page
    has made exactly one call of the repository commit, with the message
    submitted, whether or not other changed files remain; a decision that
    is not [commit] makes none.  The message [gtcheck] proposes with the
    page of a file follows the count of staged changes that the call which
    returns the page has asked the repository for: it is the count of the
    files left when something is staged, and the path of the file with
    the modifications of its diff text otherwise. *)
Theorem gtcheckedit_commit_decision_commits :
  forall (env : Env) (fuel : nat) (reponame : string) (data : Form)
         (w w' : World) (page : Page),
    gtcheckedit env fuel reponame data w = Ok (page, w') ->
    (form_selection data = "commit" ->
     commits (trace w') = S (commits (trace w)) /\
     In (GitCommit (form_commitmsg data)) (trace w')) /\
    (form_selection data <> "commit" ->
     commits (trace w') = commits (trace w)) /\
    (forall fuel0 reponame0 w0 w1 shown,
       gtcheck env fuel0 reponame0 w0 = Ok (PageFile shown, w1) ->
       exists evs rest out diffhead,
         trace w1 = trace w0 ++ evs ++ rest /\
         diff_cached_shortstat env (trace w0 ++ evs) = Ok out /\
         PyList.item (PyStr.split " " (PyStr.strip out)) 0 = Ok diffhead /\
         proposed_message env diffhead shown w1).
Proof.
  intros env fuel reponame data w w' page Hrun.
  destruct (gtcheckedit_calls env fuel reponame data w w' page Hrun)
    as (evs & Ht & Hc & Hin & _).
  split; [|split].
  - intros Hsel. apply String.eqb_eq in Hsel. rewrite Hsel in Hc.
    rewrite Ht, commits_app, Hc. split; [lia|].
    apply in_or_app. right. apply Hin. exact Hsel.
  - intros Hsel. apply String.eqb_neq in Hsel. rewrite Hsel in Hc.
    rewrite Ht, commits_app, Hc. lia.
  - intros fuel0 reponame0 w0 w1 shown Hpage.
    eapply gtcheck_message. exact Hpage.
Qed.

Lemma gtcheckedit_commit_decision_commits_witness :
  commits (trace Demo.w_committed) = S (commits (trace Demo.w_first)) /\
  In (GitCommit "msg") (trace Demo.w_committed).
Proof.
  assert (Hrun : exists page,
             gtcheckedit Demo.review_env 5 "book" (Demo.form "commit" None)
               Demo.w_first = Ok (page, Demo.w_committed))
    by (eexists; vm_compute; reflexivity).
  destruct Hrun as (page & Hrun).
  apply (gtcheckedit_commit_decision_commits Demo.review_env 5 "book"
           (Demo.form "commit" None) Demo.w_first Demo.w_committed page Hrun).
  reflexivity.
Defined.

(** C1 (as the claim states it) fails: with four changed files in the
    queue and four left, the [commit] decision on the first one calls the
    repository commit, and three files are still left afterwards. *)
Lemma commit_decision_with_files_left_commits :
  difflen (session Demo.w_first) - skip (session Demo.w_first) = 4 /\
  difflist (session Demo.w_first) =
    [Some "a.gt.txt"; Some "c.gt.txt"; Some "d.gt.txt"; Some "e.gt.txt"] /\
  match gtcheckedit Demo.review_env 5 "book" (Demo.form "commit" None)
          Demo.w_first with
  | Ok (_, w') =>
      commits (trace Demo.w_first) = O /\
      commits (trace w') = 1%nat /\
      In (GitCommit "msg") (trace w') /\
      difflen (session w') - skip (session w') = 3
  | Raise _ => False
  end.
Proof.
  vm_compute. repeat split; try reflexivity.
  do 5 right. left. reflexivity.
Qed.

(** C2: in every world of a review (after [gtcheckinit] and any sequence
    of [skip], [commit], [stash] and [add] decisions) the cursor [skip] is
    at most the length of the queue and [difflen - skip] is not negative.
    The queue is reset where the cursor would exceed it: on entry of
    [gtcheck], lines 153 to 159 replace a queue the cursor has reached the
    end of by the queue built from the repository, or by [skip] empty
    places when that one is too short, and leave the cursor within the
    queue. *)
Theorem review_queue_invariant :
  forall (env : Env) (w : World),
    reachable w ->
    skip (session w) <= Z.of_nat (length (difflist (session w))) /\
    0 <= difflen (session w) - skip (session w) /\
    (forall w0 u w1,
       0 <= skip (session w0) ->
       gtcheck_rebuild env w0 = Ok (u, w1) ->
       skip (session w1) = skip (session w0) /\
       skip (session w1) <= Z.of_nat (length (difflist (session w1))) /\
       (Z.of_nat (length (difflist (session w0))) <= skip (session w0) ->
        exists items,
          index_diff env (trace w0) None false = Ok items /\
          difflist (session w1) = rebuilt_queue items (skip (session w0)))).
Proof.
  intros env w Hreach.
  pose proof (reachable_queue_page w Hreach) as Hq.
  unfold queue_page, queue_length in Hq.
  split; [lia|]. split; [lia|].
  intros w0 u w1 Hskip Hreb.
  apply (gtcheck_rebuild_resets env u w0 w1 Hskip Hreb).
Qed.

Lemma review_queue_invariant_witness :
  skip (session Demo.w_staged)
    <= Z.of_nat (length (difflist (session Demo.w_staged))) /\
  0 <= difflen (session Demo.w_staged) - skip (session Demo.w_staged).
Proof.
  assert (Hreach : reachable Demo.w_staged);
    [|destruct (review_queue_invariant Demo.review_env Demo.w_staged Hreach)
        as (Hskip & Hleft & _); split; assumption].
  apply (reach_edit Demo.review_env 5 "book" (Demo.form "add" None)
           Demo.w_stashed (Demo.page_of Demo.r_staged));
    [|vm_compute; reflexivity].
  apply (reach_edit Demo.review_env 5 "book" (Demo.form "stash" None)
           Demo.w_skipped (Demo.page_of Demo.r_stashed));
    [|vm_compute; reflexivity].
  apply (reach_edit Demo.review_env 5 "book" (Demo.form "skip" None)
           Demo.w_committed (Demo.page_of Demo.r_skipped));
    [|vm_compute; reflexivity].
  apply (reach_edit Demo.review_env 5 "book" (Demo.form "commit" None)
           Demo.w_first (Demo.page_of Demo.r_committed));
    [|vm_compute; reflexivity].
  apply (reach_init Demo.review_env 5 "book" Demo.repo_folder
           Demo.reservation [] [] (Demo.page_of Demo.r_first)).
  vm_compute. reflexivity.
Defined.




(** In every world of a review the kind of modification is absent or the
    kind of a file. *)
Lemma reachable_modtype (w : World) :
  reachable w ->
  modtype (session w) = None \/ file_kind (modtype (session w)).
Proof.
  induction 1 as [env fuel reponame folder_ rf tr lg page w Hrun
                 |env fuel reponame data w page w' Hreach IH Hrun].
  - apply gtcheck_gtcheck_step in Hrun as [_ [Hm|Hm]];
      [left; rewrite Hm; reflexivity|right; exact Hm].
  - apply gtcheckedit_calls in Hrun as (_ & _ & _ & _ & [Hm|Hm]);
      [rewrite Hm; exact IH|right; exact Hm].
Qed.

(** C9: [mergetext] is the empty list where the loop of [gtcheck] tests
    it, so a run of [gtcheck] leaves the kind of modification as it was or
    sets it to ["mod"], ["new"] or ["del"], never to ["merge"]; in every
    world of a review the kind is absent or one of these three, and so is
    not ["merge"]. *)
Theorem gtcheck_never_sets_merge :
  (forall (env : Env) fuel reponame w page w',
     gtcheck env fuel reponame w = Ok (page, w') ->
     modtype (session w') = modtype (session w) \/
     file_kind (modtype (session w'))) /\
  (forall w,
     reachable w ->
     (modtype (session w) = None \/ file_kind (modtype (session w))) /\
     modtype (session w) <> Some "merge").
Proof.
  split.
  - intros env fuel reponame w page w' Hrun.
    apply gtcheck_gtcheck_step in Hrun as [_ Hm]. exact Hm.
  - intros w Hreach. pose proof (reachable_modtype w Hreach) as Hm.
    split; [exact Hm|].
    destruct Hm as [Hm|[Hm|[Hm|Hm]]]; rewrite Hm; discriminate.
Qed.

Lemma gtcheck_never_sets_merge_witness :
  modtype (session Demo.w_first) = Some "mod" /\
  modtype (session Demo.w_first) <> Some "merge".
Proof.
  destruct gtcheck_never_sets_merge as [_ Hreach].
  split; [reflexivity|].
  apply (Hreach Demo.w_first).
  apply (reach_init Demo.review_env 5 "book" Demo.repo_folder
           Demo.reservation [] [] (Demo.page_of Demo.r_first)).
  vm_compute. reflexivity.
Defined.

(** ** Diff extraction and clean copies *)

Section Extraction.

Variable env : Env.




End Extraction.




(** C6 (the code at a clean copy): a review that [gtcheckinit] has
    started, on a repository whose one changed file has a working text
    that is its original text.  The session holds neither toggle, and the
    first request raises [KeyError] where line 189 reads
    [session['skipcc']], whatever the depth of calls allowed: the file is
    not passed over, no page is returned and the cursor does not move. *)
Theorem clean_copy_raises_KeyError :
  Demo.start
    = mkWorld (gtcheckinit_session Demo.repo_folder Demo.reservation) [] [] /\
  skipcc (session Demo.start) = None /\
  addcc (session Demo.start) = None /\
  index_diff Demo.clean_env [] None false = Ok [Demo.item_b] /\
  blob_text (a_blob Demo.item_b) = Ok "same" /\
  read_text Demo.clean_env [] (joinpath Demo.repo_folder "b.gt.txt")
    = Ok "same" /\
  forall fuel : nat,
    gtcheck Demo.clean_env (S fuel) "book" Demo.start = Raise KeyError.
Proof.
  do 6 (split; [reflexivity|]).
  intros fuel. vm_compute. reflexivity.
Qed.
(** ** Further properties of the modification parser *)

Section ParserMore.

Implicit Types (mods : list ModUnit) (m : Match) (ms : list Match)
  (t rest : string) (segs : list Seg).

Lemma append_nil_r t : (t ++ "")%string = t.
Proof. induction t as [|c t IH]; simpl; [|rewrite IH]; reflexivity. Qed.

Lemma join_empty_snoc (l : list string) (x : string) :
  PyStr.join "" (l ++ [x]) = (PyStr.join "" l ++ x)%string.
Proof.
  induction l as [|a l IH]; [reflexivity|].
  destruct l as [|b l]; [reflexivity|].
  change (PyStr.join "" ((a :: b :: l) ++ [x]))
    with (a ++ "" ++ PyStr.join "" ((b :: l) ++ [x]))%string.
  rewrite IH.
  change (PyStr.join "" (a :: b :: l))
    with (a ++ "" ++ PyStr.join "" (b :: l))%string.
  cbn [append]. rewrite append_assoc. reflexivity.
Qed.

Lemma match_here_one_group (s : string) (g2 g3 : option string) (len : nat) :
  Regex.match_here s = Some (g2, g3, len) ->
  (exists t, g2 = Some t /\ g3 = None) \/ (exists t, g2 = None /\ g3 = Some t).
Proof.
  unfold Regex.match_here. intros H.
  destruct (prefix "[-" s).
  - destruct (Regex.lazy_until "-]" (PyStr.drop 2 s)) as [t|].
    + inversion H. left. exists t. split; reflexivity.
    + destruct (prefix "{+" s); [|discriminate].
      destruct (Regex.lazy_until "+}" (PyStr.drop 2 s)) as [t|]; [|discriminate].
      inversion H. right. exists t. split; reflexivity.
  - destruct (prefix "{+" s); [|discriminate].
    destruct (Regex.lazy_until "+}" (PyStr.drop 2 s)) as [t|]; [|discriminate].
    inversion H. right. exists t. split; reflexivity.
Qed.

Lemma finditer_one_group (s : string) : forall pos k,
  Forall one_group (Regex.finditer_from pos k s).
Proof.
  induction s as [|c s IH]; intros pos k; [constructor|].
  cbn [Regex.finditer_from]. destruct k as [|k]; [|apply IH].
  destruct (Regex.match_here (String c s)) as [[[g2 g3] len]|] eqn:Hm;
    [|apply IH].
  constructor; [|apply IH].
  apply match_here_one_group in Hm. exact Hm.
Qed.

(** A step adds the text of the marker it reads to the texts of the
    units, on the side of the marker. *)
Lemma step_texts mods (pos : nat) m :
  one_group m ->
  PyStr.join "" (map fst (fst (modifications_step (mods, pos) m))) =
    (PyStr.join "" (map fst mods) ++ or_empty (m_sub m))%string /\
  PyStr.join "" (map snd (fst (modifications_step (mods, pos) m))) =
    (PyStr.join "" (map snd mods) ++ or_empty (m_add m))%string.
Proof.
  intros Hone.
  assert (Happend :
            PyStr.join "" (map fst (mods ++ [(or_empty (m_sub m), or_empty (m_add m))])) =
              (PyStr.join "" (map fst mods) ++ or_empty (m_sub m))%string /\
            PyStr.join "" (map snd (mods ++ [(or_empty (m_sub m), or_empty (m_add m))])) =
              (PyStr.join "" (map snd mods) ++ or_empty (m_add m))%string).
  { rewrite !map_app. cbn [map fst snd]. rewrite !join_empty_snoc.
    split; reflexivity. }
  unfold modifications_step.
  destruct (negb (or_empty (m_add m) =? "")%string
            && (0 <? length mods)%nat && (pos =? m_start m)%nat) eqn:Hc;
    [|exact Happend].
  destruct (last_add mods =? "")%string eqn:Hlast; [|exact Happend].
  cbn [fst].
  apply andb_prop in Hc as [Hc _]. apply andb_prop in Hc as [Hadd Hlen].
  apply negb_true_iff, String.eqb_neq in Hadd.
  apply String.eqb_eq in Hlast.
  assert (Hsub : or_empty (m_sub m) = EmptyString).
  { destruct Hone as [(t & Hs & Ha)|(t & Hs & Ha)].
    - rewrite Ha in Hadd. contradiction Hadd. reflexivity.
    - rewrite Hs. reflexivity. }
  rewrite Hsub, append_nil_r.
  destruct mods as [|u before _] using rev_ind; [discriminate Hlen|].
  rewrite last_add_snoc in Hlast. rewrite set_last_add_snoc.
  rewrite !map_app. cbn [map fst snd]. rewrite !join_empty_snoc, Hlast.
  rewrite append_nil_r. split; reflexivity.
Qed.

Lemma run_texts ms : forall mods (pos : nat),
  Forall one_group ms ->
  PyStr.join "" (map fst (fst (fold_left modifications_step ms (mods, pos)))) =
    (PyStr.join "" (map fst mods) ++ deleted_text ms)%string /\
  PyStr.join "" (map snd (fst (fold_left modifications_step ms (mods, pos)))) =
    (PyStr.join "" (map snd mods) ++ inserted_text ms)%string.
Proof.
  unfold deleted_text, inserted_text.
  induction ms as [|m ms IH]; intros mods pos Hone.
  - cbn [fold_left map fst PyStr.join]. rewrite !append_nil_r.
    split; reflexivity.
  - inversion Hone as [|? ? Hm Hrest]; subst.
    cbn [fold_left].
    destruct (step_texts mods pos m Hm) as [Hf Hs].
    destruct (modifications_step (mods, pos) m) as [mods' pos'].
    cbn [fst] in Hf, Hs.
    destruct (IH mods' pos' Hrest) as [IHf IHs].
    rewrite IHf, IHs, Hf, Hs, !append_assoc.
    assert (Hcons : forall (x : string) (l : list string),
               PyStr.join "" (x :: l) = (x ++ PyStr.join "" l)%string).
    { intros x [|y l]; [cbn [PyStr.join]; rewrite append_nil_r; reflexivity|].
      reflexivity. }
    cbn [map]. rewrite !Hcons. split; reflexivity.
Qed.

(** A step adds at most one unit, and two steps in a row add at least
    one: a unit is filled only while its replacement side is empty. *)
Lemma step_count mods (pos : nat) m (n : nat) :
  (length mods <= n)%nat ->
  (n + open_units mods <= 2 * length mods)%nat ->
  (length (fst (modifications_step (mods, pos) m)) <= S n)%nat /\
  (S n + open_units (fst (modifications_step (mods, pos) m))
   <= 2 * length (fst (modifications_step (mods, pos) m)))%nat.
Proof.
  intros Hle Hge.
  assert (Hpend : forall l : list ModUnit, (open_units l <= 1)%nat).
  { intros [|u l]; cbn [open_units]; [lia|].
    destruct (last_add (u :: l) =? "")%string; lia. }
  assert (Happend : forall u : ModUnit,
             (length (mods ++ [u]) <= S n)%nat /\
             (S n + open_units (mods ++ [u]) <= 2 * length (mods ++ [u]))%nat).
  { intros u. rewrite length_app. cbn [length].
    pose proof (Hpend (mods ++ [u])). pose proof (Hpend mods). lia. }
  unfold modifications_step.
  destruct (negb (or_empty (m_add m) =? "")%string
            && (0 <? length mods)%nat && (pos =? m_start m)%nat) eqn:Hc;
    [|apply Happend].
  destruct (last_add mods =? "")%string eqn:Hlast; [|apply Happend].
  cbn [fst].
  apply andb_prop in Hc as [Hc _]. apply andb_prop in Hc as [Hadd Hlen].
  apply negb_true_iff in Hadd.
  destruct mods as [|u before _] using rev_ind.
  - discriminate Hlen.
  - rewrite set_last_add_snoc.
    assert (Hopen : open_units (before ++ [u]) = 1%nat).
    { destruct (before ++ [u]) eqn:Hl.
      - apply app_eq_nil in Hl as [_ Hl]. discriminate.
      - cbn [open_units]. rewrite Hlast. reflexivity. }
    assert (Hclosed : open_units (before ++ [(fst u, or_empty (m_add m))]) = O).
    { destruct (before ++ [(fst u, or_empty (m_add m))]) eqn:Hl.
      - reflexivity.
      - cbn [open_units]. rewrite <- Hl, last_add_snoc. cbn [snd].
        rewrite Hadd. reflexivity. }
    rewrite Hclosed. rewrite Hopen in Hge.
    rewrite !length_app in *. cbn [length] in *. lia.
Qed.

Lemma run_count ms : forall mods (pos : nat) (n : nat),
  (length mods <= n)%nat ->
  (n + open_units mods <= 2 * length mods)%nat ->
  (length (fst (fold_left modifications_step ms (mods, pos)))
   <= n + length ms)%nat /\
  (n + length ms
   <= 2 * length (fst (fold_left modifications_step ms (mods, pos))))%nat.
Proof.
  induction ms as [|m ms IH]; intros mods pos n Hle Hge.
  - cbn [fold_left fst length]. lia.
  - cbn [fold_left length].
    destruct (step_count mods pos m n Hle Hge) as [Hle' Hge'].
    destruct (modifications_step (mods, pos) m) as [mods' pos'].
    cbn [fst] in Hle', Hge'.
    destruct (IH mods' pos' (S n) Hle' Hge') as [H1 H2]. lia.
Qed.

(** The scan of a marker, after which the scan goes on behind it. *)
Lemma finditer_marker (o c t tail : string) (g2 g3 : option string)
  (pos : nat) :
  String.length o = 2%nat -> String.length c = 2%nat ->
  Regex.match_here (o ++ t ++ c ++ tail)
    = Some (g2, g3, (String.length t + 4)%nat) ->
  Regex.finditer_from pos 0 (o ++ t ++ c ++ tail) =
  mkMatch pos (pos + (String.length t + 4)) g2 g3
    :: Regex.finditer_from (pos + (String.length t + 4)) 0 tail.
Proof.
  intros Ho Hc Hm.
  destruct o as [|o1 [|o2 [|? ?]]]; try discriminate.
  cbn [append] in *. rewrite (finditer_from_match _ _ _ _ _ _ Hm). f_equal.
  replace (Nat.pred (String.length t + 4))
    with (String.length (String o2 (t ++ c)))
    by (cbn [String.length]; rewrite length_append, Hc; lia).
  rewrite <- (append_assoc t c tail).
  change (String o2 ((t ++ c) ++ tail))
    with ((String o2 (t ++ c)) ++ tail)%string.
  rewrite finditer_pass. f_equal.
  cbn [String.length]. rewrite length_append, Hc. lia.
Qed.

(** The scan of a sequence of segments, followed by any text. *)
Lemma finditer_segments segs rest : forall pos,
  forallb well_formed segs = true ->
  Regex.finditer_from pos 0 (diff_text segs ++ rest) =
  seg_matches pos segs
    ++ Regex.finditer_from (pos + String.length (diff_text segs)) 0 rest.
Proof.
  unfold diff_text.
  induction segs as [|g segs IH]; intros pos Hwf.
  - cbn [render append seg_matches app String.length].
    rewrite Nat.add_0_r. reflexivity.
  - cbn [forallb] in Hwf. apply andb_prop in Hwf as [Hg Hwf].
    cbn [render]. rewrite append_assoc, length_append.
    destruct g as [t|t|t]; cbn [well_formed] in Hg;
      apply andb_prop in Hg as [H1 H2]; cbn [seg_render seg_matches].
    + rewrite finditer_skip_plain by assumption.
      rewrite IH by exact Hwf. rewrite Nat.add_assoc. reflexivity.
    + rewrite !append_assoc.
      rewrite (finditer_marker "{+" "+}" t _ None (Some t) pos eq_refl eq_refl)
        by (apply match_here_insertion; assumption).
      rewrite IH by exact Hwf. cbn [app]. do 2 f_equal.
      rewrite !length_append. cbn [String.length]. f_equal. lia.
    + rewrite !append_assoc.
      rewrite (finditer_marker "[-" "-]" t _ (Some t) None pos eq_refl eq_refl)
        by (apply match_here_deletion; assumption).
      rewrite IH by exact Hwf. cbn [app]. do 2 f_equal.
      rewrite !length_append. cbn [String.length]. f_equal. lia.
Qed.

(** A deletion marker and a later insertion marker that does not start
    where the deletion ends give two units. *)
Lemma separate_pair (after : list Match) (del ins : Match)
  (deleted inserted : string) :
  m_sub del = Some deleted -> m_add del = None ->
  m_sub ins = None -> m_add ins = Some inserted ->
  m_end del <> m_start ins ->
  inserted <> EmptyString ->
  modifications_of (del :: ins :: after) =
  (deleted, EmptyString) :: (EmptyString, inserted) :: modifications_of after.
Proof.
  intros Hdsub Hdadd Hisub Hiadd Hsep Hne.
  unfold modifications_of at 1. cbn [fold_left].
  assert (Hdel : modifications_step ([], 1%nat) del =
                 ([(deleted, EmptyString)], m_end del)).
  { unfold modifications_step. rewrite Hdsub, Hdadd. reflexivity. }
  rewrite Hdel.
  assert (Hins : modifications_step ([(deleted, EmptyString)], m_end del) ins =
                 ([(deleted, EmptyString); (EmptyString, inserted)], m_end ins)).
  { unfold modifications_step. rewrite Hisub, Hiadd. cbn [or_empty].
    apply Nat.eqb_neq in Hsep. rewrite Hsep, andb_false_r. reflexivity. }
  rewrite Hins, run_after_closed; [reflexivity|].
  right. cbn. exact Hne.
Qed.

End ParserMore.

(** X1: the scan reads a well-formed diff text back: on the text of a
    sequence of segments (untouched text that holds no [[] and no [{],
    markers whose text holds no line break and no closing bracket of
    their kind) it finds exactly the markers of the sequence, in their
    order, each with its text and its place in the text. *)
Theorem finditer_reads_markers_back :
  forall segs : list Seg,
    forallb well_formed segs = true ->
    Regex.finditer (diff_text segs) = seg_matches 0 segs.
Proof.
  intros segs Hwf. unfold Regex.finditer.
  pose proof (finditer_segments segs EmptyString 0%nat Hwf) as Hscan.
  rewrite append_nil_r in Hscan. rewrite Hscan.
  cbn [Regex.finditer_from]. apply app_nil_r.
Qed.

Lemma finditer_reads_markers_back_witness :
  Regex.finditer "H[-te-]{+at+} was" =
  [mkMatch 1 7 (Some "te") None; mkMatch 7 13 None (Some "at")].
Proof.
  apply (finditer_reads_markers_back
           [Plain "H"; Del "te"; Ins "at"; Plain " was"]).
  reflexivity.
Defined.

(** X2: a deletion marker and an insertion marker with some text, with
    untouched text [between] them, give one unit when [between] is empty
    and two units otherwise; the parser then goes on as on the rest of
    the text alone. *)
Theorem modifications_merges_only_contiguous_markers :
  forall before deleted between inserted rest : string,
    lacks "[" before = true -> lacks "{" before = true ->
    lacks PyStr.newline deleted = true -> lacks "]" deleted = true ->
    lacks "[" between = true -> lacks "{" between = true ->
    lacks PyStr.newline inserted = true -> lacks "}" inserted = true ->
    inserted <> EmptyString ->
    modifications
      (before ++ ("[-" ++ deleted ++ "-]") ++ between
       ++ ("{+" ++ inserted ++ "+}") ++ rest) =
    (if String.eqb between EmptyString
     then [(deleted, inserted)]
     else [(deleted, EmptyString); (EmptyString, inserted)])
    ++ modifications rest.
Proof.
  intros before deleted between inserted rest
    Hb1 Hb2 Hdn Hdc Hm1 Hm2 Hin Hic Hne.
  destruct (String.eqb_spec between EmptyString) as [->|Hbetween].
  - cbn [append app].
    apply modifications_adjacent_markers; assumption.
  - unfold modifications, Regex.finditer.
    pose proof (finditer_segments
                  [Plain before; Del deleted; Plain between; Ins inserted]
                  rest 0%nat) as Hscan.
    unfold diff_text in Hscan.
    cbn [render seg_render forallb well_formed seg_matches app] in Hscan.
    rewrite Hb1, Hb2, Hdn, Hdc, Hm1, Hm2, Hin, Hic in Hscan.
    specialize (Hscan eq_refl).
    rewrite !append_assoc in Hscan. rewrite !append_assoc.
    cbn [append] in Hscan |- *. rewrite Hscan.
    match goal with
    | |- modifications_of (?del :: ?ins :: ?after) = _ =>
        rewrite (separate_pair after del ins deleted inserted eq_refl eq_refl
                   eq_refl eq_refl); [|cbn [m_start m_end]|exact Hne]
    end.
    + cbn [app Nat.add]. do 2 f_equal.
      match goal with
      | |- modifications_of (Regex.finditer_from ?n 0 rest) = _ =>
          pose proof (finditer_from_shift n rest 0 0) as Hshift
      end.
      cbn [Nat.add] in Hshift. rewrite Hshift. apply modifications_of_shift.
    + destruct between as [|c between]; [contradiction Hbetween; reflexivity|].
      cbn [String.length]. lia.
Qed.

Lemma modifications_merges_only_contiguous_markers_witness :
  modifications "a[-x-]{+y+}b" = [("x", "y")] /\
  modifications "a[-x-] {+y+}b" = [("x", EmptyString); (EmptyString, "y")].
Proof.
  split.
  - apply (modifications_merges_only_contiguous_markers
             "a" "x" EmptyString "y" "b"); try reflexivity. discriminate.
  - apply (modifications_merges_only_contiguous_markers
             "a" "x" " " "y" "b"); try reflexivity. discriminate.
Defined.

(** X3: the parser loses and reorders nothing: the original sides of the
    units, put together in their order, are the texts of the deletion
    markers of the diff text in their order, and the replacement sides
    are the texts of the insertion markers. *)
Theorem modifications_keeps_marker_texts :
  forall difftext : string,
    PyStr.join "" (map fst (modifications difftext)) =
      deleted_text (Regex.finditer difftext) /\
    PyStr.join "" (map snd (modifications difftext)) =
      inserted_text (Regex.finditer difftext).
Proof.
  intros difftext. unfold modifications, modifications_of.
  apply (run_texts (Regex.finditer difftext) [] 1%nat).
  apply finditer_one_group.
Qed.

(** X4: the parser returns at most one unit for each marker and at least
    one unit for every two markers. *)
Theorem modifications_unit_count :
  forall difftext : string,
    (length (modifications difftext) <= length (Regex.finditer difftext))%nat /\
    (length (Regex.finditer difftext)
     <= 2 * length (modifications difftext))%nat.
Proof.
  intros difftext. unfold modifications, modifications_of.
  apply (run_count (Regex.finditer difftext) [] 1%nat 0%nat);
    cbn [length open_units]; lia.
Qed.
(** ** Further properties of the diff renderer *)

Section RendererMore.

Implicit Types (c : ascii) (t s rest new : string).

Lemma contains_cons pat c s :
  PyStr.contains pat (String c s) = prefix pat (String c s) || PyStr.contains pat s.
Proof. cbn [PyStr.contains]. destruct (prefix pat (String c s)); reflexivity. Qed.

Lemma contains_nil c1 c2 : PyStr.contains (two c1 c2) EmptyString = false.
Proof. reflexivity. Qed.

(** A text without an occurrence of the pattern is left as it is. *)
Lemma replace_absent (old new s : string) :
  PyStr.contains old s = false -> PyStr.replace old new s = s.
Proof.
  unfold PyStr.replace. induction s as [|c s IH]; intros H; [reflexivity|].
  rewrite contains_cons in H. apply orb_false_elim in H as [Hp Hc].
  cbn [PyStr.replace_from]. rewrite Hp, (IH Hc). reflexivity.
Qed.

Lemma replace_miss c1 c2 new c s :
  prefix (two c1 c2) (String c s) = false ->
  PyStr.replace (two c1 c2) new (String c s) =
  String c (PyStr.replace (two c1 c2) new s).
Proof.
  intros Hp. unfold PyStr.replace. cbn [PyStr.replace_from].
  rewrite Hp. reflexivity.
Qed.

Lemma prefix_two_inv c1 c2 s :
  prefix (two c1 c2) s = true -> exists rest, s = String c1 (String c2 rest).
Proof.
  unfold two. destruct s as [|a [|b rest]]; cbn [prefix]; try discriminate.
  - destruct (ascii_dec c1 a); discriminate.
  - destruct (ascii_dec c1 a); [|discriminate].
    destruct (ascii_dec c2 b); [|discriminate].
    intros _. subst. exists rest. reflexivity.
Qed.

Lemma prefix_two_miss c1 c2 s :
  prefix (two c1 c2) (String c1 s) = false -> not_starting c2 s = true.
Proof.
  unfold two. destruct s as [|b rest]; [reflexivity|].
  cbn [prefix not_starting].
  destruct (ascii_dec c1 c1); [|contradiction].
  destruct (ascii_dec c2 b) as [->|Hne].
  - destruct rest; discriminate.
  - intros _. apply negb_true_iff. apply Ascii.eqb_neq.
    intros Heq. apply Hne. symmetry. exact Heq.
Qed.

(** What a replacement begins with: the replacing text, or the character
    the text began with. *)
Lemma replace_not_starting c c1 c2 new s :
  new <> EmptyString -> not_starting c new = true ->
  not_starting c s = true ->
  not_starting c (PyStr.replace (two c1 c2) new s) = true.
Proof.
  intros Hnew Hn Hs. destruct s as [|a s]; [reflexivity|].
  destruct (prefix (two c1 c2) (String a s)) eqn:Hp.
  - apply prefix_two_inv in Hp as (rest & Hp). rewrite Hp.
    unfold two. rewrite replace_hit. apply not_starting_app; assumption.
  - rewrite replace_miss by exact Hp. exact Hs.
Qed.

(** No occurrence of a mark arises where two texts without one meet,
    when the first does not end with the first character of the mark. *)
Lemma contains_append p1 p2 t s :
  PyStr.contains (two p1 p2) t = false ->
  PyStr.contains (two p1 p2) s = false ->
  not_ending p1 t = true ->
  PyStr.contains (two p1 p2) (t ++ s) = false.
Proof.
  intros Ht Hs Hend. induction t as [|a t IH]; [exact Hs|].
  rewrite contains_cons in Ht. apply orb_false_elim in Ht as [Hp Ht].
  cbn [append]. rewrite contains_cons.
  assert (Hrest : PyStr.contains (two p1 p2) (t ++ s) = false).
  { apply IH; [exact Ht|]. destruct t; [reflexivity|exact Hend]. }
  rewrite Hrest, orb_false_r.
  destruct t as [|b t].
  - cbn [not_ending] in Hend. apply negb_true_iff in Hend.
    apply prefix_two_false_first. exact Hend.
  - destruct (prefix (two p1 p2) (String a (String b t ++ s))) eqn:Hq;
      [|reflexivity].
    apply prefix_two_inv in Hq as (rest & Hq). cbn [append] in Hq.
    inversion Hq; subst.
    unfold two in Hp. cbn [prefix] in Hp.
    destruct (ascii_dec p1 p1); [|contradiction].
    destruct (ascii_dec p2 p2); [|contradiction].
    destruct t; discriminate.
Qed.

(** A pass leaves no occurrence of a mark that the text did not hold, and
    none of the mark it replaces. *)
Lemma replace_no_mark p1 p2 c1 c2 new (n : nat) : forall s,
  (String.length s <= n)%nat ->
  new <> EmptyString ->
  PyStr.contains (two p1 p2) new = false ->
  not_starting p2 new = true -> not_ending p1 new = true ->
  two p1 p2 = two c1 c2 \/ PyStr.contains (two p1 p2) s = false ->
  PyStr.contains (two p1 p2) (PyStr.replace (two c1 c2) new s) = false.
Proof.
  induction n as [|n IH]; intros s Hlen Hnew Hin Hstart Hend Hs.
  - destruct s; [reflexivity|simpl in Hlen; lia].
  - destruct s as [|a s]; [reflexivity|].
    cbn [String.length] in Hlen.
    destruct (prefix (two c1 c2) (String a s)) eqn:Hp.
    + apply prefix_two_inv in Hp as (rest & Hp). inversion Hp; subst.
      unfold two at 2. rewrite replace_hit.
      apply contains_append; [exact Hin| |exact Hend].
      apply IH; try assumption; [cbn [String.length] in Hlen; lia|].
      destruct Hs as [Hs|Hs]; [left; exact Hs|right].
      rewrite !contains_cons in Hs.
      apply orb_false_elim in Hs as [_ Hs].
      apply orb_false_elim in Hs as [_ Hs]. exact Hs.
    + rewrite replace_miss by exact Hp. rewrite contains_cons.
      assert (Htail : two p1 p2 = two c1 c2 \/
                      PyStr.contains (two p1 p2) s = false).
      { destruct Hs as [Hs|Hs]; [left; exact Hs|right].
        rewrite contains_cons in Hs.
        apply orb_false_elim in Hs as [_ Hs]. exact Hs. }
      rewrite (IH s) by (try assumption; lia). rewrite orb_false_r.
      assert (Hmiss : prefix (two p1 p2) (String a s) = false).
      { destruct Hs as [Hs|Hs]; [rewrite Hs; exact Hp|].
        rewrite contains_cons in Hs.
        apply orb_false_elim in Hs as [Hs _]. exact Hs. }
      destruct (Ascii.eqb a p1) eqn:Ha.
      * apply Ascii.eqb_eq in Ha. subst a.
        apply prefix_two_miss in Hmiss.
        apply prefix_two_false_second.
        apply replace_not_starting; assumption.
      * apply prefix_two_false_first. exact Ha.
Qed.

Lemma pass_no_mark p1 p2 c1 c2 new s :
  new <> EmptyString ->
  PyStr.contains (two p1 p2) new = false ->
  not_starting p2 new = true -> not_ending p1 new = true ->
  two p1 p2 = two c1 c2 \/ PyStr.contains (two p1 p2) s = false ->
  PyStr.contains (two p1 p2) (PyStr.replace (two c1 c2) new s) = false.
Proof.
  intros. apply (replace_no_mark p1 p2 c1 c2 new (String.length s));
    try assumption. apply Nat.le_refl.
Qed.

Lemma color_diffs_marker_free (s : string) :
  marker_free (color_diffs s) = true.
Proof.
  unfold marker_free, color_diffs.
  assert (Hg : span_green <> EmptyString) by discriminate.
  assert (Hr : span_red <> EmptyString) by discriminate.
  assert (Hc : span_close <> EmptyString) by discriminate.
  assert (H1 : PyStr.contains "{+"
                 (PyStr.replace "{+" span_green s) = false)
    by (apply (pass_no_mark "{" "+" "{" "+"); try reflexivity;
        [exact Hg|left; reflexivity]).
  assert (H2 : forall t, PyStr.contains "+}"
                 (PyStr.replace "+}" span_close t) = false)
    by (intros t; apply (pass_no_mark "+" "}" "+" "}"); try reflexivity;
        [exact Hc|left; reflexivity]).
  assert (H3 : forall t, PyStr.contains "[-"
                 (PyStr.replace "[-" span_red t) = false)
    by (intros t; apply (pass_no_mark "[" "-" "[" "-"); try reflexivity;
        [exact Hr|left; reflexivity]).
  assert (H4 : forall t, PyStr.contains "-]"
                 (PyStr.replace "-]" span_close t) = false)
    by (intros t; apply (pass_no_mark "-" "]" "-" "]"); try reflexivity;
        [exact Hc|left; reflexivity]).
  assert (K4 : forall p1 p2 t,
             PyStr.contains (two p1 p2) span_close = false ->
             not_starting p2 span_close = true ->
             not_ending p1 span_close = true ->
             PyStr.contains (two p1 p2) t = false ->
             PyStr.contains (two p1 p2) (PyStr.replace "-]" span_close t)
               = false)
    by (intros; apply (pass_no_mark p1 p2 "-" "]"); try assumption;
        right; assumption).
  assert (K3 : forall p1 p2 t,
             PyStr.contains (two p1 p2) span_red = false ->
             not_starting p2 span_red = true ->
             not_ending p1 span_red = true ->
             PyStr.contains (two p1 p2) t = false ->
             PyStr.contains (two p1 p2) (PyStr.replace "[-" span_red t)
               = false)
    by (intros; apply (pass_no_mark p1 p2 "[" "-"); try assumption;
        right; assumption).
  assert (K2 : forall p1 p2 t,
             PyStr.contains (two p1 p2) span_close = false ->
             not_starting p2 span_close = true ->
             not_ending p1 span_close = true ->
             PyStr.contains (two p1 p2) t = false ->
             PyStr.contains (two p1 p2) (PyStr.replace "+}" span_close t)
               = false)
    by (intros; apply (pass_no_mark p1 p2 "+" "}"); try assumption;
        right; assumption).
  rewrite H4.
  rewrite (K4 "[" "-")%char by (try reflexivity; apply H3).
  rewrite (K4 "+" "}")%char
    by (try reflexivity; apply (K3 "+" "}")%char; try reflexivity; apply H2).
  rewrite (K4 "{" "+")%char; try reflexivity.
  apply (K3 "{" "+")%char; try reflexivity.
  apply (K2 "{" "+")%char; try reflexivity.
  exact H1.
Qed.

Lemma color_diffs_absent (s : string) :
  marker_free s = true -> color_diffs s = s.
Proof.
  unfold marker_free, color_diffs. intros H.
  apply andb_prop in H as [H H4]. apply andb_prop in H as [H H3].
  apply andb_prop in H as [H1 H2].
  apply negb_true_iff in H1, H2, H3, H4.
  rewrite (replace_absent "{+" _ s H1), (replace_absent "+}" _ s H2),
    (replace_absent "[-" _ s H3), (replace_absent "-]" _ s H4).
  reflexivity.
Qed.

End RendererMore.

(** X5: no mark survives the renderer: whatever the diff text, the output
    of [color_diffs] holds none of the four marks, also where the marks
    of the text overlap or have no partner. *)
Theorem color_diffs_removes_every_mark :
  forall difftext : string,
    PyStr.contains "{+" (color_diffs difftext) = false /\
    PyStr.contains "+}" (color_diffs difftext) = false /\
    PyStr.contains "[-" (color_diffs difftext) = false /\
    PyStr.contains "-]" (color_diffs difftext) = false.
Proof.
  intros difftext.
  pose proof (color_diffs_marker_free difftext) as H.
  unfold marker_free in H.
  apply andb_prop in H as [H H4]. apply andb_prop in H as [H H3].
  apply andb_prop in H as [H1 H2].
  apply negb_true_iff in H1, H2, H3, H4. repeat split; assumption.
Qed.

(** X6: the renderer escapes nothing and changes only marks: the texts
    it returns unchanged are exactly the texts that hold none of the four
    marks, so that rendering a rendered text changes nothing. *)
Theorem color_diffs_fixes_marker_free_texts :
  forall difftext : string,
    (color_diffs difftext = difftext <-> marker_free difftext = true) /\
    color_diffs (color_diffs difftext) = color_diffs difftext.
Proof.
  intros difftext. split; [split|].
  - intros Hfix. rewrite <- Hfix. apply color_diffs_marker_free.
  - apply color_diffs_absent.
  - apply color_diffs_absent. apply color_diffs_marker_free.
Qed.
(** ** Further properties of the diff extraction *)

Section DifftextMore.

Implicit Types (c : ascii) (t s cur sep : string).

Lemma join_empty_cons (x : string) (l : list string) :
  PyStr.join "" (x :: l) = (x ++ PyStr.join "" l)%string.
Proof.
  destruct l as [|y l]; [cbn [PyStr.join]; rewrite append_nil_r|]; reflexivity.
Qed.

Lemma rev_string_acc s : forall acc : string,
  PyStr.rev_string acc s = (PyStr.rev_string "" s ++ acc)%string.
Proof.
  induction s as [|c s IH]; intros acc; [reflexivity|].
  cbn [PyStr.rev_string]. rewrite (IH (String c acc)), (IH (String c "")).
  rewrite append_assoc. reflexivity.
Qed.

Lemma prefix_single c x s :
  prefix (String c EmptyString) (String x s) = Ascii.eqb x c.
Proof.
  cbn [prefix]. destruct (ascii_dec c x) as [->|Hne].
  - rewrite Ascii.eqb_refl. destruct s; reflexivity.
  - symmetry. apply Ascii.eqb_neq. intros Heq. apply Hne. symmetry. exact Heq.
Qed.

(** The pieces between the characters [c], put together again, are the
    text without its characters [c]. *)
Lemma join_split_single c s : forall cur,
  PyStr.join "" (PyStr.split_from (String c EmptyString) 0 cur s) =
  (PyStr.rev_string "" cur ++ without c s)%string.
Proof.
  induction s as [|x s IH]; intros cur.
  - cbn [PyStr.split_from PyStr.join without]. rewrite append_nil_r.
    reflexivity.
  - cbn [PyStr.split_from without]. rewrite prefix_single.
    destruct (Ascii.eqb x c).
    + rewrite join_empty_cons. cbn [String.length Nat.pred].
      rewrite (IH EmptyString). reflexivity.
    + rewrite (IH (String x cur)). cbn [PyStr.rev_string].
      rewrite (rev_string_acc cur (String x EmptyString)), append_assoc.
      reflexivity.
Qed.

Lemma join_tl_split_single c s : forall cur,
  PyStr.join "" (tl (PyStr.split_from (String c EmptyString) 0 cur s)) =
  without c (after_first c s).
Proof.
  induction s as [|x s IH]; intros cur; [reflexivity|].
  cbn [PyStr.split_from after_first]. rewrite prefix_single.
  destruct (Ascii.eqb x c).
  - cbn [tl String.length Nat.pred]. rewrite join_split_single. reflexivity.
  - apply IH.
Qed.

Lemma lacks_without c t : lacks c (without c t) = true.
Proof.
  induction t as [|x t IH]; [reflexivity|].
  cbn [without]. destruct (Ascii.eqb x c) eqn:Hx; [exact IH|].
  cbn [lacks]. rewrite Hx, IH. reflexivity.
Qed.

Lemma lacks_rev_string c s : forall acc : string,
  lacks c (PyStr.rev_string acc s) = lacks c s && lacks c acc.
Proof.
  induction s as [|x s IH]; intros acc; [reflexivity|].
  cbn [PyStr.rev_string lacks]. rewrite IH. cbn [lacks].
  destruct (negb (Ascii.eqb x c)), (lacks c s); reflexivity.
Qed.

(** The pieces of a text hold no character the text does not hold. *)
Lemma split_from_lacks c sep s : forall (k : nat) cur,
  lacks c s = true -> lacks c cur = true ->
  Forall (fun piece => lacks c piece = true) (PyStr.split_from sep k cur s).
Proof.
  induction s as [|x s IH]; intros k cur Hs Hcur.
  - cbn [PyStr.split_from]. constructor; [|constructor].
    rewrite lacks_rev_string, Hcur. reflexivity.
  - cbn [lacks] in Hs. apply andb_prop in Hs as [Hx Hs].
    cbn [PyStr.split_from]. destruct k as [|k]; [|apply IH; assumption].
    destruct (prefix sep (String x s)).
    + constructor; [rewrite lacks_rev_string, Hcur; reflexivity|].
      apply IH; [exact Hs|reflexivity].
    + apply IH; [exact Hs|]. cbn [lacks]. rewrite Hx, Hcur. reflexivity.
Qed.

Lemma split_from_nonempty sep s : forall (k : nat) cur,
  PyStr.split_from sep k cur s <> [].
Proof.
  induction s as [|x s IH]; intros k cur; [discriminate|].
  cbn [PyStr.split_from]. destruct k as [|k]; [|apply IH].
  destruct (prefix sep (String x s)); [discriminate|apply IH].
Qed.

Lemma last_item_split c sep s :
  lacks c s = true ->
  exists part, PyList.last_item (PyStr.split sep s) = Ok part /\
               lacks c part = true.
Proof.
  intros Hs. unfold PyList.last_item, PyStr.split.
  pose proof (split_from_lacks c sep s 0%nat EmptyString Hs eq_refl) as Hall.
  pose proof (split_from_nonempty sep s 0%nat EmptyString) as Hne.
  destruct (PyStr.split_from sep 0 "" s) as [|p l] using rev_ind;
    [contradiction|].
  rewrite rev_app_distr. cbn [rev app]. exists p. split; [reflexivity|].
  apply Forall_app in Hall as [_ Hp]. inversion Hp. assumption.
Qed.

Lemma first_item_split c sep s :
  lacks c s = true ->
  exists part, PyList.item (PyStr.split sep s) 0 = Ok part /\
               lacks c part = true.
Proof.
  intros Hs. unfold PyList.item, PyStr.split.
  pose proof (split_from_lacks c sep s 0%nat EmptyString Hs eq_refl) as Hall.
  pose proof (split_from_nonempty sep s 0%nat EmptyString) as Hne.
  destruct (PyStr.split_from sep 0 "" s) as [|p l]; [contradiction|].
  exists p. split; [reflexivity|]. inversion Hall. assumption.
Qed.

Lemma prefix_lacks c pat : forall s,
  prefix pat s = true -> lacks c s = true -> lacks c pat = true.
Proof.
  induction pat as [|p pat IH]; intros s Hp Hs; [reflexivity|].
  destruct s as [|x s]; [discriminate|].
  cbn [prefix] in Hp. destruct (ascii_dec p x) as [->|]; [|discriminate].
  cbn [lacks] in Hs |- *. apply andb_prop in Hs as [Hx Hs].
  rewrite Hx, (IH s Hp Hs). reflexivity.
Qed.

Lemma contains_lacks c pat s :
  lacks c s = true -> lacks c pat = false -> PyStr.contains pat s = false.
Proof.
  intros Hs Hpat. induction s as [|x s IH].
  - cbn [PyStr.contains]. destruct (prefix pat EmptyString) eqn:Hp;
      [|reflexivity].
    rewrite (prefix_lacks c pat EmptyString Hp eq_refl) in Hpat. discriminate.
  - rewrite contains_cons.
    destruct (prefix pat (String x s)) eqn:Hp.
    + rewrite (prefix_lacks c pat _ Hp Hs) in Hpat. discriminate.
    + cbn [lacks] in Hs. apply andb_prop in Hs as [_ Hs]. apply IH. exact Hs.
Qed.

(** A text without the separator is one piece. *)
Lemma split_absent sep s : forall cur,
  PyStr.contains sep s = false ->
  length (PyStr.split_from sep 0 cur s) = 1%nat.
Proof.
  induction s as [|x s IH]; intros cur H; [reflexivity|].
  rewrite contains_cons in H. apply orb_false_elim in H as [Hp Hc].
  cbn [PyStr.split_from]. rewrite Hp. apply IH. exact Hc.
Qed.

End DifftextMore.

(** X7: for a file without a conflict mark whose patch decodes,
    [get_difftext] returns the patch after its first line with every line
    break taken out, so that the diff text holds no line break; it logs
    nothing and makes no call. *)
Theorem get_difftext_joins_patch_lines :
  forall (env : Env) (origtext : string) (item : DiffItem)
         (folder_ text : string) (w : World),
    PyStr.contains conflict_head origtext = false ->
    diff item = DiffBytes (Text text) ->
    get_difftext env origtext item folder_ w =
      Ok (without PyStr.newline (after_first PyStr.newline text), w) /\
    lacks PyStr.newline
      (without PyStr.newline (after_first PyStr.newline text)) = true.
Proof.
  intros env origtext item folder_ text w Hmark Hdiff.
  split; [|apply lacks_without].
  unfold get_difftext. rewrite Hmark.
  unfold try_except, bind, lift, ret. rewrite Hdiff.
  cbn [decode_diff decode]. unfold PyStr.split. rewrite join_tl_split_single. reflexivity.
Qed.

Lemma get_difftext_joins_patch_lines_witness :
  get_difftext Demo.review_env "Hte" Demo.item_a Demo.repo_folder Demo.start =
    Ok ("H[-te-]{+at+}", Demo.start).
Proof.
  apply (get_difftext_joins_patch_lines Demo.review_env "Hte" Demo.item_a
           Demo.repo_folder
           ("@@ -1 +1 @@" ++ String PyStr.newline "H[-te-]{+at+}")%string
           Demo.start); reflexivity.
Defined.

(** X8: a file in conflict whose working text holds no separator line
    between the two variants makes [get_difftext] raise [IndexError]: the
    second variant is read without a test (line 121).  The text is taken
    here to hold no [=] at all. *)
Theorem get_difftext_conflict_without_separator :
  forall (env : Env) (origtext : string) (item : DiffItem)
         (folder_ content : string) (w : World),
    PyStr.contains conflict_head origtext = true ->
    read_text env (trace w) (joinpath folder_ (a_path item)) = Ok content ->
    lacks "=" content = true ->
    get_difftext env origtext item folder_ w = Raise IndexError.
Proof.
  intros env origtext item folder_ content w Hmark Hread Hlacks.
  unfold get_difftext. rewrite Hmark.
  unfold bind at 1. unfold ask. rewrite Hread.
  destruct (last_item_split "=" conflict_head content Hlacks)
    as (part & Hpart & Hl1).
  unfold bind at 1. rewrite Hpart. cbn [lift].
  destruct (first_item_split "=" conflict_tail part Hl1)
    as (part' & Hpart' & Hl2).
  unfold bind at 1. rewrite Hpart'. cbn [lift].
  assert (Hone : length (PyStr.split conflict_middle part') = 1%nat).
  { apply split_absent. apply (contains_lacks "="); [exact Hl2|reflexivity]. }
  destruct (PyStr.split conflict_middle part') as [|m0 [|m1 l]];
    try discriminate.
  reflexivity.
Qed.

Lemma get_difftext_conflict_without_separator_witness :
  get_difftext
    (Demo.env [])
    (conflict_head ++ "ours")%string Demo.item_a Demo.repo_folder Demo.start
  = Raise IndexError.
Proof.
  apply (get_difftext_conflict_without_separator (Demo.env [])
           (conflict_head ++ "ours")%string Demo.item_a Demo.repo_folder
           "Hat" Demo.start); reflexivity.
Defined.

(** X9: for a file without a conflict mark whose item carries the bytes
    of a patch, [get_difftext] never raises: whatever the patch, the
    working blob and the repository answer, it returns a diff text, makes
    no call, changes no key of the session and logs at most two warnings.
    On an item that carries a [str] instead (an item fetched without
    [create_patch]) it raises [AttributeError], which the handler of the
    decoding error does not catch. *)
Theorem get_difftext_without_conflict_returns :
  forall (env : Env) (origtext : string) (item : DiffItem)
         (folder_ : string) (w : World),
    PyStr.contains conflict_head origtext = false ->
    match diff item with
    | DiffBytes _ =>
        exists (difftext : string) (logged : list Warning),
          get_difftext env origtext item folder_ w =
            Ok (difftext, mkWorld (session w) (trace w) (log w ++ logged)) /\
          (length logged <= 2)%nat
    | DiffStr _ =>
        get_difftext env origtext item folder_ w = Raise AttributeError
    end.
Proof.
  intros env origtext item folder_ w Hmark.
  unfold get_difftext. rewrite Hmark.
  unfold try_except at 1.
  destruct (diff item) as [[text|]|text] eqn:Hdiff.
  - unfold bind, lift, decode_diff, decode, ret.
    eexists. exists []. rewrite app_nil_r. split; [|cbn; lia].
    destruct w; reflexivity.
  - unfold bind at 1. cbn [lift decode_diff decode is_UnicodeDecodeError].
    unfold bind at 1. cbn [warning].
    unfold try_except.
    match goal with
    | |- exists _ _, match ?body ?w1 with _ => _ end = _ /\ _ =>
        destruct (body w1) as [[r w2]|e] eqn:Hbody
    end.
    + exists r, [DiffNotDecoded (a_path item)]. split; [|cbn; lia].
      f_equal. f_equal.
      apply bind_inv in Hbody as (working & w3 & Hw & Hbody).
      apply lift_inv in Hw as [_ ->].
      apply get_gitdifftext_frame in Hbody. subst w2. reflexivity.
    + exists EmptyString,
        [DiffNotDecoded (a_path item); FilesNotCompared (a_path item)].
      split; [|cbn; lia].
      unfold bind, warning, ret. cbn [session trace log].
      rewrite <- app_assoc. reflexivity.
  - reflexivity.
Qed.

Lemma get_difftext_without_conflict_returns_witness :
  (exists (difftext : string) (logged : list Warning),
     get_difftext Demo.review_env "cafe" Demo.item_c Demo.repo_folder
       Demo.start
       = Ok (difftext,
             mkWorld (session Demo.start) (trace Demo.start)
               (log Demo.start ++ logged)) /\
     (length logged <= 2)%nat) /\
  get_difftext Demo.review_env "cafe" item_unpatched Demo.repo_folder
    Demo.start = Raise AttributeError.
Proof.
  split.
  - apply (get_difftext_without_conflict_returns Demo.review_env "cafe"
             Demo.item_c Demo.repo_folder Demo.start).
    reflexivity.
  - apply (get_difftext_without_conflict_returns Demo.review_env "cafe"
             item_unpatched Demo.repo_folder Demo.start).
    reflexivity.
Defined.
(** ** Further properties of the review session *)

Section GtcheckKeeps.

Variable env : Env.

Lemma gtcheck_keeps_refl (w : World) : gtcheck_keeps w w.
Proof.
  split; [exists []; rewrite app_nil_r; split; reflexivity|].
  repeat split; reflexivity.
Qed.

Lemma gtcheck_keeps_trans (w1 w2 w3 : World) :
  gtcheck_keeps w1 w2 -> gtcheck_keeps w2 w3 -> gtcheck_keeps w1 w3.
Proof.
  intros [(evs1 & Ht1 & Hc1) (Hf1 & Hr1 & Hv1 & Hp1 & Hu1 & Hs1 & Ha1)]
         [(evs2 & Ht2 & Hc2) (Hf2 & Hr2 & Hv2 & Hp2 & Hu2 & Hs2 & Ha2)].
  split.
  - exists (evs1 ++ evs2). rewrite Ht2, Ht1, app_assoc, forallb_app, Hc1.
    rewrite Ha1 in Hc2. rewrite Hc2. split; reflexivity.
  - repeat split; congruence.
Qed.

Ltac keeps_solve :=
  unfold gtcheck_keeps; world_simpl; split;
  [ rewrite <- ?app_assoc; eexists; split;
    [ first [ reflexivity | symmetry; apply app_nil_r ]
    | cbn [forallb page_call app];
      repeat match goal with
        | H : addcc _ = Some _ |- _ => rewrite H
        end; reflexivity ]
  | repeat split; reflexivity ].

Lemma gtcheck_present_keeps (reponame name email diffhead : string)
  (idx nc : Z) (filename : option string) (item : DiffItem)
  (origtext difftext : string) (w w' : World) (step : LoopStep) :
  gtcheck_present env reponame name email diffhead idx nc filename item
    origtext difftext w = Ok (step, w') ->
  gtcheck_keeps w w'.
Proof.
  intros Hrun. unfold gtcheck_present in Hrun.
  exec_calls; keeps_solve.
Qed.

Lemma gtcheck_file_keeps (reponame name email diffhead : string)
  (idx nc : Z) (filename : option string) (w w' : World)
  (step : LoopStep) :
  gtcheck_file env reponame name email diffhead idx nc filename w
    = Ok (step, w') ->
  gtcheck_keeps w w'.
Proof.
  intros Hrun. unfold gtcheck_file in Hrun.
  apply bind_inv in Hrun as (item & w1 & Hitem & Hrun).
  apply find_item_frame in Hitem. subst w1.
  destruct (a_blob item) eqn:Ha; [|destruct (b_blob item) eqn:Hb].
  3: { exec_calls; keeps_solve. }
  all: exec_calls; apply gtcheck_present_keeps in Hrun;
    (eapply gtcheck_keeps_trans; [|exact Hrun]); keeps_solve.
Qed.

Lemma gtcheck_loop_keeps (reponame name email diffhead : string)
  (l : list (option string)) :
  forall (idx nc : Z) (w w' : World) (result : option Page),
    gtcheck_loop env reponame name email diffhead idx nc l w
      = Ok (result, w') ->
    gtcheck_keeps w w'.
Proof.
  induction l as [|filename rest IH]; intros idx nc w w' result Hrun.
  - simpl in Hrun. exec. apply gtcheck_keeps_refl.
  - cbn [gtcheck_loop] in Hrun.
    apply bind_inv in Hrun as (step & w1 & Hstep & Hrun).
    apply gtcheck_file_keeps in Hstep.
    destruct step as [nc'|page].
    + apply IH in Hrun. eapply gtcheck_keeps_trans; eassumption.
    + exec. exact Hstep.
Qed.

Lemma gtcheck_rebuild_keeps (u : unit) (w w' : World) :
  gtcheck_rebuild env w = Ok (u, w') -> gtcheck_keeps w w'.
Proof.
  intros Hrun. unfold gtcheck_rebuild in Hrun. exec; keeps_solve.
Qed.

Lemma gtcheck_gtcheck_keeps (fuel : nat) :
  forall (reponame : string) (w w' : World) (page : Page),
    gtcheck env fuel reponame w = Ok (page, w') -> gtcheck_keeps w w'.
Proof.
  induction fuel as [|fuel IH]; intros reponame w w' page Hrun;
    [discriminate|].
  cbn [gtcheck] in Hrun.
  apply bind_inv in Hrun as (name & w1 & Hname & Hrun).
  apply ask_inv in Hname as [_ ->].
  apply bind_inv in Hrun as (email & w1 & Hemail & Hrun).
  apply ask_inv in Hemail as [_ ->].
  apply bind_inv in Hrun as (out & w1 & Hout & Hrun).
  apply ask_inv in Hout as [_ ->].
  apply bind_inv in Hrun as (diffhead & w1 & Hhead & Hrun).
  apply lift_inv in Hhead as [_ ->].
  apply bind_inv in Hrun as (u & w1 & Hreb & Hrun).
  apply gtcheck_rebuild_keeps in Hreb.
  apply bind_inv in Hrun as (l & w2 & Hl & Hrun).
  apply read_inv in Hl as [-> ->].
  apply bind_inv in Hrun as (skip_ & w2 & Hs & Hrun).
  apply read_inv in Hs as [-> ->].
  apply bind_inv in Hrun as (result & w2 & Hloop & Hrun).
  apply gtcheck_loop_keeps in Hloop.
  pose proof (gtcheck_keeps_trans _ _ _ Hreb Hloop) as Hsofar.
  destruct result as [page'|].
  - exec. exact Hsofar.
  - destruct (truthy diffhead).
    + exec. eapply gtcheck_keeps_trans; [exact Hsofar|]. keeps_solve.
    + apply bind_inv in Hrun as (l & w3 & Hl & Hrun).
      apply read_inv in Hl as [-> ->].
      destruct (difflist (session w2)).
      * exec. exact Hsofar.
      * apply bind_inv in Hrun as (u' & w3 & Hskip & Hrun).
        apply assign_inv in Hskip. subst w3.
        apply IH in Hrun.
        eapply gtcheck_keeps_trans; [exact Hsofar|].
        eapply gtcheck_keeps_trans; [|exact Hrun]. keeps_solve.
Qed.

End GtcheckKeeps.

Section QueueEntries.

Variable env : Env.

Lemma remove_at_forallb {A} (f : A -> bool) (l : list A) : forall i,
  forallb f l = true -> forallb f (PyList.remove_at i l) = true.
Proof.
  induction l as [|x l IH]; intros i H; [destruct i; reflexivity|].
  cbn [forallb] in H. apply andb_prop in H as [Hx Hl].
  destruct i as [|i]; cbn [PyList.remove_at]; [exact Hl|].
  cbn [forallb]. rewrite Hx, (IH i Hl). reflexivity.
Qed.

Lemma pop_idx_list_forallb {A} (f : A -> bool) (l l' : list A) (i : Z) :
  pop_idx_list l i = Ok l' -> forallb f l = true -> forallb f l' = true.
Proof.
  unfold pop_idx_list, PyList.pop. intros Hpop Hl.
  destruct (Z.of_nat (length l) >? i).
  - destruct (((if i <? 0 then i + Z.of_nat (length l) else i) <? 0)
              || (Z.of_nat (length l)
                  <=? (if i <? 0 then i + Z.of_nat (length l) else i)));
      [discriminate|].
    inversion Hpop. apply remove_at_forallb. exact Hl.
  - inversion Hpop. subst. exact Hl.
Qed.

Lemma firstn_forallb {A} (f : A -> bool) (l : list A) : forall n,
  forallb f l = true -> forallb f (firstn n l) = true.
Proof.
  induction l as [|x l IH]; intros [|n] H; try reflexivity.
  cbn [forallb] in H. apply andb_prop in H as [Hx Hl].
  cbn [firstn forallb]. rewrite Hx, (IH n Hl). reflexivity.
Qed.

Lemma slice_to_forallb {A} (f : A -> bool) (l : list A) (b : Z) :
  forallb f l = true -> forallb f (PyList.slice_to l b) = true.
Proof.
  intros H. unfold PyList.slice_to.
  destruct (b <? 0); apply firstn_forallb; exact H.
Qed.

Lemma times_forallb {A} (f : A -> bool) (x : A) (n : Z) :
  f x = true -> forallb f (PyList.times x n) = true.
Proof.
  intros H. unfold PyList.times.
  induction (Z.to_nat n) as [|k IH]; [reflexivity|].
  cbn [repeat forallb]. rewrite H, IH. reflexivity.
Qed.

Lemma changed_files_gt (items : list DiffItem) :
  forallb gt_entry
    (map (fun it => Some (a_path it))
       (filter (fun it => PyStr.contains ".gt.txt" (a_path it)) items)) = true.
Proof.
  induction items as [|it items IH]; [reflexivity|].
  cbn [filter]. destruct (PyStr.contains ".gt.txt" (a_path it)) eqn:Hgt;
    [|exact IH].
  cbn [map forallb gt_entry]. rewrite Hgt, IH. reflexivity.
Qed.

Ltac gt_solve :=
  unfold queue_gt in *; world_simpl;
  first
    [ assumption
    | reflexivity
    | eapply pop_idx_list_forallb; eassumption
    | apply times_forallb; reflexivity
    | apply slice_to_forallb; apply changed_files_gt ].

Lemma gtcheck_present_gt (reponame name email diffhead : string)
  (idx nc : Z) (filename : option string) (item : DiffItem)
  (origtext difftext : string) (w w' : World) (step : LoopStep) :
  gtcheck_present env reponame name email diffhead idx nc filename item
    origtext difftext w = Ok (step, w') ->
  queue_gt (session w) -> queue_gt (session w').
Proof.
  intros Hrun Hq. unfold gtcheck_present in Hrun.
  exec_calls; gt_solve.
Qed.

Lemma gtcheck_file_gt (reponame name email diffhead : string)
  (idx nc : Z) (filename : option string) (w w' : World)
  (step : LoopStep) :
  gtcheck_file env reponame name email diffhead idx nc filename w
    = Ok (step, w') ->
  queue_gt (session w) -> queue_gt (session w').
Proof.
  intros Hrun Hq. unfold gtcheck_file in Hrun.
  apply bind_inv in Hrun as (item & w1 & Hitem & Hrun).
  apply find_item_frame in Hitem. subst w1.
  destruct (a_blob item) eqn:Ha; [|destruct (b_blob item) eqn:Hb].
  3: { exec_calls; gt_solve. }
  all: exec_calls; apply gtcheck_present_gt in Hrun; gt_solve.
Qed.

Lemma gtcheck_loop_gt (reponame name email diffhead : string)
  (l : list (option string)) :
  forall (idx nc : Z) (w w' : World) (result : option Page),
    gtcheck_loop env reponame name email diffhead idx nc l w
      = Ok (result, w') ->
    queue_gt (session w) -> queue_gt (session w').
Proof.
  induction l as [|filename rest IH]; intros idx nc w w' result Hrun Hq.
  - simpl in Hrun. exec. exact Hq.
  - cbn [gtcheck_loop] in Hrun.
    apply bind_inv in Hrun as (step & w1 & Hstep & Hrun).
    apply gtcheck_file_gt in Hstep; [|exact Hq].
    destruct step as [nc'|page].
    + eapply IH; eassumption.
    + exec. exact Hstep.
Qed.

Lemma gtcheck_rebuild_gt (u : unit) (w w' : World) :
  gtcheck_rebuild env w = Ok (u, w') ->
  queue_gt (session w) -> queue_gt (session w').
Proof.
  intros Hrun Hq. unfold gtcheck_rebuild in Hrun. exec; gt_solve.
Qed.

Lemma gtcheck_gt (fuel : nat) :
  forall (reponame : string) (w w' : World) (page : Page),
    gtcheck env fuel reponame w = Ok (page, w') ->
    queue_gt (session w) -> queue_gt (session w').
Proof.
  induction fuel as [|fuel IH]; intros reponame w w' page Hrun Hq;
    [discriminate|].
  cbn [gtcheck] in Hrun.
  apply bind_inv in Hrun as (name & w1 & Hname & Hrun).
  apply ask_inv in Hname as [_ ->].
  apply bind_inv in Hrun as (email & w1 & Hemail & Hrun).
  apply ask_inv in Hemail as [_ ->].
  apply bind_inv in Hrun as (out & w1 & Hout & Hrun).
  apply ask_inv in Hout as [_ ->].
  apply bind_inv in Hrun as (diffhead & w1 & Hhead & Hrun).
  apply lift_inv in Hhead as [_ ->].
  apply bind_inv in Hrun as (u & w1 & Hreb & Hrun).
  apply gtcheck_rebuild_gt in Hreb; [|exact Hq].
  apply bind_inv in Hrun as (l & w2 & Hl & Hrun).
  apply read_inv in Hl as [-> ->].
  apply bind_inv in Hrun as (skip_ & w2 & Hs & Hrun).
  apply read_inv in Hs as [-> ->].
  apply bind_inv in Hrun as (result & w2 & Hloop & Hrun).
  apply gtcheck_loop_gt in Hloop; [|exact Hreb].
  destruct result as [page'|].
  - exec. exact Hloop.
  - destruct (truthy diffhead).
    + exec. gt_solve.
    + apply bind_inv in Hrun as (l & w3 & Hl & Hrun).
      apply read_inv in Hl as [-> ->].
      destruct (difflist (session w2)) eqn:Hd.
      * exec. exact Hloop.
      * apply bind_inv in Hrun as (u' & w3 & Hskip & Hrun).
        apply assign_inv in Hskip. subst w3.
        eapply IH; [exact Hrun|]. gt_solve.
Qed.

(** Splits a run of [gtcheckedit] into its steps, up to the call of
    [gtcheck] at its end. *)
Ltac peel Hrun :=
  repeat match type of Hrun with
    | bind _ _ _ = Ok _ =>
        let a := fresh "a" in
        let w1 := fresh "w" in
        let H1 := fresh "Hstep" in
        apply bind_inv in Hrun as (a & w1 & H1 & Hrun); cbv beta in Hrun
    end.

Lemma gtcheckedit_gt (fuel : nat) (reponame : string) (data : Form)
  (w w' : World) (page : Page) :
  gtcheckedit env fuel reponame data w = Ok (page, w') ->
  queue_gt (session w) -> queue_gt (session w').
Proof.
  intros Hrun Hq. unfold gtcheckedit, gtcheckedit_finish in Hrun.
  apply bind_inv in Hrun as (difflen_ & w1 & Hd & Hrun).
  apply read_inv in Hd as [-> ->].
  apply bind_inv in Hrun as (skip_ & w1 & Hs & Hrun).
  apply read_inv in Hs as [-> ->].
  destruct (difflen (session w) - skip (session w) =? 0).
  - peel Hrun. eapply gtcheck_gt; [exact Hrun|]. clear Hrun.
    exec; gt_solve.
  - unfold gtcheckedit_decision, gtcheckedit_undo, write_if_changed,
      dump_reservation in Hrun.
    peel Hrun. eapply gtcheck_gt; [exact Hrun|]. clear Hrun.
    exec_calls; gt_solve.
Qed.

(** What [gtcheckedit] keeps of the session. *)
Lemma gtcheckedit_toggles (fuel : nat) (reponame : string) (data : Form)
  (w w' : World) (page : Page) :
  gtcheckedit env fuel reponame data w = Ok (page, w') ->
  folder (session w') = folder (session w) /\
  skipcc (session w') = skipcc (session w) /\
  addcc (session w') = addcc (session w).
Proof.
  intros Hrun. unfold gtcheckedit, gtcheckedit_finish in Hrun.
  apply bind_inv in Hrun as (difflen_ & w1 & Hd & Hrun).
  apply read_inv in Hd as [-> ->].
  apply bind_inv in Hrun as (skip_ & w1 & Hs & Hrun).
  apply read_inv in Hs as [-> ->].
  destruct (difflen (session w) - skip (session w) =? 0).
  - peel Hrun.
    apply gtcheck_gtcheck_keeps in Hrun
      as (_ & Hf & _ & _ & _ & _ & Hsk & Had).
    rewrite Hf, Hsk, Had. clear Hf Hsk Had.
    exec; repeat split; reflexivity.
  - unfold gtcheckedit_decision, gtcheckedit_undo, write_if_changed,
      dump_reservation in Hrun.
    peel Hrun.
    apply gtcheck_gtcheck_keeps in Hrun
      as (_ & Hf & _ & _ & _ & _ & Hsk & Had).
    rewrite Hf, Hsk, Had. clear Hf Hsk Had.
    exec_calls; repeat split; reflexivity.
Qed.

End QueueEntries.

Lemma reachable_gt (w : World) : reachable w -> queue_gt (session w).
Proof.
  induction 1 as [env fuel reponame folder_ rf tr lg page w Hrun
                 |env fuel reponame data w page w' Hreach IH Hrun].
  - eapply gtcheck_gt; [exact Hrun|]. reflexivity.
  - eapply gtcheckedit_gt; eassumption.
Qed.

Lemma reachable_toggles (w : World) :
  reachable w -> skipcc (session w) = None /\ addcc (session w) = None.
Proof.
  induction 1 as [env fuel reponame folder_ rf tr lg page w Hrun
                 |env fuel reponame data w page w' Hreach IH Hrun].
  - apply gtcheck_gtcheck_keeps in Hrun
      as (_ & _ & _ & _ & _ & _ & Hsk & Had).
    rewrite Hsk, Had. split; reflexivity.
  - apply gtcheckedit_toggles in Hrun as (_ & Hsk & Had).
    rewrite Hsk, Had. exact IH.
Qed.

(** The review of [Demo] is a review. *)
Lemma demo_reachable_first : reachable Demo.w_first.
Proof.
  apply (reach_init Demo.review_env 5 "book" Demo.repo_folder
           Demo.reservation [] [] (Demo.page_of Demo.r_first)).
  vm_compute. reflexivity.
Qed.

Lemma demo_reachable_staged : reachable Demo.w_staged.
Proof.
  apply (reach_edit Demo.review_env 5 "book" (Demo.form "add" None)
           Demo.w_stashed (Demo.page_of Demo.r_staged));
    [|vm_compute; reflexivity].
  apply (reach_edit Demo.review_env 5 "book" (Demo.form "stash" None)
           Demo.w_skipped (Demo.page_of Demo.r_stashed));
    [|vm_compute; reflexivity].
  apply (reach_edit Demo.review_env 5 "book" (Demo.form "skip" None)
           Demo.w_committed (Demo.page_of Demo.r_skipped));
    [|vm_compute; reflexivity].
  apply (reach_edit Demo.review_env 5 "book" (Demo.form "commit" None)
           Demo.w_first (Demo.page_of Demo.r_committed));
    [|vm_compute; reflexivity].
  exact demo_reachable_first.
Qed.

Section PageShown.

Variable env : Env.

Lemma gtcheck_present_page (reponame name email diffhead : string)
  (idx nc : Z) (filename : option string) (item : DiffItem)
  (origtext difftext : string) (w w' : World) (p : FilePage) :
  gtcheck_present env reponame name email diffhead idx nc filename item
    origtext difftext w = Ok (Return (PageFile p), w') ->
  (exists kind, modtype (session w) = Some kind) ->
  page_shows p (session w').
Proof.
  intros Hrun Hkind. unfold gtcheck_present in Hrun.
  exec_calls; try discriminate;
    match goal with
    | H : Return _ = Return _ |- _ => inversion H; subst; clear H
    end;
    unfold page_shows; world_simpl;
    cbn [pg_modtext pg_fname pg_skipped pg_files_left pg_files_len
         pg_vkeylang];
    (split; [reflexivity|]);
    (split; [eexists; repeat split; reflexivity|]);
    repeat (split; [reflexivity|]);
    (split; [first [exact Hkind | eexists; reflexivity]
            |eexists; reflexivity]).
Qed.

Lemma gtcheck_file_page (reponame name email diffhead : string)
  (idx nc : Z) (filename : option string) (w w' : World) (p : FilePage) :
  gtcheck_file env reponame name email diffhead idx nc filename w
    = Ok (Return (PageFile p), w') ->
  page_shows p (session w').
Proof.
  intros Hrun. unfold gtcheck_file in Hrun.
  apply bind_inv in Hrun as (item & w1 & Hitem & Hrun).
  apply find_item_frame in Hitem. subst w1.
  destruct (a_blob item) eqn:Ha; [|destruct (b_blob item) eqn:Hb].
  3: { exec_calls; discriminate. }
  all: exec_calls; apply gtcheck_present_page in Hrun;
    [exact Hrun|world_simpl; eexists; reflexivity].
Qed.

Lemma gtcheck_loop_page (reponame name email diffhead : string)
  (l : list (option string)) :
  forall (idx nc : Z) (w w' : World) (p : FilePage),
    gtcheck_loop env reponame name email diffhead idx nc l w
      = Ok (Some (PageFile p), w') ->
    page_shows p (session w').
Proof.
  induction l as [|filename rest IH]; intros idx nc w w' p Hrun.
  - simpl in Hrun. exec. discriminate.
  - cbn [gtcheck_loop] in Hrun.
    apply bind_inv in Hrun as (step & w1 & Hstep & Hrun).
    destruct step as [nc'|page].
    + eapply IH. exact Hrun.
    + apply ret_inv in Hrun as [Hpage ->]. inversion Hpage. subst page.
      eapply gtcheck_file_page. exact Hstep.
Qed.

Lemma gtcheck_page (fuel : nat) :
  forall (reponame : string) (w w' : World) (p : FilePage),
    gtcheck env fuel reponame w = Ok (PageFile p, w') ->
    page_shows p (session w').
Proof.
  induction fuel as [|fuel IH]; intros reponame w w' p Hrun;
    [discriminate|].
  cbn [gtcheck] in Hrun.
  apply bind_inv in Hrun as (name & w1 & Hname & Hrun).
  apply ask_inv in Hname as [_ ->].
  apply bind_inv in Hrun as (email & w1 & Hemail & Hrun).
  apply ask_inv in Hemail as [_ ->].
  apply bind_inv in Hrun as (out & w1 & Hout & Hrun).
  apply ask_inv in Hout as [_ ->].
  apply bind_inv in Hrun as (diffhead & w1 & Hhead & Hrun).
  apply lift_inv in Hhead as [_ ->].
  apply bind_inv in Hrun as (u & w1 & Hreb & Hrun).
  apply bind_inv in Hrun as (l & w2 & Hl & Hrun).
  apply read_inv in Hl as [-> ->].
  apply bind_inv in Hrun as (skip_ & w2 & Hs & Hrun).
  apply read_inv in Hs as [-> ->].
  apply bind_inv in Hrun as (result & w2 & Hloop & Hrun).
  destruct result as [page'|].
  - apply ret_inv in Hrun as [Hpage ->]. subst page'.
    eapply gtcheck_loop_page. exact Hloop.
  - destruct (truthy diffhead).
    + exec. discriminate.
    + apply bind_inv in Hrun as (l & w3 & Hl & Hrun).
      apply read_inv in Hl as [-> ->].
      destruct (difflist (session w2)).
      * exec. discriminate.
      * apply bind_inv in Hrun as (u' & w3 & Hskip & Hrun).
        eapply IH. exact Hrun.
Qed.

End PageShown.

(** X10: a run of [gtcheck] that returns a page has made no call but the
    link of the image folder and, when [session['addcc']] is set, the
    staging of clean copies: it writes no file, commits, unstages, checks
    out and removes nothing and leaves the git identity; and it leaves
    the folder, the reservation, the keyboard language, the undo snapshot
    and the two toggles of the session as they were. *)
Theorem gtcheck_only_links_and_stages :
  forall (env : Env) (fuel : nat) (reponame : string) (w w' : World)
         (page : Page),
    gtcheck env fuel reponame w = Ok (page, w') ->
    (exists evs,
       trace w' = trace w ++ evs /\
       forallb (page_call (addcc (session w))) evs = true) /\
    folder (session w') = folder (session w) /\
    reservefile (session w') = reservefile (session w) /\
    vkeylang (session w') = vkeylang (session w) /\
    undo_fpath (session w') = undo_fpath (session w) /\
    undo_value (session w') = undo_value (session w) /\
    skipcc (session w') = skipcc (session w) /\
    addcc (session w') = addcc (session w).
Proof.
  intros env fuel reponame w w' page Hrun.
  exact (gtcheck_gtcheck_keeps env fuel reponame w w' page Hrun).
Qed.

Lemma gtcheck_only_links_and_stages_witness :
  trace Demo.w_first =
    trace Demo.start ++ [Symlink "/app/static/symlink/book" "/data/book"] /\
  reservefile (session Demo.w_first) = reservefile (session Demo.start).
Proof.
  assert (Hrun : gtcheck Demo.review_env 5 "book" Demo.start
                 = Ok (Demo.page_of Demo.r_first, Demo.w_first))
    by (vm_compute; reflexivity).
  destruct (gtcheck_only_links_and_stages Demo.review_env 5 "book" Demo.start
              Demo.w_first (Demo.page_of Demo.r_first) Hrun)
    as (_ & _ & Hrf & _).
  split; [vm_compute; reflexivity|exact Hrf].
Defined.

(** X11: the two toggles are never stored: in every world of a review
    [session['skipcc']] and [session['addcc']] are absent. *)
Theorem review_never_stores_toggles :
  forall w : World,
    reachable w ->
    skipcc (session w) = None /\ addcc (session w) = None.
Proof. exact reachable_toggles. Qed.

Lemma review_never_stores_toggles_witness :
  skipcc (session Demo.w_staged) = None /\
  addcc (session Demo.w_staged) = None.
Proof.
  apply (review_never_stores_toggles Demo.w_staged).
  exact demo_reachable_staged.
Defined.

(** X12: a clean copy stops the request where the toggle is absent: for a
    file that is not deleted, whose working text is its original text up
    to surrounding white space, lines 176 to 189 raise [KeyError] when the
    session holds no [skipcc] (as in every world of a review). *)
Theorem clean_copy_without_toggle_raises :
  forall (env : Env) (reponame name email diffhead : string)
         (idx nc : Z) (filename : option string) (item : DiffItem)
         (origtext difftext content : string) (w : World),
    deleted_file item = false ->
    no_b_path item = false ->
    read_text env (trace w)
      (joinpath (folder (session w)) (or_empty (b_path item))) = Ok content ->
    PyStr.strip origtext = PyStr.strip (PyStr.lstrip_blank content) ->
    skipcc (session w) = None ->
    gtcheck_present env reponame name email diffhead idx nc filename item
      origtext difftext w = Raise KeyError.
Proof.
  intros env reponame name email diffhead idx nc filename item origtext
    difftext content w Hdel Hpath Hread Hsame Htoggle.
  unfold gtcheck_present. rewrite Hdel, Hpath. cbn [orb].
  destruct ((String.eqb origtext EmptyString && negb false) || new_file item);
    unfold bind, assign, ret, read, ask, read_key;
    cbn [session trace log folder skipcc set_modtype fst snd];
    rewrite Hread; cbn [fst snd]; rewrite Hsame, String.eqb_refl;
    cbn [session skipcc set_modtype]; rewrite Htoggle; reflexivity.
Qed.

Lemma clean_copy_without_toggle_raises_witness :
  gtcheck_present Demo.clean_env "book" "Checker" "checker@example.org"
    EmptyString 0 0 (Some "b.gt.txt") Demo.item_b "same" EmptyString
    Demo.start = Raise KeyError.
Proof.
  apply (clean_copy_without_toggle_raises Demo.clean_env "book" "Checker"
           "checker@example.org" EmptyString 0 0 (Some "b.gt.txt")
           Demo.item_b "same" EmptyString "same" Demo.start);
    reflexivity.
Defined.

(** X13: the queue holds ground truth files only: in every world of a
    review every entry of [session['difflist']] is a place left empty or
    a path that holds [.gt.txt]. *)
Theorem review_queue_holds_gt_files :
  forall (w : World) (entry : option string),
    reachable w ->
    In entry (difflist (session w)) ->
    match entry with
    | Some path => PyStr.contains ".gt.txt" path = true
    | None => True
    end.
Proof.
  intros w entry Hreach Hin.
  pose proof (reachable_gt w Hreach) as Hq. unfold queue_gt in Hq.
  rewrite forallb_forall in Hq. specialize (Hq entry Hin).
  destruct entry; [exact Hq|exact I].
Qed.

Lemma review_queue_holds_gt_files_witness :
  PyStr.contains ".gt.txt" "c.gt.txt" = true.
Proof.
  apply (review_queue_holds_gt_files Demo.w_first (Some "c.gt.txt")).
  - exact demo_reachable_first.
  - vm_compute. right. left. reflexivity.
Defined.

(** X14: the index stored with a page is always 0: in every world of a
    review [session['fileidx']] is absent or 0, so that the entry
    [gtcheckedit] takes out of the queue is the one at the cursor. *)
Theorem review_fileidx_is_zero :
  forall w : World,
    reachable w ->
    fileidx (session w) = None \/ fileidx (session w) = Some 0.
Proof.
  intros w Hreach.
  pose proof (reachable_queue_page w Hreach) as (_ & _ & _ & Hz & _).
  exact Hz.
Qed.

Lemma review_fileidx_is_zero_witness :
  fileidx (session Demo.w_staged) = None \/
  fileidx (session Demo.w_staged) = Some 0.
Proof.
  apply (review_fileidx_is_zero Demo.w_staged).
  exact demo_reachable_staged.
Defined.

(** X15: the session holds what the page of a file shows: when [gtcheck]
    returns the page of a file, [session['modtext']] is the text shown,
    [session['fname']] is the folder joined with [session['fpath']] and
    ends in the file name shown, the counts of the page are the counts of
    the session, and the kind of modification and the index are stored. *)
Theorem gtcheck_page_shows_session :
  forall (env : Env) (fuel : nat) (reponame : string) (w w' : World)
         (p : FilePage),
    gtcheck env fuel reponame w = Ok (PageFile p, w') ->
    page_shows p (session w').
Proof.
  intros env fuel reponame w w' p Hrun.
  exact (gtcheck_page env fuel reponame w w' p Hrun).
Qed.

Lemma gtcheck_page_shows_session_witness :
  exists p : FilePage,
    Demo.page_of Demo.r_first = PageFile p /\
    page_shows p (session Demo.w_first).
Proof.
  assert (Hrun : exists p,
             gtcheck Demo.review_env 5 "book" Demo.start
             = Ok (PageFile p, Demo.w_first))
    by (eexists; vm_compute; reflexivity).
  destruct Hrun as (p & Hrun). exists p. split.
  - unfold Demo.page_of, Demo.r_first. rewrite Hrun. reflexivity.
  - apply (gtcheck_page_shows_session Demo.review_env 5 "book" Demo.start
             Demo.w_first p Hrun).
Defined.

(** X16: a selection that is none of [commit], [stash] and [add] is a
    [skip]: whatever the form holds there, [gtcheckedit] runs as on the
    same form with the selection [skip]. *)
Theorem gtcheckedit_unknown_selection_skips :
  forall (env : Env) (fuel : nat) (reponame : string) (data : Form)
         (w : World),
    form_selection data <> "commit" ->
    form_selection data <> "stash" ->
    form_selection data <> "add" ->
    gtcheckedit env fuel reponame data w =
    gtcheckedit env fuel reponame (with_selection "skip" data) w.
Proof.
  intros env fuel reponame data w Hc Hs Ha.
  apply String.eqb_neq in Hc, Hs, Ha.
  unfold gtcheckedit, gtcheckedit_finish, gtcheckedit_decision, gtcheckedit_undo, with_selection.
  cbn [form_selection form_commitmsg form_modtext form_vkeylang form_name
       form_email form_undo].
  rewrite Hc, Hs, Ha.
  change (String.eqb "skip" "commit") with false.
  change (String.eqb "skip" "stash") with false.
  change (String.eqb "skip" "add") with false.
  reflexivity.
Qed.

Lemma gtcheckedit_unknown_selection_skips_witness :
  gtcheckedit Demo.review_env 5 "book" (Demo.form "later" None) Demo.w_first =
  gtcheckedit Demo.review_env 5 "book"
    (with_selection "skip" (Demo.form "later" None)) Demo.w_first.
Proof.
  apply (gtcheckedit_unknown_selection_skips Demo.review_env 5 "book"
           (Demo.form "later" None) Demo.w_first); discriminate.
Defined.

(** X17: with no file left ([difflen - skip = 0]) and a selection that
    is not [commit], the form plays no part: [gtcheckedit] empties the
    queue and runs [gtcheck]; the undo, the text, the git identity and the
    keyboard language of the form are not looked at, and no call is made
    before [gtcheck]. *)
Theorem gtcheckedit_nothing_left :
  forall (env : Env) (fuel : nat) (reponame : string) (data : Form)
         (w : World),
    difflen (session w) - skip (session w) = 0 ->
    form_selection data <> "commit" ->
    gtcheckedit env fuel reponame data w =
    gtcheck env fuel reponame
      (mkWorld (set_difflist [] (session w)) (trace w) (log w)).
Proof.
  intros env fuel reponame data w Hleft Hsel.
  apply String.eqb_neq in Hsel.
  unfold gtcheckedit. unfold bind at 1. cbn [read].
  unfold bind at 1. cbn [read]. rewrite Hleft. cbn [Z.eqb].
  rewrite Hsel. reflexivity.
Qed.

Lemma gtcheckedit_nothing_left_witness :
  gtcheckedit Demo.review_env 5 "book" (Demo.form "add" (Some "1")) Demo.start =
  gtcheck Demo.review_env 5 "book"
    (mkWorld (set_difflist [] (session Demo.start)) (trace Demo.start)
       (log Demo.start)).
Proof.
  apply (gtcheckedit_nothing_left Demo.review_env 5 "book"
           (Demo.form "add" (Some "1")) Demo.start).
  - reflexivity.
  - discriminate.
Defined.
(** ** Further properties of the decision on a file *)

Section Decided.

Variable env : Env.

Ltac peel Hrun :=
  repeat match type of Hrun with
    | bind _ _ _ = Ok _ =>
        let a := fresh "a" in
        let w1 := fresh "w" in
        let H1 := fresh "Hstep" in
        apply bind_inv in Hrun as (a & w1 & H1 & Hrun); cbv beta in Hrun
    end.

Ltac use_tests :=
  repeat match goal with
    | H : String.eqb (form_selection _) _ = _ |- _ => rewrite H; clear H
    | H : truthy _ = _ |- _ => rewrite H; clear H
    | H : negb (_ =? 0) = _ |- _ => rewrite H; clear H
    end.

Lemma gtcheckedit_snapshot_kept (fuel : nat) (reponame : string)
  (data : Form) (w w' : World) (page : Page) :
  gtcheckedit env fuel reponame data w = Ok (page, w') ->
  difflen (session w) - skip (session w) <> 0 ->
  exists path shown,
    fpath (session w) = Some path /\
    modtext (session w) = Some shown /\
    undo_fpath (session w') = joinpath (folder (session w)) path /\
    undo_value (session w') = shown /\
    vkeylang (session w') = form_vkeylang data.
Proof.
  intros Hrun Hleft. unfold gtcheckedit, gtcheckedit_finish in Hrun.
  apply bind_inv in Hrun as (difflen_ & w1 & Hd & Hrun).
  apply read_inv in Hd as [-> ->].
  apply bind_inv in Hrun as (skip_ & w1 & Hs & Hrun).
  apply read_inv in Hs as [-> ->].
  apply Z.eqb_neq in Hleft. rewrite Hleft in Hrun.
  unfold gtcheckedit_decision, gtcheckedit_undo, write_if_changed,
    dump_reservation in Hrun.
  peel Hrun.
  apply gtcheck_gtcheck_keeps in Hrun
    as (_ & _ & _ & Hv & Hp & Hu & _ & _).
  rewrite Hv, Hp, Hu. clear Hv Hp Hu.
  exec_calls; do 2 eexists; repeat split; eassumption.
Qed.

Lemma gtcheckedit_reservation (fuel : nat) (reponame : string)
  (data : Form) (w w' : World) (page : Page) :
  gtcheckedit env fuel reponame data w = Ok (page, w') ->
  reservefile (session w') =
    let rf := reservefile (session w) in
    if difflen (session w) - skip (session w) =? 0 then rf
    else
      if String.eqb (form_selection data) "commit"
      then
        if truthy (get_or (form_undo data) EmptyString)
        then
          if negb (difflen (session w) + 1 - skip (session w) =? 0)
          then set_Dateien_bearbeitet
                 (Dateien_gesamt rf - (difflen (session w) + 1)) rf
          else rf
        else set_Dateien_bearbeitet
               (Dateien_gesamt rf - difflen (session w)) rf
      else if String.eqb (form_selection data) "stash"
           then set_Dateien_gesamt (Dateien_gesamt rf - 1) rf
           else rf.
Proof.
  intros Hrun. unfold gtcheckedit, gtcheckedit_finish in Hrun.
  apply bind_inv in Hrun as (difflen_ & w1 & Hd & Hrun).
  apply read_inv in Hd as [-> ->].
  apply bind_inv in Hrun as (skip_ & w1 & Hs & Hrun).
  apply read_inv in Hs as [-> ->].
  cbv zeta.
  destruct (difflen (session w) - skip (session w) =? 0) eqn:Hleft.
  - peel Hrun.
    apply gtcheck_gtcheck_keeps in Hrun as (_ & _ & Hr & _).
    rewrite Hr. clear Hr. exec; reflexivity.
  - unfold gtcheckedit_decision, gtcheckedit_undo, write_if_changed,
      dump_reservation in Hrun.
    peel Hrun.
    apply gtcheck_gtcheck_keeps in Hrun as (_ & _ & Hr & _).
    rewrite Hr. clear Hr.
    exec_calls;
      try match goal with
          | H : negb (difflen (session w) - skip (session w) =? 0) = false
            |- _ => rewrite Hleft in H; discriminate H
          end;
      use_tests; reflexivity.
Qed.

Lemma gtcheckedit_add_calls (fuel : nat) (reponame : string)
  (data : Form) (w w' : World) (page : Page) :
  gtcheckedit env fuel reponame data w = Ok (page, w') ->
  difflen (session w) - skip (session w) <> 0 ->
  form_selection data = "add" ->
  truthy (get_or (form_undo data) EmptyString) = false ->
  exists path shown evs,
    fpath (session w) = Some path /\
    modtext (session w) = Some shown /\
    trace w' =
      trace w
      ++ [SetConfig "name" (get_or (form_name data) "GTChecker");
          SetConfig "email" (get_or (form_email data) EmptyString)]
      ++ (if negb (String.eqb (PyStr.replace crlf lf shown)
                     (PyStr.replace crlf lf (form_modtext data)))
             || match modtype (session w) with
                | Some kind => String.eqb kind "merge"
                | None => false
                end
          then [WriteFile (joinpath (folder (session w)) path)
                  (PyStr.replace crlf lf (form_modtext data))]
          else [])
      ++ [GitAdd (joinpath (folder (session w)) path)] ++ evs /\
    forallb (page_call (addcc (session w))) evs = true.
Proof.
  intros Hrun Hleft Hsel Hundo. unfold gtcheckedit, gtcheckedit_finish in Hrun.
  apply bind_inv in Hrun as (difflen_ & w1 & Hd & Hrun).
  apply read_inv in Hd as [-> ->].
  apply bind_inv in Hrun as (skip_ & w1 & Hs & Hrun).
  apply read_inv in Hs as [-> ->].
  apply Z.eqb_neq in Hleft. rewrite Hleft in Hrun.
  unfold gtcheckedit_decision, gtcheckedit_undo in Hrun.
  rewrite Hsel, Hundo in Hrun.
  change (String.eqb "add" "commit") with false in Hrun.
  change (String.eqb "add" "stash") with false in Hrun.
  change (String.eqb "add" "add") with true in Hrun.
  unfold write_if_changed in Hrun.
  peel Hrun.
  apply gtcheck_gtcheck_keeps in Hrun as ((evs & Ht & Hev) & _).
  exec_calls;
    try match goal with
        | H : false = true |- _ => discriminate H
        | H : true = false |- _ => discriminate H
        end;
    do 2 eexists; exists evs;
    (split; [eassumption|]); (split; [eassumption|]);
    (split; [|exact Hev]);
    rewrite Ht; rewrite <- ?app_assoc; cbn [app];
    repeat match goal with
      | H : negb (String.eqb _ _) = _ |- _ => rewrite H; clear H
      | H : modtype _ = Some _ |- _ => rewrite H; clear H
      | H : String.eqb _ "merge" = _ |- _ => rewrite H; clear H
      | H : _ = String.eqb _ "merge" |- _ => rewrite <- H; clear H
      end;
    reflexivity.
Qed.

End Decided.

(** X18: after a decision on a file the undo snapshot is the snapshot of
    that file: when [gtcheckedit] returns a page and files were left,
    [session['undo_fpath']] is the folder joined with the path of the file
    the decision was about and [session['undo_value']] is the text
    [gtcheck] had shown for it (not the text submitted), whatever the
    decision and whatever [gtcheck] does afterwards; the keyboard
    language is the one of the form. *)
Theorem gtcheckedit_keeps_snapshot_of_shown_text :
  forall (env : Env) (fuel : nat) (reponame : string) (data : Form)
         (w w' : World) (page : Page),
    gtcheckedit env fuel reponame data w = Ok (page, w') ->
    difflen (session w) - skip (session w) <> 0 ->
    exists path shown,
      fpath (session w) = Some path /\
      modtext (session w) = Some shown /\
      undo_fpath (session w') = joinpath (folder (session w)) path /\
      undo_value (session w') = shown /\
      vkeylang (session w') = form_vkeylang data.
Proof.
  intros env fuel reponame data w w' page Hrun Hleft.
  exact (gtcheckedit_snapshot_kept env fuel reponame data w w' page Hrun Hleft).
Qed.

Lemma gtcheckedit_keeps_snapshot_of_shown_text_witness :
  exists path shown,
    fpath (session Demo.w_first) = Some path /\
    modtext (session Demo.w_first) = Some shown /\
    undo_fpath (session Demo.w_added)
      = joinpath (folder (session Demo.w_first)) path /\
    undo_value (session Demo.w_added) = shown /\
    vkeylang (session Demo.w_added) = form_vkeylang (Demo.form "add" None).
Proof.
  assert (Hrun : gtcheckedit Demo.review_env 5 "book" (Demo.form "add" None)
                   Demo.w_first
                 = Ok (Demo.page_of Demo.r_added, Demo.w_added))
    by (vm_compute; reflexivity).
  apply (gtcheckedit_keeps_snapshot_of_shown_text Demo.review_env 5 "book"
           (Demo.form "add" None) Demo.w_first Demo.w_added
           (Demo.page_of Demo.r_added) Hrun).
  vm_compute. discriminate.
Defined.

(** X19: the counts of the reservation: when [gtcheckedit] returns a
    page, the reservation of the session is the one it started with,
    but for two decisions made while files are left: [stash] takes one
    off [Dateien_gesamt], and [commit] sets [Dateien_bearbeitet] to
    [Dateien_gesamt] less [difflen] as it is before the file is taken
    off (one more after an undo; after an undo that leaves
    [difflen = skip] it sets nothing). *)
Theorem gtcheckedit_reservation_counts :
  forall (env : Env) (fuel : nat) (reponame : string) (data : Form)
         (w w' : World) (page : Page),
    gtcheckedit env fuel reponame data w = Ok (page, w') ->
    reservefile (session w') =
      let rf := reservefile (session w) in
      if difflen (session w) - skip (session w) =? 0 then rf
      else
        if String.eqb (form_selection data) "commit"
        then
          if truthy (get_or (form_undo data) EmptyString)
          then
            if negb (difflen (session w) + 1 - skip (session w) =? 0)
            then set_Dateien_bearbeitet
                   (Dateien_gesamt rf - (difflen (session w) + 1)) rf
            else rf
          else set_Dateien_bearbeitet
                 (Dateien_gesamt rf - difflen (session w)) rf
        else if String.eqb (form_selection data) "stash"
             then set_Dateien_gesamt (Dateien_gesamt rf - 1) rf
             else rf.
Proof.
  intros env fuel reponame data w w' page Hrun.
  exact (gtcheckedit_reservation env fuel reponame data w w' page Hrun).
Qed.

Lemma gtcheckedit_reservation_counts_witness :
  Dateien_gesamt (reservefile (session Demo.w_stashed)) =
    Dateien_gesamt (reservefile (session Demo.w_skipped)) - 1 /\
  Dateien_bearbeitet (reservefile (session Demo.w_committed)) =
    Dateien_gesamt (reservefile (session Demo.w_first))
    - difflen (session Demo.w_first).
Proof.
  assert (Hstash : gtcheckedit Demo.review_env 5 "book"
                     (Demo.form "stash" None) Demo.w_skipped
                   = Ok (Demo.page_of Demo.r_stashed, Demo.w_stashed))
    by (vm_compute; reflexivity).
  assert (Hcommit : gtcheckedit Demo.review_env 5 "book"
                      (Demo.form "commit" None) Demo.w_first
                    = Ok (Demo.page_of Demo.r_committed, Demo.w_committed))
    by (vm_compute; reflexivity).
  rewrite (gtcheckedit_reservation_counts Demo.review_env 5 "book"
             (Demo.form "stash" None) Demo.w_skipped Demo.w_stashed
             (Demo.page_of Demo.r_stashed) Hstash).
  rewrite (gtcheckedit_reservation_counts Demo.review_env 5 "book"
             (Demo.form "commit" None) Demo.w_first Demo.w_committed
             (Demo.page_of Demo.r_committed) Hcommit).
  split; vm_compute; reflexivity.
Defined.

(** X20: the calls of an [add] decision without undo, while files are
    left: the two writes of the git identity, then the write of the
    submitted text to the file when it differs from the text shown (line
    breaks normalised) or the file is a merge, then the staging of the
    file, then the calls of [gtcheck].  A text the user left as it was is
    staged without being written. *)
Theorem gtcheckedit_add_writes_only_changed_text :
  forall (env : Env) (fuel : nat) (reponame : string) (data : Form)
         (w w' : World) (page : Page),
    gtcheckedit env fuel reponame data w = Ok (page, w') ->
    difflen (session w) - skip (session w) <> 0 ->
    form_selection data = "add" ->
    truthy (get_or (form_undo data) EmptyString) = false ->
    exists path shown evs,
      fpath (session w) = Some path /\
      modtext (session w) = Some shown /\
      trace w' =
        trace w
        ++ [SetConfig "name" (get_or (form_name data) "GTChecker");
            SetConfig "email" (get_or (form_email data) EmptyString)]
        ++ (if negb (String.eqb (PyStr.replace crlf lf shown)
                       (PyStr.replace crlf lf (form_modtext data)))
               || match modtype (session w) with
                  | Some kind => String.eqb kind "merge"
                  | None => false
                  end
            then [WriteFile (joinpath (folder (session w)) path)
                    (PyStr.replace crlf lf (form_modtext data))]
            else [])
        ++ [GitAdd (joinpath (folder (session w)) path)] ++ evs /\
      forallb (page_call (addcc (session w))) evs = true.
Proof.
  intros env fuel reponame data w w' page Hrun Hleft Hsel Hundo.
  exact (gtcheckedit_add_calls env fuel reponame data w w' page Hrun Hleft
           Hsel Hundo).
Qed.

Lemma gtcheckedit_add_writes_only_changed_text_witness :
  exists evs,
    trace Demo.w_added =
      trace Demo.w_first
      ++ [SetConfig "name" "GTChecker"; SetConfig "email" EmptyString;
          GitAdd "/data/book/a.gt.txt"] ++ evs /\
    forallb (page_call (addcc (session Demo.w_first))) evs = true.
Proof.
  assert (Hrun : gtcheckedit Demo.review_env 5 "book" (Demo.form "add" None)
                   Demo.w_first
                 = Ok (Demo.page_of Demo.r_added, Demo.w_added))
    by (vm_compute; reflexivity).
  assert (Hleft : difflen (session Demo.w_first) - skip (session Demo.w_first)
                  <> 0) by (vm_compute; discriminate).
  destruct (gtcheckedit_add_writes_only_changed_text Demo.review_env 5 "book"
              (Demo.form "add" None) Demo.w_first Demo.w_added
              (Demo.page_of Demo.r_added) Hrun Hleft eq_refl eq_refl)
    as (path & shown & evs & Hpath & Hshown & Htrace & Hevs).
  exists evs. split; [|exact Hevs].
  rewrite Htrace.
  assert (Hp : path = "a.gt.txt")
    by (vm_compute in Hpath; inversion Hpath; reflexivity).
  assert (Hs : shown = "Hat")
    by (vm_compute in Hshown; inversion Hshown; reflexivity).
  subst path shown. reflexivity.
Defined.
(** ** Further properties of the loop of [gtcheck] *)

Section LoopMore.

Variable env : Env.

Lemma remove_at_middle {A} (pre post : list A) (x : A) :
  PyList.remove_at (length pre) (pre ++ x :: post) = pre ++ post.
Proof. induction pre as [|y pre IH]; [reflexivity|]. simpl. rewrite IH. reflexivity. Qed.

(** [pop_idx] at the end of a prefix takes out the entry behind it. *)
Lemma pop_idx_list_middle {A} (pre post : list A) (x : A) :
  pop_idx_list (pre ++ x :: post) (Z.of_nat (length pre) + 0)
  = Ok (pre ++ post).
Proof.
  unfold pop_idx_list, PyList.pop.
  rewrite Z.add_0_r, length_app. cbn [length].
  replace (Z.of_nat (length pre + S (length post)) >? Z.of_nat (length pre))
    with true by (symmetry; apply Z.gtb_lt; lia).
  cbv zeta.
  replace (Z.of_nat (length pre) <? 0) with false
    by (symmetry; apply Z.ltb_ge; lia).
  cbv iota.
  replace (Z.of_nat (length pre) <? 0) with false
    by (symmetry; apply Z.ltb_ge; lia).
  replace (Z.of_nat (length pre + S (length post)) <=? Z.of_nat (length pre))
    with false by (symmetry; apply Z.leb_gt; lia).
  cbn [orb]. rewrite Nat2Z.id, remove_at_middle. reflexivity.
Qed.

(** [pop_idx] at the length of the list leaves it. *)
Lemma pop_idx_list_end {A} (l : list A) (i : Z) :
  Z.of_nat (length l) <= i -> pop_idx_list l i = Ok l.
Proof.
  intros Hi. unfold pop_idx_list.
  replace (Z.of_nat (length l) >? i) with false; [reflexivity|].
  symmetry. rewrite Z.gtb_ltb. apply Z.ltb_ge. exact Hi.
Qed.

(** The turn of the loop on a file without blobs. *)
Lemma gtcheck_file_blobless (reponame name email diffhead : string)
  (idx nc : Z) (filename : option string) (item : DiffItem)
  (others : list DiffItem) (w : World) (l' : list (option string)) :
  index_diff env (trace w) (Some [filename]) true = Ok (item :: others) ->
  a_blob item = None -> b_blob item = None ->
  pop_idx_list (difflist (session w)) (skip (session w) + idx) = Ok l' ->
  gtcheck_file env reponame name email diffhead idx nc filename w =
  Ok (Continue (nc + 1),
      mkWorld (set_difflist l' (session w)) (trace w) (log w)).
Proof.
  intros Hitem Ha Hb Hpop.
  unfold gtcheck_file, find_item.
  unfold bind at 1. unfold bind at 1. unfold ask at 1. rewrite Hitem.
  cbn [ret]. rewrite Ha, Hb.
  unfold pop_idx. unfold bind, read, lift, assign, ret.
  cbn [session trace log]. rewrite Hpop. reflexivity.
Qed.

End LoopMore.

(** X21: the index the loop of [gtcheck] takes a file without blobs out
    at is counted on the queue as it was when the loop began: of two
    files without blobs at the end of the queue the loop takes out the
    first and leaves the second in the queue. *)
Theorem gtcheck_loop_leaves_second_blobless_file :
  forall (env : Env) (reponame name email diffhead : string) (w : World)
         (pre : list (option string)) (a b : option string)
         (item_a item_b : DiffItem) (others_a others_b : list DiffItem),
    difflist (session w) = pre ++ [a; b] ->
    skip (session w) = Z.of_nat (length pre) ->
    index_diff env (trace w) (Some [a]) true = Ok (item_a :: others_a) ->
    a_blob item_a = None -> b_blob item_a = None ->
    index_diff env (trace w) (Some [b]) true = Ok (item_b :: others_b) ->
    a_blob item_b = None -> b_blob item_b = None ->
    gtcheck_loop env reponame name email diffhead 0 0
      (PyList.slice_from (difflist (session w)) (skip (session w))) w =
    Ok (None, mkWorld (set_difflist (pre ++ [b]) (session w)) (trace w) (log w)).
Proof.
  intros env reponame name email diffhead w pre a b item_a item_b
    others_a others_b Hqueue Hskip Ha Haa Hab Hb Hba Hbb.
  assert (Hslice : PyList.slice_from (difflist (session w)) (skip (session w))
                   = [a; b]).
  { unfold PyList.slice_from. rewrite Hqueue, Hskip.
    replace (Z.of_nat (length pre) <? 0) with false
      by (symmetry; apply Z.ltb_ge; lia).
    rewrite Nat2Z.id. rewrite skipn_app, Nat.sub_diag, skipn_all.
    reflexivity. }
  rewrite Hslice. cbn [gtcheck_loop].
  unfold bind at 1.
  rewrite (gtcheck_file_blobless env reponame name email diffhead 0 0 a
             item_a others_a w (pre ++ [b]) Ha Haa Hab).
  2: { rewrite Hqueue, Hskip. apply (pop_idx_list_middle pre [b] a). }
  unfold bind at 1.
  rewrite (gtcheck_file_blobless env reponame name email diffhead (0 + 1)
             (0 + 1) b item_b others_b
             (mkWorld (set_difflist (pre ++ [b]) (session w)) (trace w) (log w))
             (pre ++ [b]) Hb Hba Hbb).
  2: { cbn [session difflist skip set_difflist]. rewrite Hskip.
       apply pop_idx_list_end. rewrite length_app. cbn [length]. lia. }
  reflexivity.
Qed.

Lemma gtcheck_loop_leaves_second_blobless_file_witness :
  gtcheck_loop Blobless.env "book" "Checker" "checker@example.org" EmptyString
    0 0
    (PyList.slice_from (difflist (session Blobless.start))
       (skip (session Blobless.start)))
    Blobless.start =
  Ok (None,
      mkWorld (set_difflist ([] ++ [Some "y.gt.txt"]) (session Blobless.start))
        (trace Blobless.start) (log Blobless.start)).
Proof.
  apply (gtcheck_loop_leaves_second_blobless_file Blobless.env "book"
           "Checker" "checker@example.org" EmptyString Blobless.start []
           (Some "x.gt.txt") (Some "y.gt.txt") Blobless.item_x Blobless.item_y
           [] []); reflexivity.
Defined.

(** X22: nothing to review: in a session with an empty queue and the
    cursor at 0 (as [gtcheckinit] stores it), on a repository with no
    changed ground truth file, [gtcheck] makes no call and returns the
    page without a file, or, when the repository has staged changes, the
    page of the staged files, with [difflen] set to 0 and no file left. *)
Theorem gtcheck_nothing_changed :
  forall (env : Env) (fuel : nat) (reponame : string) (w : World)
         (name email out : string) (items : list DiffItem),
    config_value env (trace w) "name" = Ok name ->
    config_value env (trace w) "email" = Ok email ->
    diff_cached_shortstat env (trace w) = Ok out ->
    index_diff env (trace w) None false = Ok items ->
    filter (fun it => PyStr.contains ".gt.txt" (a_path it)) items = [] ->
    difflist (session w) = [] ->
    skip (session w) = 0 ->
    gtcheck env (S fuel) reponame w =
    (let diffhead := hd EmptyString (PyStr.split " " (PyStr.strip out)) in
     if truthy diffhead
     then
       Ok (PageStaged reponame
             (if String.eqb name EmptyString then "GTChecker" else name)
             email (staged_commitmsg diffhead)
             ("Du hast " ++ PyStr.str_of_int 0
              ++ " Dateien übersprungen!.")%string "0",
           mkWorld (set_difflen 0 (set_difflist [] (session w)))
             (trace w) (log w))
     else
       Ok (PageNoFile,
           mkWorld (set_difflist [] (session w)) (trace w) (log w))).
Proof.
  intros env fuel reponame w name email out items Hname Hemail Hout Hitems
    Hnone Hqueue Hskip.
  cbn [gtcheck].
  unfold bind at 1. unfold ask at 1. rewrite Hname.
  unfold bind at 1. unfold ask at 1. rewrite Hemail.
  unfold bind at 1. unfold ask at 1. rewrite Hout.
  unfold bind at 1. unfold lift at 1.
  pose proof (split_from_nonempty " " (PyStr.strip out) 0%nat EmptyString)
    as Hne.
  unfold PyStr.split.
  destruct (PyStr.split_from " " 0 "" (PyStr.strip out)) as [|diffhead rest];
    [contradiction|].
  cbn [PyList.item nth_error hd].
  unfold bind at 1. unfold gtcheck_rebuild.
  unfold bind at 1. cbn [read]. unfold bind at 1. cbn [read].
  rewrite Hqueue, Hskip.
  unfold bind at 1. unfold ask at 1. rewrite Hitems, Hnone.
  cbn [map length Z.of_nat Z.leb Z.compare].
  unfold bind at 1. cbn [assign]. cbn [assign session trace log].
  unfold bind at 1. cbn [read session difflist set_difflist].
  unfold bind at 1. cbn [read session skip set_difflist]. rewrite Hskip.
  change (PyList.times None 0) with (@nil (option string)).
  unfold bind at 1.
  change (PyList.slice_from (@nil (option string)) 0)
    with (@nil (option string)).
  cbn [gtcheck_loop ret].
  destruct (truthy diffhead).
  - unfold bind, read, assign, ret.
    cbn [session trace log skip set_difflist]. rewrite Hskip. reflexivity.
  - unfold bind at 1. cbn [read session difflist set_difflist ret].
    reflexivity.
Qed.

Lemma gtcheck_nothing_changed_witness :
  gtcheck (Demo.env []) 1 "book" Demo.start =
  (let diffhead := hd EmptyString (PyStr.split " " (PyStr.strip EmptyString)) in
   if truthy diffhead
   then
     Ok (PageStaged "book"
           (if String.eqb "Checker" EmptyString then "GTChecker" else "Checker")
           "checker@example.org" (staged_commitmsg diffhead)
           ("Du hast " ++ PyStr.str_of_int 0
            ++ " Dateien übersprungen!.")%string "0",
         mkWorld (set_difflen 0 (set_difflist [] (session Demo.start)))
           (trace Demo.start) (log Demo.start))
   else
     Ok (PageNoFile,
         mkWorld (set_difflist [] (session Demo.start)) (trace Demo.start)
           (log Demo.start))).
Proof.
  apply (gtcheck_nothing_changed (Demo.env []) 0 "book" Demo.start
           "Checker" "checker@example.org" EmptyString []); reflexivity.
Defined.
(** ** The neighbours of an image *)

Section ImagesMore.

Implicit Types (c : ascii) (s p d q : string).

Lemma span_digits_run d q :
  all_digits d = true -> Images.no_digit q = true ->
  Images.span_digits (d ++ q) = (d, q).
Proof.
  intros Hd Hq. induction d as [|c d IH].
  - cbn [append]. destruct q as [|c q]; [reflexivity|].
    cbn [Images.no_digit] in Hq. apply andb_prop in Hq as [Hc _].
    apply negb_true_iff in Hc. cbn [Images.span_digits]. rewrite Hc.
    reflexivity.
  - cbn [all_digits] in Hd. apply andb_prop in Hd as [Hc Hd].
    cbn [append Images.span_digits]. rewrite Hc, (IH Hd). reflexivity.
Qed.

Lemma number_tail_run d q :
  d <> EmptyString -> all_digits d = true -> Images.no_digit q = true ->
  Images.number_tail (d ++ q) = Some (d, q).
Proof.
  intros Hne Hd Hq. unfold Images.number_tail.
  rewrite (span_digits_run d q Hd Hq).
  apply String.eqb_neq in Hne. rewrite Hne, Hq. reflexivity.
Qed.

Lemma no_digit_app s1 s2 :
  Images.no_digit (s1 ++ s2) = Images.no_digit s1 && Images.no_digit s2.
Proof.
  induction s1 as [|c s1 IH]; [reflexivity|].
  cbn [append Images.no_digit]. rewrite IH, andb_assoc. reflexivity.
Qed.

Lemma no_digit_digits d :
  d <> EmptyString -> all_digits d = true -> Images.no_digit d = false.
Proof.
  destruct d as [|c d]; [contradiction|]. intros _ Hd.
  cbn [all_digits] in Hd. apply andb_prop in Hd as [Hc _].
  cbn [Images.no_digit]. rewrite Hc. reflexivity.
Qed.

(** In front of the last number no number reaches the end of the name. *)
Lemma number_tail_before p d q :
  p <> EmptyString -> no_digit_end p = true ->
  d <> EmptyString -> all_digits d = true ->
  Images.number_tail (p ++ d ++ q) = None.
Proof.
  intros Hp Hend Hne Hd. unfold Images.number_tail.
  assert (Hrest : Images.no_digit (snd (Images.span_digits (p ++ d ++ q)))
                  = false).
  { induction p as [|c p IH]; [contradiction|].
    cbn [append Images.span_digits].
    destruct (Images.is_digit c) eqn:Hc.
    - destruct p as [|c' p].
      + cbn [no_digit_end] in Hend. rewrite Hc in Hend. discriminate.
      + assert (Hp' : String c' p <> EmptyString) by discriminate.
        specialize (IH Hp' Hend).
        destruct (Images.span_digits (String c' p ++ d ++ q)) as [d1 r1].
        exact IH.
    - cbn [snd Images.no_digit]. rewrite Hc. cbn [negb andb].
      rewrite !no_digit_app, (no_digit_digits d Hne Hd).
      rewrite andb_false_l, andb_false_r. reflexivity. }
  destruct (Images.span_digits (p ++ d ++ q)) as [d1 r1].
  cbn [snd] in Hrest. rewrite Hrest, andb_false_r. reflexivity.
Qed.

(** The match of the pattern on a name: the number is the last run of
    digits. *)
Lemma regexnum_last_number p d q :
  lacks PyStr.newline p = true -> no_digit_end p = true ->
  d <> EmptyString -> all_digits d = true -> Images.no_digit q = true ->
  Images.regexnum (p ++ d ++ q) = Some (p, d, q).
Proof.
  intros Hnl Hend Hne Hd Hq. induction p as [|c p IH].
  - cbn [append]. destruct (d ++ q)%string eqn:Hs;
      cbn [Images.regexnum]; rewrite <- Hs;
      rewrite (number_tail_run d q Hne Hd Hq); reflexivity.
  - assert (Hnone : Images.number_tail (String c p ++ d ++ q) = None)
      by (apply number_tail_before; try assumption; discriminate).
    cbn [append] in Hnone |- *. cbn [Images.regexnum]. rewrite Hnone.
    cbn [lacks] in Hnl. apply andb_prop in Hnl as [Hc Hnl].
    apply negb_true_iff in Hc. rewrite Hc.
    rewrite IH; [reflexivity|exact Hnl|].
    destruct p as [|c' p]; [reflexivity|exact Hend].
Qed.

Lemma regexnum_no_digit s :
  Images.no_digit s = true -> Images.regexnum s = None.
Proof.
  intros Hs.
  assert (Htail : forall t, Images.no_digit t = true ->
                            Images.number_tail t = None).
  { intros [|c t] Ht; [reflexivity|].
    cbn [Images.no_digit] in Ht. apply andb_prop in Ht as [Hc _].
    apply negb_true_iff in Hc. unfold Images.number_tail.
    cbn [Images.span_digits]. rewrite Hc. reflexivity. }
  induction s as [|c s IH]; [reflexivity|].
  cbn [Images.regexnum]. rewrite (Htail _ Hs).
  cbn [Images.no_digit] in Hs. apply andb_prop in Hs as [_ Hs].
  rewrite (IH Hs). destruct (Ascii.eqb c PyStr.newline); reflexivity.
Qed.

Lemma span_digits_sound s : forall d r,
  Images.span_digits s = (d, r) -> s = (d ++ r)%string.
Proof.
  induction s as [|c s IH]; intros d r H.
  - inversion H. reflexivity.
  - cbn [Images.span_digits] in H. destruct (Images.is_digit c).
    + destruct (Images.span_digits s) as [d1 r1]. inversion H. subst.
      cbn [append]. rewrite <- (IH d1 r eq_refl). reflexivity.
    + inversion H. reflexivity.
Qed.

Lemma regexnum_sound s : forall p d q,
  Images.regexnum s = Some (p, d, q) -> s = (p ++ d ++ q)%string.
Proof.
  induction s as [|c s IH]; intros p d q H.
  - cbn [Images.regexnum] in H.
    destruct (Images.number_tail EmptyString) as [[d1 r1]|] eqn:Ht;
      [|discriminate].
    unfold Images.number_tail in Ht. cbn in Ht. discriminate.
  - cbn [Images.regexnum] in H.
    destruct (Images.number_tail (String c s)) as [[d1 r1]|] eqn:Ht.
    + inversion H. subst. unfold Images.number_tail in Ht.
      destruct (Images.span_digits (String c s)) as [d2 r2] eqn:Hspan.
      destruct (negb (String.eqb d2 EmptyString) && Images.no_digit r2);
        [|discriminate].
      inversion Ht. subst. cbn [append].
      apply span_digits_sound. exact Hspan.
    + destruct (Ascii.eqb c PyStr.newline); [discriminate|].
      destruct (Images.regexnum s) as [[[p1 d1] q1]|]; [|discriminate].
      inversion H. subst. cbn [append].
      rewrite <- (IH p1 d q eq_refl). reflexivity.
Qed.

Lemma length_zeros (n : nat) : String.length (Images.zeros n) = n.
Proof. induction n as [|n IH]; [reflexivity|]. simpl. rewrite IH. reflexivity. Qed.

(** A formatted number has at least the width. *)
Lemma format_0d_length (width : nat) (n : Z) :
  (width <= String.length (Images.format_0d width n))%nat.
Proof.
  unfold Images.format_0d. destruct (n <? 0).
  - cbn [append String.length]. rewrite length_append, length_zeros. lia.
  - rewrite length_append, length_zeros. lia.
Qed.

End ImagesMore.

Section Numbers.

Implicit Types (c : ascii) (s d : string) (u : Decimal.uint) (n : Z).

Lemma digits_parse d :
  all_digits d = true -> exists u, NilEmpty.uint_of_string d = Some u.
Proof.
  induction d as [|c d IH]; intros Hd; [exists Decimal.Nil; reflexivity|].
  cbn [all_digits] in Hd. apply andb_prop in Hd as [Hc Hd].
  destruct (IH Hd) as (u & Hu). cbn [NilEmpty.uint_of_string]. rewrite Hu.
  destruct c as [[|] [|] [|] [|] [|] [|] [|] [|]]; try discriminate Hc;
    eexists; reflexivity.
Qed.

Lemma nilzero_parse s :
  s <> EmptyString ->
  NilZero.uint_of_string s = NilEmpty.uint_of_string s.
Proof. destruct s; [contradiction|reflexivity]. Qed.

Lemma string_of_uint_nonempty u :
  u <> Decimal.Nil -> NilEmpty.string_of_uint u <> EmptyString.
Proof. destruct u; [contradiction|..]; discriminate. Qed.

Lemma nilzero_string u :
  u <> Decimal.Nil -> NilZero.string_of_uint u = NilEmpty.string_of_uint u.
Proof. destruct u; [contradiction|..]; reflexivity. Qed.

Lemma length_string_of_uint u :
  String.length (NilEmpty.string_of_uint u) = Decimal.nb_digits u.
Proof. induction u; simpl; rewrite ?IHu; reflexivity. Qed.

Lemma all_digits_string u : all_digits (NilEmpty.string_of_uint u) = true.
Proof. induction u; simpl; try rewrite IHu; reflexivity. Qed.

Lemma to_uint_nonnil (m : N) : N.to_uint m <> Decimal.Nil.
Proof.
  destruct m as [|p]; [discriminate|].
  apply DecimalPos.Unsigned.to_uint_nonnil.
Qed.

(** [str(n)] for a number that is not negative. *)
Lemma str_nonneg n :
  0 <= n ->
  PyStr.str_of_int n = NilEmpty.string_of_uint (N.to_uint (Z.to_N n)).
Proof.
  intros Hn. unfold PyStr.str_of_int.
  destruct n as [|p|p]; [reflexivity| |lia].
  cbn [Z.to_int NilZero.string_of_int Z.to_N N.to_uint].
  apply nilzero_string. apply DecimalPos.Unsigned.to_uint_nonnil.
Qed.

Lemma of_uint_nonneg u : 0 <= Z.of_uint u.
Proof. unfold Z.of_uint. apply N2Z.is_nonneg. Qed.

(** [str(int(d))] is [d] without the zeros in front. *)
Lemma str_of_parsed u :
  PyStr.str_of_int (Z.of_uint u) = NilEmpty.string_of_uint (Decimal.unorm u).
Proof.
  rewrite str_nonneg by apply of_uint_nonneg.
  unfold Z.of_uint. rewrite N2Z.id, DecimalPos.Unsigned.to_of. reflexivity.
Qed.

Lemma zeros_succ (a b : nat) :
  (b <= a)%nat ->
  Images.zeros (S a - b) = String "0" (Images.zeros (a - b)).
Proof. intros H. replace (S a - b)%nat with (S (a - b)) by lia. reflexivity. Qed.

Lemma string_strip_zeros u :
  u <> Decimal.Nil ->
  NilEmpty.string_of_uint u =
  (Images.zeros (Decimal.nb_digits u - Decimal.nb_digits (Decimal.unorm u))
   ++ NilEmpty.string_of_uint (Decimal.unorm u))%string.
Proof.
  induction u as [|u IH|u _|u _|u _|u _|u _|u _|u _|u _|u _]; intros Hne;
    [contradiction| |
     cbn [Decimal.unorm Decimal.nzhead]; rewrite Nat.sub_diag; reflexivity..].
  rewrite DecimalFacts.unorm_D0.
  destruct u as [|u'|u'|u'|u'|u'|u'|u'|u'|u'|u'] eqn:Hu; [reflexivity|..];
    rewrite <- Hu in *;
    (assert (Hu' : u <> Decimal.Nil) by (rewrite Hu; discriminate));
    cbn [Decimal.nb_digits NilEmpty.string_of_uint];
    rewrite (zeros_succ _ _ (DecimalFacts.nb_digits_unorm u Hu'));
    cbn [append]; rewrite <- (IH Hu'); reflexivity.
Qed.

Lemma nb_digits_succ u :
  (Decimal.nb_digits u <= Decimal.nb_digits (Decimal.Little.succ u))%nat.
Proof. induction u; simpl; lia. Qed.

Lemma to_uint_rev (m : N) :
  N.to_uint m = Decimal.rev (DecimalPos.Unsigned.to_lu m).
Proof. destruct m; reflexivity. Qed.

(** The number before has no more digits. *)
Lemma str_length_pred n :
  1 <= n ->
  (String.length (PyStr.str_of_int (n - 1))
   <= String.length (PyStr.str_of_int n))%nat.
Proof.
  intros Hn. rewrite !str_nonneg by lia.
  rewrite !length_string_of_uint, !to_uint_rev, !DecimalFacts.nb_digits_rev.
  replace (Z.to_N n) with (N.succ (Z.to_N (n - 1))) by lia.
  rewrite DecimalPos.Unsigned.to_lu_succ. apply nb_digits_succ.
Qed.

Lemma zeros_append_nonempty (k : nat) s :
  s <> EmptyString -> (Images.zeros k ++ s)%string <> EmptyString.
Proof. destruct k; [intros H; exact H|discriminate]. Qed.

Lemma int_zeros_front (k : nat) s :
  s <> EmptyString ->
  Images.int_of_digits (Images.zeros k ++ s) = Images.int_of_digits s.
Proof.
  intros Hs. induction k as [|k IH]; [reflexivity|].
  rewrite <- IH. cbn [Images.zeros append].
  pose proof (zeros_append_nonempty k s Hs) as Hne.
  unfold Images.int_of_digits.
  rewrite (nilzero_parse (Images.zeros k ++ s) Hne).
  cbn [NilZero.uint_of_string NilEmpty.uint_of_string].
  destruct (NilEmpty.uint_of_string (Images.zeros k ++ s)); reflexivity.
Qed.

Lemma int_str n : 0 <= n -> Images.int_of_digits (PyStr.str_of_int n) = Some n.
Proof.
  intros Hn. rewrite str_nonneg by exact Hn.
  unfold Images.int_of_digits.
  rewrite nilzero_parse
    by (apply string_of_uint_nonempty; apply to_uint_nonnil).
  rewrite NilEmpty.usu. f_equal. unfold Z.of_uint.
  change (Pos.of_uint (N.to_uint (Z.to_N n)))
    with (N.of_uint (N.to_uint (Z.to_N n))).
  rewrite DecimalN.Unsigned.of_to. apply Z2N.id. exact Hn.
Qed.

Lemma str_digits n :
  0 <= n ->
  all_digits (PyStr.str_of_int n) = true /\
  PyStr.str_of_int n <> EmptyString.
Proof.
  intros Hn. rewrite str_nonneg by exact Hn. split.
  - apply all_digits_string.
  - apply string_of_uint_nonempty. apply to_uint_nonnil.
Qed.

(** What a run of digits stands for. *)
Lemma digits_value d :
  d <> EmptyString -> all_digits d = true ->
  exists n,
    Images.int_of_digits d = Some n /\ 0 <= n /\
    (String.length (PyStr.str_of_int n) <= String.length d)%nat /\
    d = (Images.zeros (String.length d - String.length (PyStr.str_of_int n))
         ++ PyStr.str_of_int n)%string.
Proof.
  intros Hne Hd. destruct (digits_parse d Hd) as (u & Hu).
  exists (Z.of_uint u).
  assert (Hnil : u <> Decimal.Nil).
  { intros ->. apply NilEmpty.sus in Hu. cbn in Hu. congruence. }
  pose proof (NilEmpty.sus d u Hu) as Hstring.
  split.
  { unfold Images.int_of_digits. rewrite (nilzero_parse d Hne), Hu.
    reflexivity. }
  split; [apply of_uint_nonneg|].
  rewrite str_of_parsed, <- Hstring, !length_string_of_uint.
  split; [apply DecimalFacts.nb_digits_unorm; exact Hnil|].
  apply string_strip_zeros. exact Hnil.
Qed.

Lemma all_digits_app s1 s2 :
  all_digits (s1 ++ s2) = all_digits s1 && all_digits s2.
Proof.
  induction s1 as [|c s1 IH]; [reflexivity|].
  cbn [append all_digits]. rewrite IH, andb_assoc. reflexivity.
Qed.

Lemma all_digits_zeros (k : nat) : all_digits (Images.zeros k) = true.
Proof. induction k as [|k IH]; [reflexivity|exact IH]. Qed.

Lemma names_of_last_number (p d q : string) :
  lacks PyStr.newline p = true -> no_digit_end p = true ->
  d <> EmptyString -> all_digits d = true ->
  Images.no_digit q = true ->
  exists n : Z,
    Images.int_of_digits d = Some n /\ 0 <= n /\
    Images.surrounding_images (p ++ d ++ q) =
    Some ((p ++ Images.format_0d (String.length d) (n - 1) ++ q)%string,
          (p ++ Images.format_0d (String.length d) (n + 1) ++ q)%string).
Proof.
  intros Hnl Hend Hne Hd Hq.
  destruct (digits_value d Hne Hd) as (n & Hint & Hpos & _).
  exists n. split; [exact Hint|]. split; [exact Hpos|].
  unfold Images.surrounding_images.
  rewrite (regexnum_last_number p d q Hnl Hend Hne Hd Hq), Hint.
  reflexivity.
Qed.

End Numbers.

(** X23: the neighbours of an image step the last number of its name: for
    a name made of a text [p] without line break that does not end with a
    digit, a run of digits [d] and a text [q] without digit,
    [surrounding_images] names the files with the number of [d] less one
    and plus one, written with zeros in front up to the width of [d],
    between [p] and [q]. *)
Theorem surrounding_images_steps_last_number :
  forall p d q : string,
    lacks PyStr.newline p = true -> no_digit_end p = true ->
    d <> EmptyString -> all_digits d = true ->
    Images.no_digit q = true ->
    exists n : Z,
      Images.int_of_digits d = Some n /\ 0 <= n /\
      Images.surrounding_images (p ++ d ++ q) =
      Some ((p ++ Images.format_0d (String.length d) (n - 1) ++ q)%string,
            (p ++ Images.format_0d (String.length d) (n + 1) ++ q)%string).
Proof.
  intros p d q Hnl Hend Hne Hd Hq.
  exact (names_of_last_number p d q Hnl Hend Hne Hd Hq).
Qed.

Lemma surrounding_images_steps_last_number_witness :
  exists n : Z,
    Images.int_of_digits "010" = Some n /\ 0 <= n /\
    Images.surrounding_images ("vol2_page" ++ "010" ++ ".png") =
    Some (("vol2_page" ++ Images.format_0d (String.length "010") (n - 1)
           ++ ".png")%string,
          ("vol2_page" ++ Images.format_0d (String.length "010") (n + 1)
           ++ ".png")%string).
Proof.
  apply (surrounding_images_steps_last_number "vol2_page" "010" ".png");
    try reflexivity.
  discriminate.
Defined.

(** X24: a name without a digit has no neighbours: the pattern does not
    match and [surrounding_images] stops with the [TypeError] of
    [imgmatch[2]]. *)
Theorem surrounding_images_needs_a_digit :
  forall name : string,
    Images.no_digit name = true ->
    Images.surrounding_images name = None.
Proof.
  intros name Hname. unfold Images.surrounding_images.
  rewrite (regexnum_no_digit name Hname). reflexivity.
Qed.

Lemma surrounding_images_needs_a_digit_witness :
  Images.surrounding_images "cover.png" = None.
Proof.
  apply (surrounding_images_needs_a_digit "cover.png"). reflexivity.
Defined.

(** X25: the names of the neighbours are never shorter than the name of
    the image: the number keeps at least its width. *)
Theorem surrounding_images_keeps_width :
  forall name prev next : string,
    Images.surrounding_images name = Some (prev, next) ->
    (String.length name <= String.length prev)%nat /\
    (String.length name <= String.length next)%nat.
Proof.
  intros name prev next H. unfold Images.surrounding_images in H.
  destruct (Images.regexnum name) as [[[p d] q]|] eqn:Hm; [|discriminate].
  destruct (Images.int_of_digits d) as [n|]; [|discriminate].
  inversion H. subst prev next.
  rewrite (regexnum_sound name p d q Hm), !length_append.
  pose proof (format_0d_length (String.length d) (n - 1)).
  pose proof (format_0d_length (String.length d) (n + 1)).
  lia.
Qed.

Lemma surrounding_images_keeps_width_witness :
  (String.length "p099.tif" <= String.length "p098.tif")%nat /\
  (String.length "p099.tif" <= String.length "p100.tif")%nat.
Proof.
  apply (surrounding_images_keeps_width "p099.tif" "p098.tif" "p100.tif").
  reflexivity.
Defined.

(** X26: the way back: when the number of the name is not 0, the
    predecessor named by [surrounding_images] has the length of the name,
    and the successor of that predecessor is the name itself. *)
Theorem surrounding_images_successor_of_predecessor :
  forall p d q : string,
    lacks PyStr.newline p = true -> no_digit_end p = true ->
    d <> EmptyString -> all_digits d = true ->
    Images.no_digit q = true ->
    Images.int_of_digits d <> Some 0 ->
    exists prev next before : string,
      Images.surrounding_images (p ++ d ++ q) = Some (prev, next) /\
      String.length prev = String.length (p ++ d ++ q) /\
      Images.surrounding_images prev = Some (before, (p ++ d ++ q)%string).
Proof.
  intros p d q Hnl Hend Hne Hd Hq Hzero.
  destruct (names_of_last_number p d q Hnl Hend Hne Hd Hq)
    as (n & Hint & Hpos & Hnames).
  destruct (digits_value d Hne Hd) as (n' & Hint' & _ & Hlen & Hpad).
  rewrite Hint in Hint'. inversion Hint'. subst n'. clear Hint'.
  assert (Hn : 1 <= n).
  { destruct (Z.eq_dec n 0) as [->|]; [contradiction Hzero|lia]. }
  set (w := String.length d) in *.
  set (d' := Images.format_0d w (n - 1)) in *.
  assert (Hd' : d' = (Images.zeros (w - String.length (PyStr.str_of_int (n - 1)))
                      ++ PyStr.str_of_int (n - 1))%string).
  { unfold d', Images.format_0d.
    replace (n - 1 <? 0) with false by (symmetry; apply Z.ltb_ge; lia).
    reflexivity. }
  pose proof (str_length_pred n Hn) as Hshort.
  destruct (str_digits (n - 1)) as [Hdig Hnonempty]; [lia|].
  assert (Hwidth : String.length d' = w).
  { rewrite Hd', length_append, length_zeros. lia. }
  assert (Hall : all_digits d' = true).
  { rewrite Hd', all_digits_app, all_digits_zeros, Hdig. reflexivity. }
  assert (Hne' : d' <> EmptyString).
  { rewrite Hd'. apply zeros_append_nonempty. exact Hnonempty. }
  assert (Hval : Images.int_of_digits d' = Some (n - 1)).
  { rewrite Hd', int_zeros_front by exact Hnonempty. apply int_str. lia. }
  destruct (names_of_last_number p d' q Hnl Hend Hne' Hall Hq)
    as (m & Hm & _ & Hback).
  rewrite Hval in Hm. inversion Hm. subst m. clear Hm.
  exists (p ++ d' ++ q)%string.
  exists (p ++ Images.format_0d w (n + 1) ++ q)%string.
  exists (p ++ Images.format_0d (String.length d') (n - 1 - 1) ++ q)%string.
  split; [exact Hnames|]. split.
  - rewrite !length_append. fold w. rewrite Hwidth. reflexivity.
  - rewrite Hback. do 2 f_equal. f_equal.
    rewrite Hwidth. unfold Images.format_0d.
    replace (n - 1 + 1) with n by lia.
    replace (n <? 0) with false by (symmetry; apply Z.ltb_ge; lia).
    rewrite <- Hpad. reflexivity.
Qed.

Lemma surrounding_images_successor_of_predecessor_witness :
  exists prev next before : string,
    Images.surrounding_images ("page_" ++ "100" ++ ".png") = Some (prev, next) /\
    String.length prev = String.length ("page_" ++ "100" ++ ".png") /\
    Images.surrounding_images prev
      = Some (before, ("page_" ++ "100" ++ ".png")%string).
Proof.
  apply (surrounding_images_successor_of_predecessor "page_" "100" ".png");
    try reflexivity; discriminate.
Defined.

(** X27: before the number 0 comes a name with a minus sign: for a name
    whose last number is made of zeros only, [surrounding_images] names
    as predecessor the file with [-1] in the width of the number (the
    sign counts), and as successor the file with the number 1. *)
Theorem surrounding_images_before_zero :
  forall (p q : string) (k : nat),
    lacks PyStr.newline p = true -> no_digit_end p = true ->
    Images.no_digit q = true ->
    Images.surrounding_images (p ++ Images.zeros (S k) ++ q) =
    Some ((p ++ ("-" ++ Images.zeros (k - 1) ++ "1") ++ q)%string,
          (p ++ (Images.zeros k ++ "1") ++ q)%string).
Proof.
  intros p q k Hnl Hend Hq.
  destruct (names_of_last_number p (Images.zeros (S k)) q Hnl Hend)
    as (n & Hint & _ & Hnames);
    [discriminate|apply (all_digits_zeros (S k))|exact Hq|].
  assert (Hzero : Images.int_of_digits (Images.zeros (S k)) = Some 0).
  { replace (Images.zeros (S k)) with (Images.zeros k ++ "0")%string.
    - rewrite int_zeros_front by discriminate. reflexivity.
    - clear. induction k as [|k IH]; [reflexivity|].
      cbn [Images.zeros append]. rewrite IH. reflexivity. }
  rewrite Hzero in Hint. inversion Hint. subst n.
  rewrite Hnames, length_zeros. unfold Images.format_0d.
  change (0 - 1 <? 0) with true. change (0 + 1 <? 0) with false.
  change (PyStr.str_of_int (- (0 - 1))) with "1".
  change (PyStr.str_of_int (0 + 1)) with "1".
  cbn [String.length].
  replace (S k - 1 - 1)%nat with (k - 1)%nat by lia.
  replace (S k - 1)%nat with k by lia.
  reflexivity.
Qed.

Lemma surrounding_images_before_zero_witness :
  Images.surrounding_images ("scan" ++ Images.zeros 3 ++ ".jpg") =
  Some (("scan" ++ ("-" ++ Images.zeros (2 - 1) ++ "1") ++ ".jpg")%string,
        ("scan" ++ (Images.zeros 2 ++ "1") ++ ".jpg")%string).
Proof.
  apply (surrounding_images_before_zero "scan" ".jpg" 2); reflexivity.
Defined.
(** ** The calls of [gtcheck] to itself *)

Section Recursion.

Variable env : Env.

Lemma bind_ext {A B} (m : M A) (k1 k2 : A -> M B) (w : World) :
  (forall a w1, m w = Ok (a, w1) -> k1 a w1 = k2 a w1) ->
  bind m k1 w = bind m k2 w.
Proof.
  intros H. unfold bind.
  destruct (m w) as [[a w1]|e]; [apply H|]; reflexivity.
Qed.

(** Without the toggle a file with a blob ends the loop: its page is
    returned (or the request fails). *)
Lemma gtcheck_present_returns (reponame name email diffhead : string)
  (idx nc : Z) (filename : option string) (item : DiffItem)
  (origtext difftext : string) (w w' : World) (step : LoopStep) :
  skipcc (session w) = None ->
  gtcheck_present env reponame name email diffhead idx nc filename item
    origtext difftext w = Ok (step, w') ->
  exists page, step = Return page.
Proof.
  intros Hnone Hrun. unfold gtcheck_present in Hrun.
  exec_calls; try (eexists; reflexivity); congruence.
Qed.

(** Without the toggle the loop goes on after a file without blobs
    only. *)
Lemma gtcheck_file_continue (reponame name email diffhead : string)
  (idx nc nc' : Z) (filename : option string) (w w' : World) :
  skipcc (session w) = None ->
  gtcheck_file env reponame name email diffhead idx nc filename w
    = Ok (Continue nc', w') ->
  exists l',
    pop_idx_list (difflist (session w)) (skip (session w) + idx) = Ok l' /\
    w' = mkWorld (set_difflist l' (session w)) (trace w) (log w).
Proof.
  intros Hnone Hrun. unfold gtcheck_file in Hrun.
  apply bind_inv in Hrun as (item & w1 & Hitem & Hrun).
  apply find_item_frame in Hitem. subst w1.
  destruct (a_blob item) eqn:Ha; [|destruct (b_blob item) eqn:Hb].
  3: { exec_calls. eexists. split; [eassumption|reflexivity]. }
  all: exec_calls; apply gtcheck_present_returns in Hrun as (page & Hpage);
    [discriminate Hpage|exact Hnone].
Qed.

(** A loop that ends without a page has taken files out of the queue
    only, at least one when its first file lies within the queue. *)
Lemma gtcheck_loop_shrinks (reponame name email diffhead : string)
  (l : list (option string)) :
  forall (idx nc : Z) (w w' : World),
    skipcc (session w) = None ->
    0 <= skip (session w) + idx ->
    gtcheck_loop env reponame name email diffhead idx nc l w
      = Ok (None, w') ->
    skipcc (session w') = None /\
    skip (session w') = skip (session w) /\
    (length (difflist (session w')) <= length (difflist (session w)))%nat /\
    (l <> [] ->
     skip (session w) + idx < Z.of_nat (length (difflist (session w))) ->
     (length (difflist (session w')) < length (difflist (session w)))%nat).
Proof.
  induction l as [|filename rest IH]; intros idx nc w w' Hnone Hidx Hrun.
  - simpl in Hrun. exec. repeat split; try assumption; try lia.
    intros Habs. contradiction Habs. reflexivity.
  - cbn [gtcheck_loop] in Hrun.
    apply bind_inv in Hrun as (step & w1 & Hstep & Hrun).
    destruct step as [nc'|page]; [|exec; discriminate].
    apply gtcheck_file_continue in Hstep as (l' & Hpop & ->);
      [|exact Hnone].
    apply pop_idx_list_length in Hpop; [|exact Hidx].
    apply IH in Hrun; [|exact Hnone|cbn [session skip set_difflist]; lia].
    cbn [session skip skipcc difflist set_difflist] in Hrun.
    destruct Hrun as (Hs & Hk & Hlen & _).
    destruct (Z.ltb_spec (skip (session w) + idx)
                (Z.of_nat (length (difflist (session w)))));
      repeat split; try assumption; try lia.
Qed.

(** Lines 153 to 159 leave a queue of at most [skip + 100] entries, or
    the queue as it was. *)
Lemma gtcheck_rebuild_length (u : unit) (w w' : World) :
  0 <= skip (session w) ->
  gtcheck_rebuild env w = Ok (u, w') ->
  skipcc (session w') = skipcc (session w) /\
  skip (session w') = skip (session w) /\
  (length (difflist (session w'))
   <= Nat.max (length (difflist (session w)))
        (Z.to_nat (skip (session w)) + 100))%nat /\
  (skip (session w) < Z.of_nat (length (difflist (session w))) -> w' = w).
Proof.
  intros Hskip Hrun. unfold gtcheck_rebuild in Hrun.
  apply bind_inv in Hrun as (l & w1 & Hl & Hrun).
  apply read_inv in Hl as [-> ->].
  apply bind_inv in Hrun as (skip_ & w1 & Hs & Hrun).
  apply read_inv in Hs as [-> ->].
  cbv beta zeta in Hrun.
  match type of Hrun with
  | (if ?b then _ else _) _ = _ => destruct b eqn:Hstale
  end.
  - assert (Hout : skip (session w) < Z.of_nat (length (difflist (session w)))
                   -> False).
    { destruct (difflist (session w)); [simpl; lia|].
      apply Z.leb_le in Hstale. lia. }
    exec; cbn [session skip skipcc difflist set_difflist set_difflen];
      (split; [reflexivity|]); (split; [reflexivity|]);
      (split; [|intros Hin; contradiction (Hout Hin)]).
    + pose proof (times_length (@None string) (skip (session w)) Hskip). lia.
    + match goal with
      | |- (length (PyList.slice_to ?l' ?b) <= _)%nat =>
          pose proof (slice_to_length l' b)
      end. lia.
  - exec. repeat split; try reflexivity. lia.
Qed.

(** Once the cursor is back at 0 every call takes a file out of the
    queue before it calls again: a queue of [n] entries is gone through
    in [n] calls at most. *)
Lemma gtcheck_fuel_later (n : nat) :
  forall (reponame : string) (w : World) (f1 f2 : nat),
    skipcc (session w) = None -> skip (session w) = 0 ->
    difflist (session w) <> [] ->
    (length (difflist (session w)) <= n)%nat ->
    (n < f1)%nat -> (n < f2)%nat ->
    gtcheck env f1 reponame w = gtcheck env f2 reponame w.
Proof.
  induction n as [|n IH]; intros reponame w f1 f2 Hnone Hskip Hne Hlen H1 H2.
  - destruct (difflist (session w)); [contradiction Hne; reflexivity|].
    simpl in Hlen. lia.
  - destruct f1 as [|f1]; [lia|]. destruct f2 as [|f2]; [lia|].
    cbn [gtcheck].
    apply bind_ext. intros name w1 Hname. apply ask_inv in Hname as [_ ->].
    apply bind_ext. intros email w1 Hemail. apply ask_inv in Hemail as [_ ->].
    apply bind_ext. intros out w1 Hout. apply ask_inv in Hout as [_ ->].
    apply bind_ext. intros diffhead w1 Hhead. apply lift_inv in Hhead as [_ ->].
    apply bind_ext. intros u w1 Hreb.
    apply gtcheck_rebuild_length in Hreb as (_ & _ & _ & Hsame); [|lia].
    assert (Hin : skip (session w) < Z.of_nat (length (difflist (session w)))).
    { rewrite Hskip. destruct (difflist (session w));
        [contradiction Hne; reflexivity|simpl; lia]. }
    specialize (Hsame Hin). subst w1.
    apply bind_ext. intros l w1 Hl. apply read_inv in Hl as [-> ->].
    apply bind_ext. intros skip_ w1 Hs. apply read_inv in Hs as [-> ->].
    apply bind_ext. intros result w2 Hloop.
    destruct result as [page|]; [reflexivity|].
    destruct (truthy diffhead); [reflexivity|].
    apply bind_ext. intros l w3 Hl. apply read_inv in Hl as [-> ->].
    destruct (difflist (session w2)) as [|entry queue] eqn:Hqueue;
      [reflexivity|].
    apply bind_ext. intros u' w3 Hassign. apply assign_inv in Hassign.
    subst w3.
    apply gtcheck_loop_shrinks in Hloop
      as (Hnone2 & _ & _ & Hless); [|exact Hnone|lia].
    assert (Hshorter : (length (difflist (session w2))
                        < length (difflist (session w)))%nat).
    { apply Hless; [|rewrite Z.add_0_r; exact Hin].
      rewrite Hskip. cbn. exact Hne. }
    apply IH; cbn [session skip skipcc difflist set_skip];
      try assumption; try reflexivity; try lia.
    rewrite Hqueue. discriminate.
Qed.

Lemma gtcheck_fuel_first (reponame : string) (w : World) (f1 f2 : nat) :
  skipcc (session w) = None -> 0 <= skip (session w) ->
  (Nat.max (length (difflist (session w)))
     (Z.to_nat (skip (session w)) + 100) + 1 < f1)%nat ->
  (Nat.max (length (difflist (session w)))
     (Z.to_nat (skip (session w)) + 100) + 1 < f2)%nat ->
  gtcheck env f1 reponame w = gtcheck env f2 reponame w.
Proof.
  intros Hnone Hskip H1 H2.
  destruct f1 as [|f1]; [lia|]. destruct f2 as [|f2]; [lia|].
  cbn [gtcheck].
  apply bind_ext. intros name w1 Hname. apply ask_inv in Hname as [_ ->].
  apply bind_ext. intros email w1 Hemail. apply ask_inv in Hemail as [_ ->].
  apply bind_ext. intros out w1 Hout. apply ask_inv in Hout as [_ ->].
  apply bind_ext. intros diffhead w1 Hhead. apply lift_inv in Hhead as [_ ->].
  apply bind_ext. intros u w1 Hreb.
  apply gtcheck_rebuild_length in Hreb as (Hnone1 & Hskip1 & Hlen1 & _);
    [|exact Hskip].
  rewrite Hnone in Hnone1.
  apply bind_ext. intros l w2 Hl. apply read_inv in Hl as [-> ->].
  apply bind_ext. intros skip_ w2 Hs. apply read_inv in Hs as [-> ->].
  apply bind_ext. intros result w2 Hloop.
  destruct result as [page|]; [reflexivity|].
  destruct (truthy diffhead); [reflexivity|].
  apply bind_ext. intros l w3 Hl. apply read_inv in Hl as [-> ->].
  destruct (difflist (session w2)) as [|entry queue] eqn:Hqueue;
    [reflexivity|].
  apply bind_ext. intros u' w3 Hassign. apply assign_inv in Hassign.
  subst w3.
  apply gtcheck_loop_shrinks in Hloop
    as (Hnone2 & _ & Hlen2 & _); [|exact Hnone1|lia].
  apply (gtcheck_fuel_later
           (Nat.max (length (difflist (session w)))
              (Z.to_nat (skip (session w)) + 100)));
    cbn [session skip skipcc difflist set_skip];
    try assumption; try reflexivity; try lia.
  rewrite Hqueue. discriminate.
Qed.

(** *** No failure for the depth of the calls *)

Lemma within_ret {A} (a : A) : within_depth (ret a).
Proof. intros w. discriminate. Qed.

Lemma within_read {A} (key : Session -> A) : within_depth (read key).
Proof. intros w. discriminate. Qed.

Lemma within_read_key {A} (key : Session -> option A) :
  within_depth (read_key key).
Proof. intros w. unfold read_key. destruct (key (session w)); discriminate. Qed.

Lemma within_assign (upd : Session -> Session) : within_depth (assign upd).
Proof. intros w. discriminate. Qed.

Lemma within_warning (wn : Warning) : within_depth (warning wn).
Proof. intros w. discriminate. Qed.

Lemma within_lift {A} (r : Res A) :
  r <> Raise RecursionError -> within_depth (lift r).
Proof.
  intros Hr w. unfold lift. destruct r as [a|e]; [discriminate|].
  intros Heq. apply Hr. inversion Heq. reflexivity.
Qed.

Lemma within_ask {A} (q : list Event -> Res A) :
  (forall tr, q tr <> Raise RecursionError) -> within_depth (ask q).
Proof.
  intros Hq w. unfold ask. specialize (Hq (trace w)).
  destruct (q (trace w)) as [a|e]; [discriminate|].
  intros Heq. apply Hq. inversion Heq. reflexivity.
Qed.

Lemma within_bind {A B} (m : M A) (k : A -> M B) :
  within_depth m -> (forall a, within_depth (k a)) ->
  within_depth (bind m k).
Proof.
  intros Hm Hk w. unfold bind. specialize (Hm w).
  destruct (m w) as [[a w1]|e]; [apply Hk|].
  intros Heq. apply Hm. inversion Heq. reflexivity.
Qed.

Lemma within_try {A} (body : M A) (catches : PyExn -> bool)
  (handler : M A) :
  within_depth body -> within_depth handler ->
  within_depth (try_except body catches handler).
Proof.
  intros Hb Hh w. unfold try_except. specialize (Hb w).
  destruct (body w) as [r|e]; [discriminate|].
  destruct (catches e); [apply Hh|].
  intros Heq. apply Hb. inversion Heq. reflexivity.
Qed.

Lemma bind_within_at {A B} (m : M A) (k : A -> M B) (w : World) :
  m w <> Raise RecursionError ->
  (forall a w1, m w = Ok (a, w1) -> k a w1 <> Raise RecursionError) ->
  bind m k w <> Raise RecursionError.
Proof.
  intros Hm Hk. unfold bind.
  destruct (m w) as [[a w1]|e]; [apply Hk; reflexivity|].
  intros Heq. apply Hm. inversion Heq. reflexivity.
Qed.

Lemma last_item_depth {A} (l : list A) :
  PyList.last_item l <> Raise RecursionError.
Proof. unfold PyList.last_item. destruct (rev l); discriminate. Qed.

Lemma item_depth {A} (l : list A) (i : nat) :
  PyList.item l i <> Raise RecursionError.
Proof. unfold PyList.item. destruct (nth_error l i); discriminate. Qed.

Lemma pop_idx_list_depth {A} (l : list A) (popidx : Z) :
  pop_idx_list l popidx <> Raise RecursionError.
Proof.
  unfold pop_idx_list, PyList.pop.
  destruct (Z.of_nat (length l) >? popidx); [|discriminate].
  match goal with
  | |- (if ?b then _ else _) <> _ => destruct b; discriminate
  end.
Qed.

Lemma blob_text_depth (b : option Decoded) :
  blob_text b <> Raise RecursionError.
Proof. destruct b as [[text|]|]; discriminate. Qed.

Lemma decode_diff_depth (d : DiffData) :
  decode_diff d <> Raise RecursionError.
Proof. destruct d as [[text|]|text]; discriminate. Qed.

Section Depth.

Hypothesis Hquiet : never_raises env RecursionError.

Lemma within_emit (e : Event) : within_depth (emit env e).
Proof.
  intros w. unfold emit.
  destruct (effect_error env (trace w) e) as [x|] eqn:Herr; [|discriminate].
  intros Heq. inversion Heq. subst x.
  destruct Hquiet as (_ & _ & _ & _ & _ & _ & _ & He).
  apply (He (trace w) e). exact Herr.
Qed.

Lemma within_pop_idx (popidx : Z) : within_depth (pop_idx popidx).
Proof.
  unfold pop_idx. apply within_bind; [apply within_read|intros l].
  apply within_bind; [|intros l'; apply within_assign].
  apply within_lift. apply pop_idx_list_depth.
Qed.

Lemma within_get_gitdifftext (orig diff_ : string) :
  within_depth (get_gitdifftext env orig diff_).
Proof.
  destruct Hquiet as (_ & _ & _ & _ & Hh & Hd & _ & _).
  unfold get_gitdifftext.
  apply within_bind; [apply within_lift; apply Hh|intros p].
  apply within_bind; [apply within_lift; apply Hh|intros p2].
  apply within_bind; [apply within_ask; intros tr; apply Hd|intros out].
  apply within_bind; [apply within_lift; apply last_item_depth|intros part].
  apply within_ret.
Qed.

Lemma within_get_difftext (origtext : string) (item : DiffItem)
  (folder_ : string) :
  within_depth (get_difftext env origtext item folder_).
Proof.
  destruct Hquiet as (_ & _ & _ & Hr & _ & _ & _ & _).
  unfold get_difftext.
  destruct (PyStr.contains conflict_head origtext).
  - apply within_bind; [apply within_ask; intros tr; apply Hr|intros content].
    apply within_bind; [apply within_lift; apply last_item_depth|intros part].
    apply within_bind; [apply within_lift; apply item_depth|intros part'].
    cbv zeta.
    apply within_bind; [apply within_lift; apply item_depth|intros m0].
    apply within_bind; [apply within_lift; apply item_depth|intros m1].
    apply within_get_gitdifftext.
  - apply within_try.
    + apply within_bind; [apply within_lift; apply decode_diff_depth|].
      intros text. apply within_ret.
    + apply within_bind; [apply within_warning|intros u].
      apply within_try.
      * apply within_bind; [apply within_lift; apply blob_text_depth|].
        intros working. apply within_get_gitdifftext.
      * apply within_bind; [apply within_warning|intros u'].
        apply within_ret.
Qed.

Lemma within_find_item (filename : option string) :
  within_depth (find_item env filename).
Proof.
  destruct Hquiet as (_ & _ & Hi & _ & _ & _ & _ & _).
  unfold find_item.
  apply within_bind; [apply within_ask; intros tr; apply Hi|intros items].
  destruct items as [|item rest]; [|apply within_ret].
  apply within_bind; [apply within_ask; intros tr; apply Hi|intros items].
  apply within_lift. apply item_depth.
Qed.

(** One step of the proofs below: the next computation of a handler. *)
Ltac within_step :=
  first
    [ apply within_ret | apply within_read | apply within_read_key
    | apply within_assign | apply within_warning | apply within_emit
    | apply within_pop_idx | apply within_get_difftext
    | apply within_find_item
    | apply within_lift; first [apply item_depth | apply blob_text_depth]
    | apply within_bind; [|intros ?]
    | match goal with
      | |- within_depth (if ?b then _ else _) => destruct b
      | |- within_depth (match ?x with _ => _ end) => destruct x
      end ].

Lemma within_gtcheck_present (reponame name email diffhead : string)
  (idx nc : Z) (filename : option string) (item : DiffItem)
  (origtext difftext : string) :
  within_depth
    (gtcheck_present env reponame name email diffhead idx nc filename item
       origtext difftext).
Proof.
  destruct Hquiet as (_ & _ & _ & Hr & _ & _ & Himg & _).
  unfold gtcheck_present. cbv zeta.
  repeat first
    [ within_step
    | apply within_ask; intros tr;
      first [apply Hr | apply Himg | discriminate] ].
Qed.

Lemma within_gtcheck_file (reponame name email diffhead : string)
  (idx nc : Z) (filename : option string) :
  within_depth
    (gtcheck_file env reponame name email diffhead idx nc filename).
Proof.
  unfold gtcheck_file.
  apply within_bind; [apply within_find_item|intros item].
  destruct (a_blob item); [|destruct (b_blob item)].
  3: { repeat within_step. }
  all: repeat first [apply within_gtcheck_present | within_step].
Qed.

Lemma within_gtcheck_loop (reponame name email diffhead : string)
  (l : list (option string)) :
  forall idx nc : Z,
    within_depth (gtcheck_loop env reponame name email diffhead idx nc l).
Proof.
  induction l as [|filename rest IH]; intros idx nc; cbn [gtcheck_loop].
  - apply within_ret.
  - apply within_bind; [apply within_gtcheck_file|intros step].
    destruct step as [nc'|page]; [apply IH|apply within_ret].
Qed.

Lemma within_gtcheck_rebuild : within_depth (gtcheck_rebuild env).
Proof.
  destruct Hquiet as (_ & _ & Hi & _ & _ & _ & _ & _).
  unfold gtcheck_rebuild. cbv zeta.
  repeat first
    [ within_step | apply within_ask; intros tr; apply Hi ].
Qed.

(** The calls before the loop and the loop do not fail for the depth;
    what is left is the call of [gtcheck] to itself. *)
Lemma gtcheck_depth_later (n : nat) :
  forall (reponame : string) (w : World) (fuel : nat),
    skipcc (session w) = None -> skip (session w) = 0 ->
    difflist (session w) <> [] ->
    (length (difflist (session w)) <= n)%nat ->
    (n < fuel)%nat ->
    gtcheck env fuel reponame w <> Raise RecursionError.
Proof.
  destruct Hquiet as (Hc & Hs & _).
  induction n as [|n IH]; intros reponame w fuel Hnone Hskip Hne Hlen Hfuel.
  - destruct (difflist (session w)); [contradiction Hne; reflexivity|].
    simpl in Hlen. lia.
  - destruct fuel as [|fuel]; [lia|].
    cbn [gtcheck].
    apply bind_within_at;
      [apply within_ask; intros tr; apply Hc|intros name w1 Hname].
    apply ask_inv in Hname as [_ ->].
    apply bind_within_at;
      [apply within_ask; intros tr; apply Hc|intros email w1 Hemail].
    apply ask_inv in Hemail as [_ ->].
    apply bind_within_at;
      [apply within_ask; intros tr; apply Hs|intros out w1 Hout].
    apply ask_inv in Hout as [_ ->].
    apply bind_within_at;
      [apply within_lift; apply item_depth|intros diffhead w1 Hhead].
    apply lift_inv in Hhead as [_ ->].
    apply bind_within_at; [apply within_gtcheck_rebuild|intros u w1 Hreb].
    apply gtcheck_rebuild_length in Hreb as (_ & _ & _ & Hsame); [|lia].
    assert (Hin : skip (session w) < Z.of_nat (length (difflist (session w)))).
    { rewrite Hskip. destruct (difflist (session w));
        [contradiction Hne; reflexivity|simpl; lia]. }
    specialize (Hsame Hin). subst w1.
    apply bind_within_at; [apply within_read|intros l w1 Hl].
    apply read_inv in Hl as [-> ->].
    apply bind_within_at; [apply within_read|intros skip_ w1 Hsk].
    apply read_inv in Hsk as [-> ->].
    apply bind_within_at; [apply within_gtcheck_loop|intros result w2 Hloop].
    destruct result as [page|]; [discriminate|].
    destruct (truthy diffhead).
    { apply bind_within_at; [apply within_read|intros skip_ w3 Hsk].
      apply bind_within_at; [apply within_assign|intros u' w4 Hassign].
      discriminate. }
    apply bind_within_at; [apply within_read|intros l w3 Hl].
    apply read_inv in Hl as [-> ->].
    destruct (difflist (session w2)) as [|entry queue] eqn:Hqueue;
      [discriminate|].
    apply bind_within_at; [apply within_assign|intros u' w3 Hassign].
    apply assign_inv in Hassign. subst w3.
    apply gtcheck_loop_shrinks in Hloop
      as (Hnone2 & _ & _ & Hless); [|exact Hnone|lia].
    assert (Hshorter : (length (difflist (session w2))
                        < length (difflist (session w)))%nat).
    { apply Hless; [|rewrite Z.add_0_r; exact Hin].
      rewrite Hskip. cbn. exact Hne. }
    apply IH; cbn [session skip skipcc difflist set_skip];
      try assumption; try reflexivity; try lia.
    rewrite Hqueue. discriminate.
Qed.

Lemma gtcheck_depth_first (reponame : string) (w : World) (fuel : nat) :
  skipcc (session w) = None -> 0 <= skip (session w) ->
  (Nat.max (length (difflist (session w)))
     (Z.to_nat (skip (session w)) + 100) + 1 < fuel)%nat ->
  gtcheck env fuel reponame w <> Raise RecursionError.
Proof.
  destruct Hquiet as (Hc & Hs & _).
  intros Hnone Hskip Hfuel.
  destruct fuel as [|fuel]; [lia|].
  cbn [gtcheck].
  apply bind_within_at;
    [apply within_ask; intros tr; apply Hc|intros name w1 Hname].
  apply ask_inv in Hname as [_ ->].
  apply bind_within_at;
    [apply within_ask; intros tr; apply Hc|intros email w1 Hemail].
  apply ask_inv in Hemail as [_ ->].
  apply bind_within_at;
    [apply within_ask; intros tr; apply Hs|intros out w1 Hout].
  apply ask_inv in Hout as [_ ->].
  apply bind_within_at;
    [apply within_lift; apply item_depth|intros diffhead w1 Hhead].
  apply lift_inv in Hhead as [_ ->].
  apply bind_within_at; [apply within_gtcheck_rebuild|intros u w1 Hreb].
  apply gtcheck_rebuild_length in Hreb as (Hnone1 & Hskip1 & Hlen1 & _);
    [|exact Hskip].
  rewrite Hnone in Hnone1.
  apply bind_within_at; [apply within_read|intros l w2 Hl].
  apply read_inv in Hl as [-> ->].
  apply bind_within_at; [apply within_read|intros skip_ w2 Hsk].
  apply read_inv in Hsk as [-> ->].
  apply bind_within_at; [apply within_gtcheck_loop|intros result w2 Hloop].
  destruct result as [page|]; [discriminate|].
  destruct (truthy diffhead).
  { apply bind_within_at; [apply within_read|intros skip_ w3 Hsk].
    apply bind_within_at; [apply within_assign|intros u' w4 Hassign].
    discriminate. }
  apply bind_within_at; [apply within_read|intros l w3 Hl].
  apply read_inv in Hl as [-> ->].
  destruct (difflist (session w2)) as [|entry queue] eqn:Hqueue;
    [discriminate|].
  apply bind_within_at; [apply within_assign|intros u' w3 Hassign].
  apply assign_inv in Hassign. subst w3.
  apply gtcheck_loop_shrinks in Hloop
    as (Hnone2 & _ & Hlen2 & _); [|exact Hnone1|lia].
  apply (gtcheck_depth_later
           (Nat.max (length (difflist (session w)))
              (Z.to_nat (skip (session w)) + 100)));
    cbn [session skip skipcc difflist set_skip];
    try assumption; try reflexivity; try lia.
  rewrite Hqueue. discriminate.
Qed.

End Depth.

End Recursion.

(** The repository of the examples never answers with the failure for
    the depth of the calls. *)
Lemma written_depth (tr : list Event) (p : string) :
  forall cur : Res string,
    cur <> Raise RecursionError ->
    Demo.written tr p cur <> Raise RecursionError.
Proof.
  induction tr as [|e tr IH]; intros cur Hcur; [exact Hcur|].
  destruct e; cbn [Demo.written]; try (apply IH; exact Hcur).
  apply IH. destruct (String.eqb path p); [discriminate|exact Hcur].
Qed.

Lemma demo_never_raises (files : list DiffItem) :
  never_raises (Demo.env files) RecursionError.
Proof.
  unfold never_raises, Demo.env.
  cbn [config_value diff_cached_shortstat index_diff read_text hash_object
       diff_objects image_context effect_error].
  repeat split; intros; try discriminate.
  - destruct paths as [[|[p|] [|q rest]]|]; discriminate.
  - apply written_depth. unfold Demo.working_text.
    repeat match goal with
           | |- (if ?b then _ else _) <> _ => destruct b
           end; discriminate.
Qed.

(** X28: the calls of [gtcheck] to itself come to an end: in a session
    without the toggle [skipcc] (as every session of a review) and with a
    cursor that is not negative, [gtcheck] calls itself less than
    [max(len(difflist), skip + 100) + 2] times in a row, whatever the
    repository answers.  With that depth of calls allowed, or any greater
    one, the request does not fail for the depth of the calls (no answer
    of the repository being that failure), and its result is the same. *)
Theorem gtcheck_recursion_is_bounded :
  forall (env : Env) (reponame : string) (w : World) (fuel : nat),
    never_raises env RecursionError ->
    skipcc (session w) = None ->
    0 <= skip (session w) ->
    (Nat.max (length (difflist (session w)))
       (Z.to_nat (skip (session w)) + 100) + 2 <= fuel)%nat ->
    gtcheck env fuel reponame w <> Raise RecursionError /\
    gtcheck env fuel reponame w =
    gtcheck env
      (Nat.max (length (difflist (session w)))
         (Z.to_nat (skip (session w)) + 100) + 2)
      reponame w.
Proof.
  intros env reponame w fuel Hquiet Hnone Hskip Hfuel. split.
  - apply gtcheck_depth_first; try assumption. lia.
  - apply gtcheck_fuel_first; try assumption; lia.
Qed.

Lemma gtcheck_recursion_is_bounded_witness :
  gtcheck Demo.review_env 500 "book" Demo.start <> Raise RecursionError /\
  gtcheck Demo.review_env 500 "book" Demo.start =
  gtcheck Demo.review_env
    (Nat.max (length (difflist (session Demo.start)))
       (Z.to_nat (skip (session Demo.start)) + 100) + 2)
    "book" Demo.start.
Proof.
  apply (gtcheck_recursion_is_bounded Demo.review_env "book" Demo.start 500).
  - apply demo_never_raises.
  - reflexivity.
  - cbn. lia.
  - cbn. lia.
Defined.
